(** * Boids flocking kernels (src/kernel.cu): a shallow embedding

    The CUDA kernels and the three host step functions of [src/kernel.cu]
    are embedded as Rocq functions.

    - [float] is modelled by the real numbers [R] (exact arithmetic);
      [glm::vec3] is a record of three reals, [glm::ivec3] of three
      integers.  Comparisons of floats are the booleans [Rltb] and [Rgtb];
      they are decided by proof, not by computation.  Where rounding
      decides a property, the thread of the brute-force evaluator is also
      given in binary32 (module [B32]).
    - [int] is modelled by [Z]; every integer the kernels compute from
      in-domain data is far below 2^31 (see [gridIndex_in_int_range]).
    - A device buffer is the list of its elements.  Reading or writing a
      buffer outside its bounds is undefined behaviour in CUDA; here it makes
      the computation stop with [OutOfBounds].
    - A kernel is given by the body run by one thread; a launch runs the
      body for every thread index of the launch configuration.  Every
      kernel writes, per thread, only slots that no other thread reads or
      writes, so running the threads one after the other is faithful.
    - A global pointer is modelled by the contents of the buffer it points
      to; [std::swap] of two pointers exchanges the two fields.
    - What the kernels print is collected in [dev_stdout].  The calls of
      [checkCUDAError] between the launches are not modelled: no launch
      fails. *)

From Stdlib Require Import ZArith List Bool String Reals Lra Lia Permutation
  Sorted SpecFloat.
Import ListNotations.

Local Open Scope Z_scope.

(** ** Results of device code: a value, or an out-of-bounds access *)

Inductive result (A : Type) : Type :=
| Ok (a : A)
| OutOfBounds.

Arguments Ok {A} a.
Arguments OutOfBounds {A}.

Definition bind {A B : Type} (m : result A) (k : A -> result B) : result B :=
  match m with
  | Ok a => k a
  | OutOfBounds => OutOfBounds
  end.

Notation "x <- m ;; k" := (bind m (fun x => k))
  (at level 61, m at next level, right associativity).
Notation "' pat <- m ;; k" := (bind m (fun x => match x with pat => k end))
  (at level 61, pat pattern, m at next level, right associativity).

(** ** Buffers *)

Section Buffers.
Context {A : Type}.

(** [buf[i]] as an rvalue. *)
Definition rd (buf : list A) (i : Z) : result A :=
  if i <? 0 then OutOfBounds
  else match nth_error buf (Z.to_nat i) with
       | Some a => Ok a
       | None => OutOfBounds
       end.

Fixpoint set_nth (buf : list A) (n : nat) (a : A) : list A :=
  match buf, n with
  | [], _ => []
  | _ :: r, O => a :: r
  | b :: r, S m => b :: set_nth r m a
  end.

(** [buf[i] = a]. *)
Definition wr (buf : list A) (i : Z) (a : A) : result (list A) :=
  if (i <? 0) || (Z.of_nat (List.length buf) <=? i) then OutOfBounds
  else Ok (set_nth buf (Z.to_nat i) a).
End Buffers.

(** ** Kernel launches *)

(** [#define blockSize 128] *)
Definition blockSize : Z := 128.

Fixpoint foldM {S : Type} (body : Z -> S -> result S) (ids : list Z) (s : S)
  : result S :=
  match ids with
  | [] => Ok s
  | i :: rest => s' <- body i s ;; foldM body rest s'
  end.

(** The integers [lo], [lo+1], ..., [lo+n-1]. *)
Definition zrange (lo : Z) (n : nat) : list Z :=
  map (fun k => lo + Z.of_nat k) (seq 0 n).

(** The thread indices [threadIdx.x + blockIdx.x * blockDim.x] of a launch
    [<<< blocks, blockSize >>>]. *)
Definition threadIds (blocks : Z) : list Z :=
  zrange 0 (Z.to_nat (blocks * blockSize)).

Definition launch {S : Type} (blocks : Z) (body : Z -> S -> result S) (s : S)
  : result S :=
  foldM body (threadIds blocks) s.

(** ** glm vectors over exact arithmetic *)

Record vec3 : Type := mkvec3 { vx : R; vy : R; vz : R }.
Record ivec3 : Type := mkivec3 { ix : Z; iy : Z; iz : Z }.

Definition Rltb (a b : R) : bool := if Rlt_dec a b then true else false.
Definition Rgtb (a b : R) : bool := Rltb b a.

(** Conversion of a float to an int: truncation toward zero. *)
Definition truncZ (r : R) : Z :=
  if Rle_dec 0 r then Int_part r else - Int_part (- r).

Definition vzero : vec3 := mkvec3 0 0 0.

Definition vadd (a b : vec3) : vec3 :=
  mkvec3 (vx a + vx b) (vy a + vy b) (vz a + vz b).
Definition vsub (a b : vec3) : vec3 :=
  mkvec3 (vx a - vx b) (vy a - vy b) (vz a - vz b).
Definition vneg (a : vec3) : vec3 :=
  mkvec3 (- vx a) (- vy a) (- vz a).
Definition vscale (a : vec3) (k : R) : vec3 :=
  mkvec3 (vx a * k) (vy a * k) (vz a * k).
Definition vdiv (a : vec3) (k : R) : vec3 :=
  mkvec3 (vx a / k) (vy a / k) (vz a / k).

Definition glm_dot (a b : vec3) : R :=
  (vx a * vx b + vy a * vy b + vz a * vz b)%R.
Definition glm_length (a : vec3) : R := sqrt (glm_dot a a).
Definition glm_distance (a b : vec3) : R := glm_length (vsub b a).
(** [glm::normalize(v) = v * inversesqrt(dot(v, v))] *)
Definition glm_normalize (a : vec3) : vec3 :=
  vscale a (1 / sqrt (glm_dot a a)).

(** [glm::ivec3(v)] and [glm::vec3(iv)] *)
Definition to_ivec3 (a : vec3) : ivec3 :=
  mkivec3 (truncZ (vx a)) (truncZ (vy a)) (truncZ (vz a)).
Definition of_ivec3 (a : ivec3) : vec3 :=
  mkvec3 (IZR (ix a)) (IZR (iy a)) (IZR (iz a)).
Definition iadd (a b : ivec3) : ivec3 :=
  mkivec3 (ix a + ix b) (iy a + iy b) (iz a + iz b).

(** ** Configuration (the #defines of kernel.cu) *)

Definition rule1Distance : R := 5.
Definition rule2Distance : R := 3.
Definition rule3Distance : R := 5.
Definition rule1Scale : R := 1 / 100.
Definition rule2Scale : R := 1 / 10.
Definition rule3Scale : R := 1 / 10.
Definition maxSpeed : R := 1.
Definition scene_scale : R := 100.

(** ** The boids rules *)

(** The five accumulators of the neighbour loops. *)
Record accum : Type := mkaccum {
  center : vec3;
  numRule1 : Z;
  c : vec3;
  perceived_velocity : vec3;
  numRule3 : Z
}.

Definition accum0 : accum := mkaccum vzero 0 vzero vzero 0.

(** The body of the neighbour loops under their [!=] test (kernel.cu
    257-274, 520-536, 620-636), the same text in the three evaluators: boid
    [b] is examined from a boid at position [currentPos]. *)
Definition applyRules (currentPos : vec3) (pos vel : list vec3)
    (b : Z) (a : accum) : result accum :=
    pos_b <- rd pos b ;;
    let distance := glm_distance currentPos pos_b in
    let a1 :=
      if Rltb distance rule1Distance
      then mkaccum (vadd (center a) pos_b) (numRule1 a + 1) (c a)
                   (perceived_velocity a) (numRule3 a)
      else a in
    let a2 :=
      if Rltb distance rule2Distance
      then mkaccum (center a1) (numRule1 a1)
                   (vsub (c a1) (vsub pos_b currentPos))
                   (perceived_velocity a1) (numRule3 a1)
      else a1 in
    if Rltb distance rule3Distance
    then vel_b <- rd vel b ;;
         Ok (mkaccum (center a2) (numRule1 a2) (c a2)
                     (vadd (perceived_velocity a2) vel_b) (numRule3 a2 + 1))
    else Ok a2.

(** The code after the neighbour loops (kernel.cu 278-290, 541-551,
    641-651): the sum [center + c + perceived_velocity] of the three
    scaled contributions. *)
Definition combineRules (currentPos : vec3) (a : accum) : vec3 :=
  let center' :=
    if numRule1 a =? 0 then center a
    else vscale (vsub (vdiv (center a) (IZR (numRule1 a))) currentPos)
                rule1Scale in
  let c' := vscale (c a) rule2Scale in
  let perceived_velocity' :=
    if numRule3 a =? 0 then perceived_velocity a
    else vscale (vdiv (perceived_velocity a) (IZR (numRule3 a))) rule3Scale in
  vadd (vadd center' c') perceived_velocity'.

(** [computeVelocityChange] (kernel.cu 247-291). *)
Definition computeVelocityChange (N iSelf : Z) (pos vel : list vec3)
  : result vec3 :=
  a <- foldM (fun i a =>
                if iSelf =? i then Ok a
                else pos_self <- rd pos iSelf ;;
                     applyRules pos_self pos vel i a)
             (zrange 0 (Z.to_nat N)) accum0 ;;
  if numRule1 a =? 0
  then Ok (combineRules vzero a)
  else pos_self <- rd pos iSelf ;; Ok (combineRules pos_self a).

(** The speed limit (kernel.cu 309-311, 556-558, 656-658). *)
Definition limitSpeed (newVector : vec3) : vec3 :=
  if Rgtb (glm_length newVector) maxSpeed
  then vscale (glm_normalize newVector) maxSpeed
  else newVector.

(** The diagnostic (kernel.cu 312-314, 559-561, 659-661): what is printed
    for the vector that is about to be stored. *)
Definition speedWarning (newVector : vec3) : list string :=
  if Rgtb (vx newVector) maxSpeed || Rgtb (vy newVector) maxSpeed
     || Rgtb (vz newVector) maxSpeed
  then ["Speed limit exceeded."%string]
  else [].

(** What a velocity kernel changes: the output velocity buffer and the
    device's standard output. *)
Definition velOut : Type := (list vec3 * list string)%type.

(** [kernUpdateVelocityBruteForce] (kernel.cu 297-316), thread [i]. *)
Definition kernUpdateVelocityBruteForce (N : Z) (pos vel1 : list vec3)
    (i : Z) (o : velOut) : result velOut :=
  let '(vel2, out) := o in
  if i >=? N then Ok o
  else
    dv <- computeVelocityChange N i pos vel1 ;;
    v <- rd vel1 i ;;
    let newVector := limitSpeed (vadd dv v) in
    vel2' <- wr vel2 i newVector ;;
    Ok (vel2', (out ++ speedWarning newVector)%list).

(** [kernUpdatePos] (kernel.cu 322-341), thread [index]. *)
Definition wrapLow (x : R) : R := if Rltb x (- scene_scale) then scene_scale else x.
Definition wrapHigh (x : R) : R := if Rgtb x scene_scale then (- scene_scale)%R else x.

Definition kernUpdatePos (N : Z) (dt : R) (vel : list vec3)
    (index : Z) (pos : list vec3) : result (list vec3) :=
  if index >=? N then Ok pos
  else
    p <- rd pos index ;;
    v <- rd vel index ;;
    let thisPos := vadd p (vscale v dt) in
    let thisPos := mkvec3 (wrapLow (vx thisPos)) (wrapLow (vy thisPos))
                          (wrapLow (vz thisPos)) in
    let thisPos := mkvec3 (wrapHigh (vx thisPos)) (wrapHigh (vy thisPos))
                          (wrapHigh (vz thisPos)) in
    wr pos index thisPos.

(** [gridIndex3Dto1D] (kernel.cu 349-351). *)
Definition gridIndex3Dto1D (x y z gridResolution : Z) : Z :=
  x + y * gridResolution + z * gridResolution * gridResolution.

(** [kernComputeIndices] (kernel.cu 359-376), thread [i]; the state is the
    pair of [indices] and [gridIndices]. *)
Definition kernComputeIndices (N gridResolution : Z) (gridMin : vec3)
    (inverseCellWidth : R) (pos : list vec3)
    (i : Z) (o : list Z * list Z) : result (list Z * list Z) :=
  let '(indices, gridIndices) := o in
  if i <? N then
    indices' <- wr indices i i ;;
    p <- rd pos i ;;
    let gridCells := to_ivec3 (vscale (vadd (vneg gridMin) p) inverseCellWidth) in
    gridIndices' <- wr gridIndices i
      (gridIndex3Dto1D (ix gridCells) (iy gridCells) (iz gridCells)
                       gridResolution) ;;
    Ok (indices', gridIndices')
  else Ok o.

(** [kernResetIntBuffer] (kernel.cu 380-385), thread [index]. *)
Definition kernResetIntBuffer (N : Z) (value : Z)
    (index : Z) (intBuffer : list Z) : result (list Z) :=
  if index <? N then wr intBuffer index value else Ok intBuffer.

(** [kernIdentifyCellStartEnd] (kernel.cu 387-414), thread [i]; the state
    is the pair of [gridCellStartIndices] and [gridCellEndIndices]. *)
Definition kernIdentifyCellStartEnd (N : Z) (particleGridIndices : list Z)
    (i : Z) (o : list Z * list Z) : result (list Z * list Z) :=
  let '(gridCellStartIndices, gridCellEndIndices) := o in
  (* Check if last entry *)
  gridCellEndIndices <-
    (if (i >? 0) && (i =? N - 1)
     then g <- rd particleGridIndices i ;; wr gridCellEndIndices g i
     else Ok gridCellEndIndices) ;;
  (* Check if first entry and return *)
  if i =? 0 then
    g <- rd particleGridIndices i ;;
    gridCellStartIndices <- wr gridCellStartIndices g i ;;
    Ok (gridCellStartIndices, gridCellEndIndices)
  else if i <? N then
    gp <- rd particleGridIndices (i - 1) ;;
    g <- rd particleGridIndices i ;;
    if negb (gp =? g) then
      gp <- rd particleGridIndices (i - 1) ;;
      gridCellEndIndices <- wr gridCellEndIndices gp (i - 1) ;;
      g <- rd particleGridIndices i ;;
      gridCellStartIndices <- wr gridCellStartIndices g i ;;
      Ok (gridCellStartIndices, gridCellEndIndices)
    else Ok (gridCellStartIndices, gridCellEndIndices)
  else Ok (gridCellStartIndices, gridCellEndIndices).

(** [calculateBoidNeighborCells] (kernel.cu 416-466): the eight entries
    written to [neighbors].  The three tests all assign [x]. *)
Definition neighborSigns (spacialIndex : vec3) : Z * Z * Z :=
  let x := 1 in
  let y := 1 in
  let z := 1 in
  let aux := vsub spacialIndex (of_ivec3 (to_ivec3 spacialIndex)) in
  let x := if Rltb (vx aux) (1 / 2) then -1 else x in
  let x := if Rltb (vy aux) (1 / 2) then -1 else x in
  let x := if Rltb (vz aux) (1 / 2) then -1 else x in
  (x, y, z).

Definition neighborDiffs (x y z : Z) : list ivec3 :=
  [ mkivec3 0 0 0; mkivec3 x 0 0; mkivec3 0 y 0; mkivec3 0 0 z;
    mkivec3 x y 0; mkivec3 0 y z; mkivec3 x 0 z; mkivec3 x y z ].

Definition filterCell (gridResolution : Z) (toEval : ivec3) : Z :=
  if (ix toEval <? 0) || (ix toEval >=? gridResolution)
     || (iy toEval <? 0) || (iy toEval >=? gridResolution)
     || (iz toEval <? 0) || (iz toEval >=? gridResolution)
  then -1
  else gridIndex3Dto1D (ix toEval) (iy toEval) (iz toEval) gridResolution.

Definition calculateBoidNeighborCells (spacialIndex : vec3)
    (gridResolution : Z) : list Z :=
  let '(x, y, z) := neighborSigns spacialIndex in
  map (fun d => filterCell gridResolution (iadd (to_ivec3 spacialIndex) d))
      (neighborDiffs x y z).

(** The neighbour loops of the two grid evaluators: for each of the eight
    [neighbors], skipping the negative ones, the sorted entries from
    [start] up to [end] are visited.  [lastOffset] is [1] for the loop
    [j <= end] (kernel.cu 517) and [0] for the loop [j < end] (kernel.cu
    617); [slotOf j] is the boid designated by entry [j]. *)
Definition visitCell (lastOffset : Z) (slotOf : Z -> result Z)
    (linearIndex : Z) (currentPos : vec3) (pos vel1 : list vec3)
    (gridCellStartIndices gridCellEndIndices : list Z)
    (cell : Z) (a : accum) : result accum :=
  if cell <? 0 then Ok a
  else
    start <- rd gridCellStartIndices cell ;;
    end_ <- rd gridCellEndIndices cell ;;
    foldM (fun j a =>
             b <- slotOf j ;;
             if linearIndex =? b then Ok a
             else applyRules currentPos pos vel1 b a)
          (zrange start (Z.to_nat (end_ - start + lastOffset))) a.

(** The tail shared by the two grid evaluators (kernel.cu 541-562,
    641-662). *)
Definition storeVelocity (linearIndex : Z) (currentPos : vec3)
    (vel1 : list vec3) (a : accum) (o : velOut) : result velOut :=
  let '(vel2, out) := o in
  v <- rd vel1 linearIndex ;;
  let newVector := limitSpeed (vadd (combineRules currentPos a) v) in
  vel2' <- wr vel2 linearIndex newVector ;;
  Ok (vel2', (out ++ speedWarning newVector)%list).

(** [kernUpdateVelNeighborSearchScattered] (kernel.cu 468-563), thread
    [index]. *)
Definition kernUpdateVelNeighborSearchScattered (N gridResolution : Z)
    (gridMin : vec3) (inverseCellWidth cellWidth : R)
    (gridCellStartIndices gridCellEndIndices particleArrayIndices : list Z)
    (pos vel1 : list vec3) (index : Z) (o : velOut) : result velOut :=
  if index >=? N then Ok o
  else
    linearIndex <- rd particleArrayIndices index ;;
    p <- rd pos linearIndex ;;
    let spacialIndex := vscale (vsub p gridMin) inverseCellWidth in
    let neighbors := calculateBoidNeighborCells spacialIndex gridResolution in
    currentPos <- rd pos linearIndex ;;
    a <- foldM (visitCell 1 (rd particleArrayIndices) linearIndex currentPos
                          pos vel1 gridCellStartIndices gridCellEndIndices)
               neighbors accum0 ;;
    storeVelocity linearIndex currentPos vel1 a o.

(** [kernUpdateVelNeighborSearchCoherent] (kernel.cu 565-663), thread
    [linearIndex]. *)
Definition kernUpdateVelNeighborSearchCoherent (N gridResolution : Z)
    (gridMin : vec3) (inverseCellWidth cellWidth : R)
    (gridCellStartIndices gridCellEndIndices : list Z)
    (pos vel1 : list vec3) (linearIndex : Z) (o : velOut) : result velOut :=
  if linearIndex >=? N then Ok o
  else
    p <- rd pos linearIndex ;;
    let spacialIndex := vscale (vsub p gridMin) inverseCellWidth in
    let neighbors := calculateBoidNeighborCells spacialIndex gridResolution in
    currentPos <- rd pos linearIndex ;;
    a <- foldM (visitCell 0 Ok linearIndex currentPos
                          pos vel1 gridCellStartIndices gridCellEndIndices)
               neighbors accum0 ;;
    storeVelocity linearIndex currentPos vel1 a o.

(** [kernPropogateCoherency] (kernel.cu 665-674), thread [i]; the state is
    the pair of [pos2] and [vel2]. *)
Definition kernPropogateCoherency (N : Z) (particaleArrayIndices : list Z)
    (pos vel : list vec3) (i : Z) (o : list vec3 * list vec3)
  : result (list vec3 * list vec3) :=
  let '(pos2, vel2) := o in
  if i >=? N then Ok o
  else
    k <- rd particaleArrayIndices i ;;
    v <- rd vel k ;;
    vel2' <- wr vel2 i v ;;
    k <- rd particaleArrayIndices i ;;
    p <- rd pos k ;;
    pos2' <- wr pos2 i p ;;
    Ok (pos2', vel2').

(** ** Kernel state: the globals of kernel.cu *)

Record Device : Type := mkDevice {
  numObjects : Z;
  dev_pos : list vec3;
  dev_vel1 : list vec3;
  dev_vel2 : list vec3;
  dev_particleArrayIndices : list Z;
  dev_particleGridIndices : list Z;
  dev_gridCellStartIndices : list Z;
  dev_gridCellEndIndices : list Z;
  dev_pos_co : list vec3;
  dev_vel_co : list vec3;
  gridCellCount : Z;
  gridSideCount : Z;
  gridCellWidth : R;
  gridInverseCellWidth : R;
  gridMinimum : vec3;
  (** what the kernels have printed *)
  dev_stdout : list string
}.

Definition with_pos (d : Device) (p : list vec3) : Device :=
  mkDevice (numObjects d) p (dev_vel1 d) (dev_vel2 d)
    (dev_particleArrayIndices d) (dev_particleGridIndices d)
    (dev_gridCellStartIndices d) (dev_gridCellEndIndices d)
    (dev_pos_co d) (dev_vel_co d) (gridCellCount d) (gridSideCount d)
    (gridCellWidth d) (gridInverseCellWidth d) (gridMinimum d) (dev_stdout d).

Definition with_vel1 (d : Device) (v : list vec3) : Device :=
  mkDevice (numObjects d) (dev_pos d) v (dev_vel2 d)
    (dev_particleArrayIndices d) (dev_particleGridIndices d)
    (dev_gridCellStartIndices d) (dev_gridCellEndIndices d)
    (dev_pos_co d) (dev_vel_co d) (gridCellCount d) (gridSideCount d)
    (gridCellWidth d) (gridInverseCellWidth d) (gridMinimum d) (dev_stdout d).

Definition with_vel2 (d : Device) (v : list vec3) : Device :=
  mkDevice (numObjects d) (dev_pos d) (dev_vel1 d) v
    (dev_particleArrayIndices d) (dev_particleGridIndices d)
    (dev_gridCellStartIndices d) (dev_gridCellEndIndices d)
    (dev_pos_co d) (dev_vel_co d) (gridCellCount d) (gridSideCount d)
    (gridCellWidth d) (gridInverseCellWidth d) (gridMinimum d) (dev_stdout d).

Definition with_indices (d : Device) (o : list Z * list Z) : Device :=
  mkDevice (numObjects d) (dev_pos d) (dev_vel1 d) (dev_vel2 d)
    (fst o) (snd o)
    (dev_gridCellStartIndices d) (dev_gridCellEndIndices d)
    (dev_pos_co d) (dev_vel_co d) (gridCellCount d) (gridSideCount d)
    (gridCellWidth d) (gridInverseCellWidth d) (gridMinimum d) (dev_stdout d).

Definition with_start (d : Device) (t : list Z) : Device :=
  mkDevice (numObjects d) (dev_pos d) (dev_vel1 d) (dev_vel2 d)
    (dev_particleArrayIndices d) (dev_particleGridIndices d)
    t (dev_gridCellEndIndices d)
    (dev_pos_co d) (dev_vel_co d) (gridCellCount d) (gridSideCount d)
    (gridCellWidth d) (gridInverseCellWidth d) (gridMinimum d) (dev_stdout d).

Definition with_end (d : Device) (t : list Z) : Device :=
  mkDevice (numObjects d) (dev_pos d) (dev_vel1 d) (dev_vel2 d)
    (dev_particleArrayIndices d) (dev_particleGridIndices d)
    (dev_gridCellStartIndices d) t
    (dev_pos_co d) (dev_vel_co d) (gridCellCount d) (gridSideCount d)
    (gridCellWidth d) (gridInverseCellWidth d) (gridMinimum d) (dev_stdout d).

Definition with_co (d : Device) (o : list vec3 * list vec3) : Device :=
  mkDevice (numObjects d) (dev_pos d) (dev_vel1 d) (dev_vel2 d)
    (dev_particleArrayIndices d) (dev_particleGridIndices d)
    (dev_gridCellStartIndices d) (dev_gridCellEndIndices d)
    (fst o) (snd o) (gridCellCount d) (gridSideCount d)
    (gridCellWidth d) (gridInverseCellWidth d) (gridMinimum d) (dev_stdout d).

Definition with_stdout (d : Device) (out : list string) : Device :=
  mkDevice (numObjects d) (dev_pos d) (dev_vel1 d) (dev_vel2 d)
    (dev_particleArrayIndices d) (dev_particleGridIndices d)
    (dev_gridCellStartIndices d) (dev_gridCellEndIndices d)
    (dev_pos_co d) (dev_vel_co d) (gridCellCount d) (gridSideCount d)
    (gridCellWidth d) (gridInverseCellWidth d) (gridMinimum d) out.

(** The grid parameters computed by [Boids::initSimulation] (kernel.cu
    161-171); [gridMinimum] is a zero-initialised global that the function
    decrements. *)
Definition initGrid (d : Device) : Device :=
  let gridCellWidth_ :=
    (2 * Rmax (Rmax rule1Distance rule2Distance) rule3Distance)%R in
  let halfSideCount := truncZ (scene_scale / gridCellWidth_) + 1 in
  let gridSideCount_ := 2 * halfSideCount in
  let gridCellCount_ := gridSideCount_ * gridSideCount_ * gridSideCount_ in
  let gridInverseCellWidth_ := (1 / gridCellWidth_)%R in
  let halfGridWidth := (gridCellWidth_ * IZR halfSideCount)%R in
  mkDevice (numObjects d) (dev_pos d) (dev_vel1 d) (dev_vel2 d)
    (dev_particleArrayIndices d) (dev_particleGridIndices d)
    (dev_gridCellStartIndices d) (dev_gridCellEndIndices d)
    (dev_pos_co d) (dev_vel_co d) gridCellCount_ gridSideCount_
    gridCellWidth_ gridInverseCellWidth_
    (mkvec3 (vx (gridMinimum d) - halfGridWidth)
            (vy (gridMinimum d) - halfGridWidth)
            (vz (gridMinimum d) - halfGridWidth))
    (dev_stdout d).

(** The sizes [Boids::initSimulation] allocates (kernel.cu 147-184). *)
Definition allocated (d : Device) : Prop :=
  let n := Z.to_nat (numObjects d) in
  0 <= numObjects d /\
  List.length (dev_pos d) = n /\
  List.length (dev_vel1 d) = n /\
  List.length (dev_vel2 d) = n /\
  List.length (dev_particleArrayIndices d) = n /\
  List.length (dev_particleGridIndices d) = n /\
  List.length (dev_gridCellStartIndices d) = Z.to_nat (gridCellCount d) /\
  List.length (dev_gridCellEndIndices d) = Z.to_nat (gridCellCount d) /\
  List.length (dev_pos_co d) = n /\
  List.length (dev_vel_co d) = n.

(** ** The step functions *)

(** [(numObjects + blockSize - 1) / blockSize] *)
Definition blocksPerGrid (d : Device) : Z :=
  Z.quot (numObjects d + blockSize - 1) blockSize.

(** [Boids::stepSimulationNaive] (kernel.cu 679-691). *)
Definition stepSimulationNaive (dt : R) (d : Device) : result Device :=
  o <- launch (blocksPerGrid d)
         (kernUpdateVelocityBruteForce (numObjects d) (dev_pos d) (dev_vel1 d))
         (dev_vel2 d, dev_stdout d) ;;
  let d := with_stdout (with_vel2 d (fst o)) (snd o) in
  p <- launch (blocksPerGrid d)
         (kernUpdatePos (numObjects d) dt (dev_vel1 d)) (dev_pos d) ;;
  let d := with_pos d p in
  (* std::swap(dev_vel1, dev_vel2) *)
  Ok (with_vel2 (with_vel1 d (dev_vel2 d)) (dev_vel1 d)).

Inductive Strategy : Type := BruteForce | ScatteredGrid | CoherentGrid.

Section Steps.

(** [thrust::sort_by_key(keys, keys + numObjects, values)] on the first
    [numObjects] entries of the two buffers: the sorted keys and the values
    permuted with them.  The primitive belongs to the Thrust library and
    is taken as a parameter. *)
Variable sort_by_key : list Z -> list Z -> list Z * list Z.

(** kernel.cu 708-715 and 766-773: label the boids and sort. *)
Definition computeAndSortIndices (d : Device) : result Device :=
  o <- launch (blocksPerGrid d)
         (kernComputeIndices (numObjects d) (gridSideCount d) (gridMinimum d)
            (gridInverseCellWidth d) (dev_pos d))
         (dev_particleArrayIndices d, dev_particleGridIndices d) ;;
  let d := with_indices d o in
  let n := Z.to_nat (numObjects d) in
  let '(keys, values) :=
    sort_by_key (firstn n (dev_particleGridIndices d))
                (firstn n (dev_particleArrayIndices d)) in
  Ok (with_indices d (values ++ skipn n (dev_particleArrayIndices d),
                      keys ++ skipn n (dev_particleGridIndices d))).

(** kernel.cu 718-721 and 761-764: the two launches of
    [kernResetIntBuffer]. *)
Definition resetCellTables (d : Device) : result Device :=
  e <- launch (blocksPerGrid d) (kernResetIntBuffer (numObjects d) (-1))
         (dev_gridCellEndIndices d) ;;
  let d := with_end d e in
  s <- launch (blocksPerGrid d) (kernResetIntBuffer (numObjects d) (-1))
         (dev_gridCellStartIndices d) ;;
  Ok (with_start d s).

(** kernel.cu 724-726 and 776-778. *)
Definition identifyCells (d : Device) : result Device :=
  o <- launch (blocksPerGrid d)
         (kernIdentifyCellStartEnd (numObjects d) (dev_particleGridIndices d))
         (dev_gridCellStartIndices d, dev_gridCellEndIndices d) ;;
  Ok (with_end (with_start d (fst o)) (snd o)).

(** The state in which [stepSimulationScatteredGrid] launches
    [kernIdentifyCellStartEnd] (kernel.cu 707-721). *)
Definition scatteredBeforeIdentify (d : Device) : result Device :=
  d <- computeAndSortIndices d ;;
  resetCellTables d.

(** The state in which [stepSimulationCoherentGrid] launches
    [kernIdentifyCellStartEnd] (kernel.cu 758-773). *)
Definition coherentBeforeIdentify (d : Device) : result Device :=
  d <- resetCellTables d ;;
  computeAndSortIndices d.

(** The state in which [stepSimulationScatteredGrid] launches its
    evaluator: the boundary tables are built (kernel.cu 707-726). *)
Definition scatteredAfterIdentify (d : Device) : result Device :=
  d <- scatteredBeforeIdentify d ;;
  identifyCells d.

(** [Boids::stepSimulationScatteredGrid] (kernel.cu 693-739). *)
Definition stepSimulationScatteredGrid (dt : R) (d : Device)
  : result Device :=
  d <- scatteredAfterIdentify d ;;
  o <- launch (blocksPerGrid d)
         (kernUpdateVelNeighborSearchScattered (numObjects d)
            (gridSideCount d) (gridMinimum d) (gridInverseCellWidth d)
            (gridCellWidth d) (dev_gridCellStartIndices d)
            (dev_gridCellEndIndices d) (dev_particleArrayIndices d)
            (dev_pos d) (dev_vel1 d))
         (dev_vel2 d, dev_stdout d) ;;
  let d := with_stdout (with_vel2 d (fst o)) (snd o) in
  p <- launch (blocksPerGrid d)
         (kernUpdatePos (numObjects d) dt (dev_vel2 d)) (dev_pos d) ;;
  let d := with_pos d p in
  (* std::swap(dev_vel1, dev_vel2) *)
  Ok (with_vel2 (with_vel1 d (dev_vel2 d)) (dev_vel1 d)).

(** The state in which [stepSimulationCoherentGrid] launches
    [kernPropogateCoherency]: the boundary tables are built (kernel.cu
    758-778). *)
Definition coherentAfterIdentify (d : Device) : result Device :=
  d <- coherentBeforeIdentify d ;;
  identifyCells d.

(** [Boids::stepSimulationCoherentGrid] (kernel.cu 741-797). *)
Definition stepSimulationCoherentGrid (dt : R) (d : Device)
  : result Device :=
  d <- coherentAfterIdentify d ;;
  o <- launch (blocksPerGrid d)
         (kernPropogateCoherency (numObjects d) (dev_particleArrayIndices d)
            (dev_pos d) (dev_vel1 d))
         (dev_pos_co d, dev_vel_co d) ;;
  let d := with_co d o in
  o <- launch (blocksPerGrid d)
         (kernUpdateVelNeighborSearchCoherent (numObjects d)
            (gridSideCount d) (gridMinimum d) (gridInverseCellWidth d)
            (gridCellWidth d) (dev_gridCellStartIndices d)
            (dev_gridCellEndIndices d) (dev_pos_co d) (dev_vel_co d))
         (dev_vel1 d, dev_stdout d) ;;
  let d := with_stdout (with_vel1 d (fst o)) (snd o) in
  p <- launch (blocksPerGrid d)
         (kernUpdatePos (numObjects d) dt (dev_vel1 d)) (dev_pos_co d) ;;
  let d := with_co d (p, dev_vel_co d) in
  (* std::swap(dev_vel_co, dev_vel2); std::swap(dev_pos, dev_pos_co) *)
  let d := with_vel2 (with_co d (dev_pos_co d, dev_vel2 d)) (dev_vel_co d) in
  Ok (with_co (with_pos d (dev_pos_co d)) (dev_pos d, dev_vel_co d)).

(** Modelled from the spec: [step(dt, strategy)] of section 6, which
    advances the state with the named strategy; the caller that selects
    the step function (main.cpp) is not part of the sources. *)
Definition step (strategy : Strategy) (dt : R) (d : Device)
  : result Device :=
  match strategy with
  | BruteForce => stepSimulationNaive dt d
  | ScatteredGrid => stepSimulationScatteredGrid dt d
  | CoherentGrid => stepSimulationCoherentGrid dt d
  end.

End Steps.

(** Modelled from the spec: the KeySort primitive of section 4.2, an
    ascending sort of the keys with the values permuted identically;
    [thrust::sort_by_key] belongs to the Thrust library.  This instance is
    the stable insertion sort. *)
Fixpoint insert_by_key (k v : Z) (l : list (Z * Z)) : list (Z * Z) :=
  match l with
  | [] => [(k, v)]
  | (k', v') :: r =>
      if k <? k' then (k, v) :: l else (k', v') :: insert_by_key k v r
  end.

Definition sort_pairs (l : list (Z * Z)) : list (Z * Z) :=
  fold_right (fun kv acc => insert_by_key (fst kv) (snd kv) acc) [] l.

Definition insertion_sort_by_key (keys values : list Z) : list Z * list Z :=
  let s := sort_pairs (combine keys values) in
  (map fst s, map snd s).

(** ** Initialisation and display *)

(** [kernGenerateRandomPosArray] (kernel.cu 128-136), thread [index].
    [generateRandomVec3] draws from Thrust's random engine and is taken as
    a parameter; the three component stores are one store of the vector. *)
Definition kernGenerateRandomPosArray (generateRandomVec3 : R -> Z -> vec3)
    (time N : Z) (scale : R) (index : Z) (arr : list vec3)
  : result (list vec3) :=
  if index <? N then
    let rand := generateRandomVec3 (IZR time) index in
    wr arr index
       (mkvec3 (scale * vx rand) (scale * vy rand) (scale * vz rand))
  else Ok arr.

(** [Boids::initSimulation] (kernel.cu 141-188).  [fresh] gives the
    contents of the buffers as [cudaMalloc] returns them and the globals as
    they are before the call. *)
Definition initSimulation (generateRandomVec3 : R -> Z -> vec3) (N : Z)
    (fresh : Device) : result Device :=
  let d :=
    mkDevice N (dev_pos fresh) (dev_vel1 fresh) (dev_vel2 fresh)
      (dev_particleArrayIndices fresh) (dev_particleGridIndices fresh)
      (dev_gridCellStartIndices fresh) (dev_gridCellEndIndices fresh)
      (dev_pos_co fresh) (dev_vel_co fresh) (gridCellCount fresh)
      (gridSideCount fresh) (gridCellWidth fresh)
      (gridInverseCellWidth fresh) (gridMinimum fresh) (dev_stdout fresh) in
  let fullBlocksPerGrid := Z.quot (N + blockSize - 1) blockSize in
  p <- launch fullBlocksPerGrid
         (kernGenerateRandomPosArray generateRandomVec3 1 (numObjects d)
            scene_scale)
         (dev_pos d) ;;
  Ok (initGrid (with_pos d p)).




(** ** The brute-force evaluator in binary32

    The definitions above compute over exact reals.  This section
    evaluates the thread of [kernUpdateVelocityBruteForce] as the device
    does, in IEEE 754 binary32 with rounding to nearest even
    ([SpecFloat], [prec = 24], [emax = 128]).  The functions of glm are
    taken as GLM defines them: [dot] sums the three products from left to
    right, [length] is [sqrt (dot v v)], [distance a b] is
    [length (b - a)] and [normalize v] is [v * (1 / sqrt (dot v v))]. *)
Module B32.

Definition prec : Z := 24.
Definition emax : Z := 128.
Definition float : Type := spec_float.

(** An [int] converted to [float]. *)
Definition of_int (z : Z) : float := binary_normalize prec emax z 0 false.

Definition add : float -> float -> float := SFadd prec emax.
Definition sub : float -> float -> float := SFsub prec emax.
Definition mul : float -> float -> float := SFmul prec emax.
Definition div : float -> float -> float := SFdiv prec emax.
Definition sqrt : float -> float := SFsqrt prec emax.
Definition ltb : float -> float -> bool := SFltb.
Definition gtb (a b : float) : bool := SFltb b a.

(** A decimal literal [n / d], rounded once. *)
Definition literal (n d : Z) : float := div (of_int n) (of_int d).

Definition rule1Distance : float := of_int 5.
Definition rule2Distance : float := of_int 3.
Definition rule3Distance : float := of_int 5.
Definition rule1Scale : float := literal 1 100.
Definition rule2Scale : float := literal 1 10.
Definition rule3Scale : float := literal 1 10.
Definition maxSpeed : float := of_int 1.

Record vec3 : Type := mkvec3 { vx : float; vy : float; vz : float }.

Definition vzero : vec3 := mkvec3 (of_int 0) (of_int 0) (of_int 0).
Definition vadd (a b : vec3) : vec3 :=
  mkvec3 (add (vx a) (vx b)) (add (vy a) (vy b)) (add (vz a) (vz b)).
Definition vsub (a b : vec3) : vec3 :=
  mkvec3 (sub (vx a) (vx b)) (sub (vy a) (vy b)) (sub (vz a) (vz b)).
Definition vscale (a : vec3) (k : float) : vec3 :=
  mkvec3 (mul (vx a) k) (mul (vy a) k) (mul (vz a) k).
Definition vdiv (a : vec3) (k : float) : vec3 :=
  mkvec3 (div (vx a) k) (div (vy a) k) (div (vz a) k).

Definition glm_dot (a b : vec3) : float :=
  add (add (mul (vx a) (vx b)) (mul (vy a) (vy b))) (mul (vz a) (vz b)).
Definition glm_length (a : vec3) : float := sqrt (glm_dot a a).
Definition glm_distance (a b : vec3) : float := glm_length (vsub b a).
Definition glm_normalize (a : vec3) : vec3 :=
  vscale a (div (of_int 1) (sqrt (glm_dot a a))).

Record accum : Type := mkaccum {
  center : vec3;
  numRule1 : Z;
  c : vec3;
  perceived_velocity : vec3;
  numRule3 : Z
}.

Definition accum0 : accum := mkaccum vzero 0 vzero vzero 0.

(** The body of the loop of [computeVelocityChange] under its [!=] test
    (kernel.cu 257-274). *)
Definition applyRules (iSelf : Z) (pos vel : list vec3)
    (i : Z) (a : accum) : result accum :=
  pos_self <- rd pos iSelf ;;
  pos_i <- rd pos i ;;
  let distance := glm_distance pos_self pos_i in
  a <- (if ltb distance rule1Distance
        then pos_i <- rd pos i ;;
             Ok (mkaccum (vadd (center a) pos_i) (numRule1 a + 1) (c a)
                         (perceived_velocity a) (numRule3 a))
        else Ok a) ;;
  a <- (if ltb distance rule2Distance
        then pos_i <- rd pos i ;;
             pos_self <- rd pos iSelf ;;
             Ok (mkaccum (center a) (numRule1 a)
                         (vsub (c a) (vsub pos_i pos_self))
                         (perceived_velocity a) (numRule3 a))
        else Ok a) ;;
  if ltb distance rule3Distance
  then vel_i <- rd vel i ;;
       Ok (mkaccum (center a) (numRule1 a) (c a)
                   (vadd (perceived_velocity a) vel_i) (numRule3 a + 1))
  else Ok a.

(** [computeVelocityChange] (kernel.cu 247-291). *)
Definition computeVelocityChange (N iSelf : Z) (pos vel : list vec3)
  : result vec3 :=
  a <- foldM (fun i a => if iSelf =? i then Ok a
                         else applyRules iSelf pos vel i a)
             (zrange 0 (Z.to_nat N)) accum0 ;;
  center <- (if numRule1 a =? 0 then Ok (center a)
             else pos_self <- rd pos iSelf ;;
                  Ok (vscale (vsub (vdiv (center a) (of_int (numRule1 a)))
                                   pos_self)
                             rule1Scale)) ;;
  let c := vscale (c a) rule2Scale in
  let perceived_velocity :=
    if numRule3 a =? 0 then perceived_velocity a
    else vscale (vdiv (perceived_velocity a) (of_int (numRule3 a)))
                rule3Scale in
  Ok (vadd (vadd center c) perceived_velocity).

(** [kernUpdateVelocityBruteForce] (kernel.cu 297-316), thread [i]. *)
Definition kernUpdateVelocityBruteForce (N : Z) (pos vel1 : list vec3)
    (i : Z) (o : list vec3 * list string) : result (list vec3 * list string) :=
  let '(vel2, out) := o in
  if i >=? N then Ok o
  else
    dv <- computeVelocityChange N i pos vel1 ;;
    v <- rd vel1 i ;;
    let newVector := vadd dv v in
    let newVector :=
      if gtb (glm_length newVector) maxSpeed
      then vscale (glm_normalize newVector) maxSpeed
      else newVector in
    let out :=
      if gtb (vx newVector) maxSpeed || gtb (vy newVector) maxSpeed
         || gtb (vz newVector) maxSpeed
      then (out ++ ["Speed limit exceeded."%string])%list
      else out in
    vel2 <- wr vel2 i newVector ;;
    Ok (vel2, out).

(** The real number that a finite binary32 number denotes,
    [(-1)^s * m * 2^e]; 0 for the other values. *)
Definition toR (f : float) : R :=
  match f with
  | S754_finite s m e =>
      (IZR (if s then Z.neg m else Z.pos m) * powerRZ 2 e)%R
  | _ => 0%R
  end.

End B32.

(** * Specifications, invariants and concrete states *)

(** The wraparound of one coordinate as the specification words it: below
    [-scene_scale] it becomes [scene_scale], above [scene_scale] it becomes
    [-scene_scale], and it is kept otherwise. *)
Definition teleported (x r : R) : Prop :=
  ((x < - scene_scale)%R -> r = scene_scale) /\
  ((x > scene_scale)%R -> r = (- scene_scale)%R) /\
  ((- scene_scale <= x <= scene_scale)%R -> r = x).

(** Every coordinate of [p] lies in [[-scene_scale, scene_scale]]. *)
Definition inDomain (p : vec3) : Prop :=
  (- scene_scale <= vx p <= scene_scale)%R /\
  (- scene_scale <= vy p <= scene_scale)%R /\
  (- scene_scale <= vz p <= scene_scale)%R.

(** What thread [index] of [kernUpdatePos] stores. *)
Definition integrated (p v : vec3) (dt : R) : vec3 :=
  let moved := vadd p (vscale v dt) in
  mkvec3 (wrapHigh (wrapLow (vx moved))) (wrapHigh (wrapLow (vy moved)))
         (wrapHigh (wrapLow (vz moved))).

(** The globals before [initSimulation]: no buffer, zero-initialised grid
    parameters. *)
Definition dev0 : Device :=
  mkDevice 0 [] [] [] [] [] [] [] [] [] 0 0 0 0 vzero [].

(** The selection as the specification words it: the sign of each axis is
    decided by the fractional part on that axis alone. *)
Definition neighborSigns_spec (spacialIndex : vec3) : Z * Z * Z :=
  let aux := vsub spacialIndex (of_ivec3 (to_ivec3 spacialIndex)) in
  (if Rltb (vx aux) (1 / 2) then -1 else 1,
   if Rltb (vy aux) (1 / 2) then -1 else 1,
   if Rltb (vz aux) (1 / 2) then -1 else 1).

Definition neighborCells_spec (spacialIndex : vec3) (gridResolution : Z)
  : list Z :=
  let '(x, y, z) := neighborSigns_spec spacialIndex in
  map (fun d => filterCell gridResolution (iadd (to_ivec3 spacialIndex) d))
      (neighborDiffs x y z).

(** The boid at position (-52.5, -57.5, -52.5): its scaled offset from the
    grid minimum. *)
Definition spacialIndex_C2 : vec3 := mkvec3 (23 / 4) (21 / 4) (23 / 4).

(** The sum of [end[c] - start[c] + 1] over the cells [c] with
    [start[c] != -1], as the specification words it. *)
Fixpoint populatedSum (starts ends : list Z) : Z :=
  match starts, ends with
  | s :: starts', e :: ends' =>
      (if s =? -1 then 0 else e - s + 1) + populatedSum starts' ends'
  | _, _ => 0
  end.

(** A device with the grid of [initSimulation] and the given buffers. *)
Definition gridDevice (N : Z) (pos vel1 vel2 : list vec3)
    (arrayIndices gridIndices starts ends : list Z)
    (pos_co vel_co : list vec3) : Device :=
  mkDevice N pos vel1 vel2 arrayIndices gridIndices starts ends pos_co vel_co
    10648 22 10 (1 / 10) (mkvec3 (-110) (-110) (-110)) [].

(** One boid at rest at the origin, with the given boundary tables. *)
Definition oneBoid (starts ends : list Z) : Device :=
  gridDevice 1 [vzero] [vzero] [vzero] [0] [0] starts ends [vzero] [vzero].

(** A boundary table holding -1 in each of the 10648 cells. *)
Definition cleanTable : list Z := repeat (-1) (Z.to_nat 10648).

(** Boundary tables as an earlier step, or the allocation, may have left
    them: 7 in every cell. *)
Definition staleTable : list Z := repeat 7 (Z.to_nat 10648).

(** The three rules as the specification words them, for boid [p] among
    the [N] boids of [pos] and [vel]. *)
Section RulesSpec.
Variables (N : Z) (pos vel : list vec3) (p : Z).

Definition posOf (q : Z) : vec3 := nth (Z.to_nat q) pos vzero.
Definition velOf (q : Z) : vec3 := nth (Z.to_nat q) vel vzero.

(** [q] is another boid, closer to [p] than [d]. *)
Definition isNeighbor (d : R) (q : Z) : bool :=
  negb (q =? p) && Rltb (glm_distance (posOf p) (posOf q)) d.

Definition neighborsWithin (d : R) : list Z :=
  filter (isNeighbor d) (zrange 0 (Z.to_nat N)).

Definition vsum (l : list vec3) : vec3 := fold_left vadd l vzero.
Definition vmean (l : list vec3) : vec3 :=
  vdiv (vsum l) (IZR (Z.of_nat (List.length l))).

(** Rule 1: the mean of the neighbours' positions, minus the boid's own,
    scaled; nothing when no neighbour matched. *)
Definition cohesion_spec : vec3 :=
  match neighborsWithin rule1Distance with
  | [] => vzero
  | ns => vscale (vsub (vmean (map posOf ns)) (posOf p)) rule1Scale
  end.

(** Rule 2: the accumulated [-(pos[q] - pos[p])], scaled. *)
Definition separation_spec : vec3 :=
  vscale (vsum (map (fun q => vneg (vsub (posOf q) (posOf p)))
                    (neighborsWithin rule2Distance)))
         rule2Scale.

(** Rule 3: the mean of the neighbours' velocities, scaled; nothing when
    no neighbour matched. *)
Definition alignment_spec : vec3 :=
  match neighborsWithin rule3Distance with
  | [] => vzero
  | ns => vscale (vmean (map velOf ns)) rule3Scale
  end.

(** [vel_current[p] + rule1 + rule2 + rule3] *)
Definition ruleVelocity_spec : vec3 :=
  vadd (vadd (vadd (velOf p) cohesion_spec) separation_spec) alignment_spec.

(** The accumulators after the boids [ids] have been examined. *)
Definition accumulated (ids : list Z) (a : accum) : accum :=
  mkaccum
    (fold_left vadd (map posOf (filter (isNeighbor rule1Distance) ids))
               (center a))
    (numRule1 a
     + Z.of_nat (List.length (filter (isNeighbor rule1Distance) ids)))
    (fold_left vadd
               (map (fun q => vneg (vsub (posOf q) (posOf p)))
                    (filter (isNeighbor rule2Distance) ids))
               (c a))
    (fold_left vadd (map velOf (filter (isNeighbor rule3Distance) ids))
               (perceived_velocity a))
    (numRule3 a
     + Z.of_nat (List.length (filter (isNeighbor rule3Distance) ids))).

End RulesSpec.

(** Two boids one unit apart, both flying at [maxSpeed] along x. *)
Definition posPair : list vec3 := [vzero; mkvec3 (-1) 0 0].
Definition velPair : list vec3 := [mkvec3 1 0 0; mkvec3 1 0 0].

(** Two boids at rest, one unit apart. *)
Definition posRest : list vec3 := [vzero; mkvec3 1 0 0].
Definition velRest : list vec3 := [vzero; vzero].

(** The two boids at rest, boundary tables holding -1 in every cell. *)
Definition twoBoidsAtRest : Device :=
  gridDevice 2 posRest velRest [vzero; vzero] [0; 0] [0; 0]
    cleanTable cleanTable [vzero; vzero] [vzero; vzero].

(** The stages before the evaluator change the index buffers and the
    boundary tables only. *)
Definition with_grid (d : Device) (ai gi st en : list Z) : Device :=
  with_end (with_start (with_indices d (ai, gi)) st) en.

(** The loop over the entries of [cell] runs zero times. *)
Definition rangeIsEmpty (lastOffset : Z) (st en : list Z) (cell : Z) : bool :=
  (cell <? 0) ||
  match rd st cell, rd en cell with
  | Ok s, Ok e => e - s + lastOffset <=? 0
  | _, _ => false
  end.

(** Two positions stored against the order of their cells. *)
Definition posSwapped : list vec3 := [mkvec3 50 0 0; mkvec3 (-50) 0 0].

(** Two boids at rest, slot 0 in cell 5582 and slot 1 in cell 5572. *)
Definition twoBoidsSwapped (st en : list Z) : Device :=
  gridDevice 2 posSwapped velRest [vzero; vzero] [0; 0] [0; 0]
    st en [vzero; vzero] [vzero; vzero].

(** What a cell adds to [populatedSum]. *)
Definition contribution (s e : Z) : Z := if s =? -1 then 0 else e - s + 1.

(** The boundary-table build over the sorted cell identifiers [cells], on
    tables of [M] cells. *)
Section IdentifyDefs.
Variables (M : Z) (cells : list Z).

(** The cell identifier of the sorted entry [i]. *)
Definition cellAt (i : Z) : Z := nth (Z.to_nat i) cells 0.

(** What a thread does with the entries [i - 1] and [i] (kernel.cu
    407-412). *)
Definition closeAndOpen (i : Z) (st en : list Z) : result (list Z * list Z) :=
  if cellAt (i - 1) =? cellAt i then Ok (st, en)
  else en' <- wr en (cellAt (i - 1)) (i - 1) ;;
       st' <- wr st (cellAt i) i ;;
       Ok (st', en').

(** After the threads [0 .. m-1], [m < N]: the cell of entry [m-1] is open
    (its start is written, its end is not), every higher cell is
    untouched, and the sum over the populated cells is 0. *)
Definition openAt (m : Z) (st en : list Z) : Prop :=
  Z.of_nat (List.length st) = M /\ Z.of_nat (List.length en) = M /\
  (exists s, 0 <= s /\ rd st (cellAt (m - 1)) = Ok s) /\
  rd en (cellAt (m - 1)) = Ok (-1) /\
  (forall c, cellAt (m - 1) < c < M ->
             rd st c = Ok (-1) /\ rd en c = Ok (-1)) /\
  populatedSum st en = 0.
End IdentifyDefs.

(** The order of two (key, value) pairs by their keys. *)
Definition keyLe (a b : Z * Z) : Prop := fst a <= fst b.

(** Tables as the allocation may have left them: [start] 0 and [end] -1
    in every cell, an empty range. *)
Definition zeroTable : list Z := repeat 0 (Z.to_nat 10648).

(** The cell [a] belongs to the lattice of side [n]. *)
Definition inLattice (n : Z) (a : ivec3) : Prop :=
  0 <= ix a < n /\ 0 <= iy a < n /\ 0 <= iz a < n.

(** The sorted entries [a .. b] are exactly the entries of the cell of
    entry [i]. *)
Definition cellRange (N : Z) (cells : list Z) (i a b : Z) : Prop :=
  forall j, 0 <= j < N -> (cellAt cells j = cellAt cells i <-> a <= j <= b).

(** What [kernIdentifyCellStartEnd] has built over the sorted cell
    identifiers [cells], from the tables [st0] and [en0]. *)
Section IdentifyRangeDefs.
Variables (N M : Z) (cells st0 en0 : list Z).

(** Entry [a] is the first of its cell, entry [b] the last of its cell. *)
Definition runStart (a : Z) : Prop :=
  0 <= a < N /\ (a = 0 \/ cellAt cells (a - 1) <> cellAt cells a).

Definition runEnd (b : Z) : Prop :=
  0 <= b < N /\ (b = N - 1 \/ cellAt cells b <> cellAt cells (b + 1)).

(** A cell that holds no boid. *)
Definition unoccupied (x : Z) : Prop :=
  forall i, 0 <= i < N -> cellAt cells i <> x.

(** After the threads [0 .. m-1]: the starts of the cells entered so far
    and the ends of the cells left so far are written; the cells without
    boids are as they were. *)
Definition rangesBuilt (m : Z) (st en : list Z) : Prop :=
  Z.of_nat (List.length st) = M /\ Z.of_nat (List.length en) = M /\
  (forall a, runStart a -> a < m -> rd st (cellAt cells a) = Ok a) /\
  (forall b, runEnd b -> b < m - 1 -> rd en (cellAt cells b) = Ok b) /\
  (forall x, unoccupied x -> rd st x = rd st0 x) /\
  (forall x, unoccupied x -> rd en x = rd en0 x).
End IdentifyRangeDefs.

(** The identifier of the cell that holds the position [p] (kernel.cu
    373-374). *)
Definition cellOf (gridResolution : Z) (gridMin : vec3) (inverseCellWidth : R)
    (p : vec3) : Z :=
  let gridCells := to_ivec3 (vscale (vadd (vneg gridMin) p) inverseCellWidth) in
  gridIndex3Dto1D (ix gridCells) (iy gridCells) (iz gridCells) gridResolution.

(** What the steps need of [thrust::sort_by_key] on keys and values of
    the same length: the lengths are kept, the keys come out in ascending
    order, and the pairs of a key and its value are permuted. *)
Definition sortsByKey (sort : list Z -> list Z -> list Z * list Z) : Prop :=
  forall keys values,
    List.length keys = List.length values ->
    List.length (fst (sort keys values)) = List.length keys /\
    List.length (snd (sort keys values)) = List.length keys /\
    Sorted Z.le (fst (sort keys values)) /\
    Permutation (combine (fst (sort keys values)) (snd (sort keys values)))
                (combine keys values).

(** Buffers for three boids as an allocation may return them, every float
    holding 7; the globals are zero-initialised. *)
Definition fresh3 : Device :=
  let junk := repeat (mkvec3 7 7 7) 3 in
  mkDevice 0 junk junk junk [7; 7; 7] [7; 7; 7] [] [] junk junk
    0 0 0 0 vzero [].

(** Every pair of boundary-table entries is the cleared pair, or
    designates sorted entries of the boid buffers. *)
Definition tablesInRange (N cells : Z) (st en : list Z) : Prop :=
  forall x, 0 <= x < cells ->
    exists s e, rd st x = Ok s /\ rd en x = Ok e /\
                ((s = -1 /\ e = -1) \/ (0 <= s /\ e < N)).

(** The states from which the coherent step is shown to complete: the
    buffers and the grid of [initSimulation], between 2 and 10648 boids,
    all inside the domain, and boundary tables in range. *)
Definition coherentReady (d : Device) : Prop :=
  allocated d /\
  gridSideCount d = 22 /\
  gridMinimum d = mkvec3 (-110) (-110) (-110) /\
  gridInverseCellWidth d = (1 / 10)%R /\
  gridCellCount d = 10648 /\
  2 <= numObjects d <= 10648 /\
  Forall inDomain (dev_pos d) /\
  tablesInRange (numObjects d) (gridCellCount d)
    (dev_gridCellStartIndices d) (dev_gridCellEndIndices d).

(** The keys and the values that the grid steps hand to the sort, with
    the grid of [initSimulation]: the cell of every boid, and the boids
    [0 .. numObjects - 1]. *)
Definition boidCell (d : Device) (i : Z) : Z :=
  cellOf 22 (mkvec3 (-110) (-110) (-110)) (1 / 10) (posOf (dev_pos d) i).

Definition labelledCells (d : Device) : list Z :=
  map (boidCell d) (zrange 0 (Z.to_nat (numObjects d))).

Definition labelledBoids (d : Device) : list Z :=
  map (fun i : Z => i) (zrange 0 (Z.to_nat (numObjects d))).

(** The sorted cells and the boids listed beside them. *)
Definition sortedCells (sort : list Z -> list Z -> list Z * list Z)
    (d : Device) : list Z :=
  fst (sort (labelledCells d) (labelledBoids d)).

Definition sortedBoids (sort : list Z -> list Z -> list Z * list Z)
    (d : Device) : list Z :=
  snd (sort (labelledCells d) (labelledBoids d)).

(** The exact vector that a binary32 vector denotes. *)
Definition vec3_of_B32 (v : B32.vec3) : vec3 :=
  mkvec3 (B32.toR (B32.vx v)) (B32.toR (B32.vy v)) (B32.toR (B32.vz v)).

(** The velocity (1.09f, -0.5f, -2.0f). *)
Definition fastVelocity32 : B32.vec3 :=
  B32.mkvec3 (B32.literal 109 100) (B32.literal (-1) 2) (B32.of_int (-2)).

(** The values of a 32-bit [int]. *)
Definition inInt (z : Z) : Prop := - 2 ^ 31 <= z < 2 ^ 31.

(** Every product and sum that [x + y * n + z * n * n] evaluates is a
    value of [int]: [gridIndex3Dto1D] computes in 32 bits what it
    computes in [Z]. *)
Definition flattensInInt (x y z n : Z) : Prop :=
  inInt (y * n) /\ inInt (x + y * n) /\ inInt (z * n) /\
  inInt (z * n * n) /\ inInt (x + y * n + z * n * n).

(** The velocity that a thread of [kernUpdateVelocityBruteForce] stores
    for boid [i] (kernel.cu 307-311). *)
Definition bruteForceVelocity (N : Z) (pos vel1 : list vec3) (i : Z)
  : result vec3 :=
  dv <- computeVelocityChange N i pos vel1 ;;
  v <- rd vel1 i ;;
  Ok (limitSpeed (vadd dv v)).

(** The velocity that a thread of a grid evaluator stores for the boid in
    slot [b] of [pos] and [vel1] (kernel.cu 476-558, 573-658): the
    accumulators of the loops over its candidate cells, combined, added
    to its velocity and limited.  [lastOffset] and [slotOf] are those of
    [visitCell]. *)
Definition gridVelocity (lastOffset : Z) (slotOf : Z -> result Z)
    (gridResolution : Z) (gridMin : vec3) (inverseCellWidth : R)
    (gridCellStartIndices gridCellEndIndices : list Z)
    (pos vel1 : list vec3) (b : Z) : result vec3 :=
  p <- rd pos b ;;
  a <- foldM (visitCell lastOffset slotOf b p pos vel1
                        gridCellStartIndices gridCellEndIndices)
             (calculateBoidNeighborCells
                (vscale (vsub p gridMin) inverseCellWidth) gridResolution)
             accum0 ;;
  v <- rd vel1 b ;;
  Ok (limitSpeed (vadd (combineRules p a) v)).

(** * Verification *)

(** ** Comparisons and truncation *)

Lemma Rltb_true a b : (a < b)%R -> Rltb a b = true.
Proof. intros H; unfold Rltb; destruct (Rlt_dec a b); [reflexivity | contradiction]. Qed.

Lemma Rltb_false a b : (b <= a)%R -> Rltb a b = false.
Proof. intros H; unfold Rltb; destruct (Rlt_dec a b); [lra | reflexivity]. Qed.

Lemma Rltb_spec a b : reflect (a < b)%R (Rltb a b).
Proof. unfold Rltb; destruct (Rlt_dec a b); constructor; assumption. Qed.

Lemma truncZ_nonneg r z : (IZR z <= r < IZR z + 1)%R -> 0 <= z -> truncZ r = z.
Proof.
  intros [H1 H2] Hz. unfold truncZ.
  assert (0 <= r)%R by (apply IZR_le in Hz; lra).
  destruct (Rle_dec 0 r); [| contradiction].
  symmetry; apply Int_part_spec; lra.
Qed.

Lemma truncZ_bounds r lo hi :
  (IZR lo <= r < IZR hi)%R -> 0 <= lo -> lo <= truncZ r < hi.
Proof.
  intros [H1 H2] Hlo. unfold truncZ.
  assert (0 <= r)%R by (apply IZR_le in Hlo; lra).
  destruct (Rle_dec 0 r); [| contradiction].
  destruct (base_Int_part r) as [Ha Hb].
  split.
  - apply Z.lt_succ_r, lt_IZR. rewrite succ_IZR. lra.
  - apply lt_IZR. lra.
Qed.

(** ** Buffers *)

Section BufferFacts.
Context {A : Type}.
Implicit Types (buf : list A) (i j : Z) (a : A).

Lemma length_set_nth buf n a : List.length (set_nth buf n a) = List.length buf.
Proof. revert n; induction buf; intros [|n]; simpl; auto. Qed.

Lemma nth_error_set_nth_same buf n a :
  (n < List.length buf)%nat -> nth_error (set_nth buf n a) n = Some a.
Proof.
  revert n; induction buf; intros [|n] H; simpl in *; try lia; auto.
  apply IHbuf; lia.
Qed.

Lemma nth_error_set_nth_other buf n m a :
  n <> m -> nth_error (set_nth buf n a) m = nth_error buf m.
Proof.
  revert n m; induction buf; intros [|n] [|m] H; simpl; auto; try congruence.
Qed.

Lemma wr_Ok buf i a :
  0 <= i < Z.of_nat (List.length buf) ->
  wr buf i a = Ok (set_nth buf (Z.to_nat i) a).
Proof.
  intros H. unfold wr.
  destruct (Z.ltb_spec i 0); [lia |].
  destruct (Z.leb_spec (Z.of_nat (List.length buf)) i); [lia | reflexivity].
Qed.

Lemma wr_inv buf i a buf' :
  wr buf i a = Ok buf' ->
  0 <= i < Z.of_nat (List.length buf) /\ buf' = set_nth buf (Z.to_nat i) a.
Proof.
  unfold wr.
  destruct (Z.ltb_spec i 0); simpl; [discriminate |].
  destruct (Z.leb_spec (Z.of_nat (List.length buf)) i); [discriminate |].
  intros [= <-]. split; [lia | reflexivity].
Qed.

Lemma wr_length buf i a buf' :
  wr buf i a = Ok buf' -> List.length buf' = List.length buf.
Proof. intros H; apply wr_inv in H as [_ ->]; apply length_set_nth. Qed.

Lemma rd_Ok buf i :
  0 <= i < Z.of_nat (List.length buf) -> exists a, rd buf i = Ok a.
Proof.
  intros H. unfold rd. destruct (Z.ltb_spec i 0); [lia |].
  destruct (nth_error buf (Z.to_nat i)) eqn:E; [eauto |].
  apply nth_error_None in E; lia.
Qed.

Lemma rd_inv buf i a :
  rd buf i = Ok a ->
  0 <= i < Z.of_nat (List.length buf) /\ nth_error buf (Z.to_nat i) = Some a.
Proof.
  unfold rd. destruct (Z.ltb_spec i 0); [discriminate |].
  destruct (nth_error buf (Z.to_nat i)) eqn:E; [| discriminate].
  intros [= ->]. split; [| reflexivity].
  assert (Z.to_nat i < List.length buf)%nat
    by (apply nth_error_Some; congruence).
  lia.
Qed.

Lemma rd_wr_same buf i a buf' :
  wr buf i a = Ok buf' -> rd buf' i = Ok a.
Proof.
  intros H; apply wr_inv in H as [Hi ->]. unfold rd.
  destruct (Z.ltb_spec i 0); [lia |].
  rewrite nth_error_set_nth_same by lia. reflexivity.
Qed.

Lemma rd_wr_other buf i j a buf' :
  wr buf i a = Ok buf' -> i <> j -> rd buf' j = rd buf j.
Proof.
  intros H Hij; apply wr_inv in H as [Hi ->]. unfold rd.
  destruct (Z.ltb_spec j 0); [reflexivity |].
  rewrite nth_error_set_nth_other by lia. reflexivity.
Qed.

Lemma set_nth_same_value buf n a :
  nth_error buf n = Some a -> set_nth buf n a = buf.
Proof.
  revert n; induction buf; intros [|n]; simpl; try congruence.
  intros H; f_equal; auto.
Qed.

Lemma wr_same_value buf i a :
  rd buf i = Ok a -> wr buf i a = Ok buf.
Proof.
  intros H; apply rd_inv in H as [Hi Hn].
  rewrite wr_Ok by lia. now rewrite set_nth_same_value.
Qed.
End BufferFacts.

(** ** Launches *)

Lemma foldM_app {S} (body : Z -> S -> result S) l1 l2 s :
  foldM body (l1 ++ l2) s = (s' <- foldM body l1 s ;; foldM body l2 s').
Proof.
  revert s; induction l1; intros s; simpl; [reflexivity |].
  destruct (body a s); simpl; auto.
Qed.

Lemma foldM_idle {S} (body : Z -> S -> result S) l s :
  (forall i, In i l -> body i s = Ok s) -> foldM body l s = Ok s.
Proof.
  induction l; intros H; simpl; [reflexivity |].
  rewrite H by (left; reflexivity). simpl. apply IHl.
  intros i Hi; apply H; right; assumption.
Qed.

Lemma map_seq_shift {B} (f : nat -> B) a m :
  map f (seq a m) = map (fun k => f (a + k)%nat) (seq 0 m).
Proof.
  revert a f; induction m; intros a f; simpl; [reflexivity |].
  rewrite Nat.add_0_r. f_equal.
  rewrite (IHm (S a)), (IHm 1%nat). apply map_ext.
  intros k. f_equal. lia.
Qed.

Lemma zrange_app lo n m :
  zrange lo (n + m) = zrange lo n ++ zrange (lo + Z.of_nat n) m.
Proof.
  unfold zrange. rewrite seq_app, map_app. f_equal.
  simpl. rewrite map_seq_shift. apply map_ext.
  intros k. lia.
Qed.

Lemma zrange_S lo n : zrange lo (S n) = lo :: zrange (lo + 1) n.
Proof.
  change (S n) with (1 + n)%nat. rewrite zrange_app. simpl.
  unfold zrange at 1. simpl. now rewrite Z.add_0_r.
Qed.

Lemma in_zrange lo n i : In i (zrange lo n) <-> lo <= i < lo + Z.of_nat n.
Proof.
  unfold zrange. rewrite in_map_iff. split.
  - intros (k & <- & Hk). apply in_seq in Hk. lia.
  - intros H. exists (Z.to_nat (i - lo)). split; [lia |].
    apply in_seq. lia.
Qed.

(** Threads beyond the guard of a kernel do nothing: a launch runs the body
    for the indices below [N]. *)
Lemma launch_guarded {S} (body : Z -> S -> result S) blocks N s :
  0 <= N <= blocks * blockSize ->
  (forall i s', N <= i -> body i s' = Ok s') ->
  launch blocks body s = foldM body (zrange 0 (Z.to_nat N)) s.
Proof.
  intros HN Hidle. unfold launch, threadIds.
  replace (Z.to_nat (blocks * blockSize))
    with (Z.to_nat N + Z.to_nat (blocks * blockSize - N))%nat by lia.
  rewrite zrange_app, foldM_app.
  destruct (foldM body (zrange 0 (Z.to_nat N)) s) as [s' |]; simpl; [| reflexivity].
  apply foldM_idle. intros i Hi. apply Hidle. apply in_zrange in Hi. lia.
Qed.

Lemma blocks_cover N : 0 <= N -> N <= Z.quot (N + blockSize - 1) blockSize * blockSize.
Proof.
  intros H. unfold blockSize.
  rewrite Z.quot_div_nonneg by lia.
  pose proof (Z.div_mod (N + 128 - 1) 128 ltac:(lia)).
  pose proof (Z.mod_pos_bound (N + 128 - 1) 128 ltac:(lia)).
  lia.
Qed.

(** ** The integrator *)

(** Case analysis on every float comparison of the goal. *)
Ltac cases_Rltb :=
  repeat match goal with
         | |- context [Rltb ?a ?b] =>
             lazymatch a with context [Rltb _ _] => fail | _ => idtac end;
             lazymatch b with context [Rltb _ _] => fail | _ => idtac end;
             destruct (Rltb_spec a b)
         end.

Lemma wrap_teleported x : teleported x (wrapHigh (wrapLow x)).
Proof.
  unfold teleported, wrapHigh, wrapLow, Rgtb, scene_scale.
  cases_Rltb; repeat split; intros; lra.
Qed.

Lemma wrap_in_domain x :
  (- scene_scale <= wrapHigh (wrapLow x) <= scene_scale)%R.
Proof.
  unfold wrapHigh, wrapLow, Rgtb, scene_scale.
  cases_Rltb; lra.
Qed.

Lemma wrap_id x :
  (- scene_scale <= x <= scene_scale)%R -> wrapHigh (wrapLow x) = x.
Proof. intros H; now apply wrap_teleported. Qed.

Lemma kernUpdatePos_active N dt vel index pos p v :
  index < N -> rd pos index = Ok p -> rd vel index = Ok v ->
  kernUpdatePos N dt vel index pos = wr pos index (integrated p v dt).
Proof.
  intros Hi Hp Hv. unfold kernUpdatePos.
  destruct (Z.geb_spec index N); [lia |].
  rewrite Hp, Hv. reflexivity.
Qed.

Lemma kernUpdatePos_idle N dt vel index pos :
  N <= index -> kernUpdatePos N dt vel index pos = Ok pos.
Proof.
  intros Hi. unfold kernUpdatePos.
  destruct (Z.geb_spec index N); [reflexivity | lia].
Qed.

Lemma integrated_in_domain p v dt : inDomain (integrated p v dt).
Proof. repeat split; simpl; apply wrap_in_domain. Qed.

(** C7: thread [index] of the integrator stores [pos + vel * dt] with each
    coordinate wrapped on its own (below [-scene_scale] to [scene_scale],
    above [scene_scale] to [-scene_scale]), leaves the other slots alone,
    and a boid that entered inside the domain and moved by at most
    [2 * scene_scale] per coordinate ends inside the domain. *)
Theorem C7_integrator_wraps N dt vel index pos p v :
  0 <= index < N -> rd pos index = Ok p -> rd vel index = Ok v ->
  exists pos' q,
    kernUpdatePos N dt vel index pos = Ok pos' /\
    rd pos' index = Ok q /\
    (forall j, j <> index -> rd pos' j = rd pos j) /\
    teleported (vx p + vx v * dt) (vx q) /\
    teleported (vy p + vy v * dt) (vy q) /\
    teleported (vz p + vz v * dt) (vz q) /\
    (inDomain p ->
     (Rabs (vx v * dt) <= 2 * scene_scale)%R ->
     (Rabs (vy v * dt) <= 2 * scene_scale)%R ->
     (Rabs (vz v * dt) <= 2 * scene_scale)%R ->
     inDomain q).
Proof.
  intros Hi Hp Hv.
  destruct (rd_inv _ _ _ Hp) as [Hb _].
  exists (set_nth pos (Z.to_nat index) (integrated p v dt)), (integrated p v dt).
  assert (Hw : wr pos index (integrated p v dt)
               = Ok (set_nth pos (Z.to_nat index) (integrated p v dt)))
    by (apply wr_Ok; assumption).
  split; [| split; [| split]].
  - rewrite (kernUpdatePos_active N dt vel index pos p v) by (lia || assumption).
    exact Hw.
  - eapply rd_wr_same; eassumption.
  - intros j Hj. apply (rd_wr_other _ _ _ _ _ Hw). congruence.
  - split; [apply wrap_teleported |].
    split; [apply wrap_teleported |].
    split; [apply wrap_teleported |].
    intros; apply integrated_in_domain.
Qed.

(** C7 at a boid on the boundary of the domain that leaves it on two
    axes. *)
Lemma C7_integrator_wraps_witness :
  exists pos' q,
    kernUpdatePos 1 1 [mkvec3 1 0 (-1)] 0 [mkvec3 (100) 0 (-100)] = Ok pos' /\
    rd pos' 0 = Ok q /\
    (forall j, j <> 0 -> rd pos' j = rd [mkvec3 (100) 0 (-100)] j) /\
    teleported (100 + 1 * 1) (vx q) /\
    teleported (0 + 0 * 1) (vy q) /\
    teleported (-100 + -1 * 1) (vz q) /\
    (inDomain (mkvec3 (100) 0 (-100)) ->
     (Rabs (1 * 1) <= 2 * scene_scale)%R ->
     (Rabs (0 * 1) <= 2 * scene_scale)%R ->
     (Rabs (-1 * 1) <= 2 * scene_scale)%R ->
     inDomain q).
Proof.
  apply (C7_integrator_wraps 1 1 [mkvec3 1 0 (-1)] 0 [mkvec3 (100) 0 (-100)]
           (mkvec3 (100) 0 (-100)) (mkvec3 1 0 (-1))).
  - lia.
  - reflexivity.
  - reflexivity.
Defined.

(** ** The grid *)

Lemma gridCellWidth_initGrid d : gridCellWidth (initGrid d) = 10%R.
Proof.
  simpl. unfold rule1Distance, rule2Distance, rule3Distance.
  rewrite (Rmax_left 5 3) by lra. rewrite (Rmax_left 5 5) by lra. lra.
Qed.

Lemma halfSideCount_initGrid :
  truncZ (scene_scale
          / (2 * Rmax (Rmax rule1Distance rule2Distance) rule3Distance)) + 1
  = 11.
Proof.
  unfold rule1Distance, rule2Distance, rule3Distance, scene_scale.
  rewrite (Rmax_left 5 3) by lra. rewrite (Rmax_left 5 5) by lra.
  rewrite (truncZ_nonneg _ 10); [reflexivity | lra | lia].
Qed.

Lemma gridSideCount_initGrid d : gridSideCount (initGrid d) = 22.
Proof.
  unfold initGrid; cbn [gridSideCount]. now rewrite halfSideCount_initGrid.
Qed.

Lemma gridCellCount_initGrid d : gridCellCount (initGrid d) = 10648.
Proof.
  unfold initGrid; cbn [gridCellCount]. now rewrite halfSideCount_initGrid.
Qed.

Lemma gridInverseCellWidth_initGrid d :
  gridInverseCellWidth (initGrid d) = (1 / 10)%R.
Proof.
  unfold initGrid; cbn [gridInverseCellWidth].
  unfold rule1Distance, rule2Distance, rule3Distance.
  rewrite (Rmax_left 5 3) by lra. rewrite (Rmax_left 5 5) by lra.
  f_equal; lra.
Qed.

Lemma gridMinimum_initGrid d :
  gridMinimum d = vzero ->
  gridMinimum (initGrid d) = mkvec3 (-110) (-110) (-110).
Proof.
  intros H. unfold initGrid; cbn [gridMinimum].
  rewrite halfSideCount_initGrid, H.
  unfold rule1Distance, rule2Distance, rule3Distance. simpl.
  rewrite (Rmax_left 5 3) by lra. rewrite (Rmax_left 5 5) by lra.
  f_equal; lra.
Qed.

(** The cell coordinate of an in-domain coordinate: at least 1 and at most
    21, on a lattice of side 22. *)
Lemma cell_coordinate_bounds x :
  (- scene_scale <= x <= scene_scale)%R ->
  1 <= truncZ ((- (-110) + x) * (1 / 10)) < 22.
Proof.
  unfold scene_scale. intros H. apply truncZ_bounds; [lra | lia].
Qed.

Lemma gridIndex3Dto1D_bounds x y z n :
  0 <= x < n -> 0 <= y < n -> 0 <= z < n ->
  0 <= gridIndex3Dto1D x y z n < n * n * n.
Proof. unfold gridIndex3Dto1D. nia. Qed.

(** No integer computed for an in-domain position leaves the range of a
    32-bit [int]. *)
Lemma gridIndex_in_int_range x y z :
  0 <= x < 22 -> 0 <= y < 22 -> 0 <= z < 22 ->
  0 <= y * 22 < 2 ^ 31 /\ 0 <= z * 22 * 22 < 2 ^ 31 /\
  0 <= gridIndex3Dto1D x y z 22 < 2 ^ 31.
Proof. unfold gridIndex3Dto1D. lia. Qed.

(** C10: with the grid parameters that [initSimulation] derives (side count
    [2 * (floor (scene_scale / cellWidth) + 1)], which is 22; minimum corner
    [- cellWidth * (floor (scene_scale / cellWidth) + 1)], which is -110 on
    every axis), the thread of [kernComputeIndices] for a boid whose
    position lies in the domain stores a cell identifier that is at least
    0 and below [gridCellCount]. *)
Theorem C10_grid_index_in_table d N pos indices gridIndices i p :
  gridMinimum d = vzero ->
  0 <= i < N ->
  i < Z.of_nat (List.length indices) ->
  i < Z.of_nat (List.length gridIndices) ->
  rd pos i = Ok p ->
  inDomain p ->
  let g := initGrid d in
  gridSideCount g = 2 * (Int_part (scene_scale / gridCellWidth g) + 1) /\
  gridMinimum g =
    (let m := (- (gridCellWidth g
                  * IZR (Int_part (scene_scale / gridCellWidth g) + 1)))%R in
     mkvec3 m m m) /\
  exists indices' gridIndices' cell,
    kernComputeIndices N (gridSideCount g) (gridMinimum g)
      (gridInverseCellWidth g) pos i (indices, gridIndices)
    = Ok (indices', gridIndices') /\
    rd indices' i = Ok i /\
    rd gridIndices' i = Ok cell /\
    0 <= cell < gridCellCount g.
Proof.
  intros Hmin Hi Hli Hlg Hp Hdom g.
  assert (Hint : Int_part (scene_scale / gridCellWidth g) = 10).
  { unfold g. rewrite gridCellWidth_initGrid. unfold scene_scale.
    symmetry; apply Int_part_spec; lra. }
  subst g. rewrite Hint, gridSideCount_initGrid, gridCellCount_initGrid,
    gridInverseCellWidth_initGrid, gridMinimum_initGrid, gridCellWidth_initGrid
    by assumption.
  split; [reflexivity |]. split; [cbv zeta; change (10 + 1) with 11; f_equal; lra |].
  unfold kernComputeIndices.
  destruct (Z.ltb_spec i N); [| lia].
  rewrite wr_Ok by lia. cbn [bind]. rewrite Hp. cbn [bind].
  destruct Hdom as (Hx & Hy & Hz).
  apply cell_coordinate_bounds in Hx, Hy, Hz.
  set (cell := gridIndex3Dto1D _ _ _ 22).
  rewrite wr_Ok by lia. cbn [bind].
  eexists _, _, cell. split; [reflexivity |].
  split; [| split].
  - apply (rd_wr_same indices i i). apply wr_Ok; lia.
  - apply (rd_wr_same gridIndices i cell). apply wr_Ok; lia.
  - subst cell. cbn [to_ivec3 ix iy iz vscale vadd vneg vx vy vz].
    change 10648 with (22 * 22 * 22).
    apply gridIndex3Dto1D_bounds; lia.
Qed.

(** C10 at a boid in two corners of the domain. *)
Lemma C10_grid_index_in_table_witness :
  let g := initGrid dev0 in
  gridSideCount g = 2 * (Int_part (scene_scale / gridCellWidth g) + 1) /\
  gridMinimum g =
    (let m := (- (gridCellWidth g
                  * IZR (Int_part (scene_scale / gridCellWidth g) + 1)))%R in
     mkvec3 m m m) /\
  exists indices' gridIndices' cell,
    kernComputeIndices 1 (gridSideCount g) (gridMinimum g)
      (gridInverseCellWidth g) [mkvec3 100 0 (-100)] 0 ([7], [7])
    = Ok (indices', gridIndices') /\
    rd indices' 0 = Ok 0 /\
    rd gridIndices' 0 = Ok cell /\
    0 <= cell < gridCellCount g.
Proof.
  apply (C10_grid_index_in_table dev0 1 [mkvec3 100 0 (-100)] [7] [7] 0
           (mkvec3 100 0 (-100))).
  - reflexivity.
  - lia.
  - simpl; lia.
  - simpl; lia.
  - reflexivity.
  - unfold inDomain, scene_scale; simpl; lra.
Defined.

(** ** The candidate neighbour cells *)

(** Decide every float comparison of the goal between known numbers. *)
Ltac eval_Rltb :=
  repeat match goal with
         | |- context [Rltb ?a ?b] =>
             first [ rewrite (Rltb_true a b) by (simpl; lra)
                   | rewrite (Rltb_false a b) by (simpl; lra) ]
         end.

(** What the code selects: [y] and [z] stay 1, and [x] is -1 as soon as
    the fractional part on any axis is below one half. *)
Lemma neighborSigns_code spacialIndex :
  let aux := vsub spacialIndex (of_ivec3 (to_ivec3 spacialIndex)) in
  neighborSigns spacialIndex =
  (if Rltb (vx aux) (1 / 2) || Rltb (vy aux) (1 / 2) || Rltb (vz aux) (1 / 2)
   then -1 else 1, 1, 1).
Proof.
  cbv zeta. unfold neighborSigns.
  destruct (Rltb _ _), (Rltb _ _), (Rltb _ _); reflexivity.
Qed.

Lemma to_ivec3_spacialIndex_C2 : to_ivec3 spacialIndex_C2 = mkivec3 5 5 5.
Proof.
  unfold to_ivec3, spacialIndex_C2; simpl.
  rewrite !(truncZ_nonneg _ 5); [reflexivity | lra | lia | lra | lia].
Qed.

(** C2, evaluated: for the offset (5.75, 5.25, 5.75) on the lattice of
    side 22 the code selects the cells at x - 1, y + 1 and z + 1, where
    the per-axis selection of the claim gives x + 1, y - 1 and z + 1. *)
Theorem C2_neighbor_cells_share_one_sign :
  calculateBoidNeighborCells spacialIndex_C2 22
  = [ gridIndex3Dto1D 5 5 5 22; gridIndex3Dto1D 4 5 5 22;
      gridIndex3Dto1D 5 6 5 22; gridIndex3Dto1D 5 5 6 22;
      gridIndex3Dto1D 4 6 5 22; gridIndex3Dto1D 5 6 6 22;
      gridIndex3Dto1D 4 5 6 22; gridIndex3Dto1D 4 6 6 22 ] /\
  neighborCells_spec spacialIndex_C2 22
  = [ gridIndex3Dto1D 5 5 5 22; gridIndex3Dto1D 6 5 5 22;
      gridIndex3Dto1D 5 4 5 22; gridIndex3Dto1D 5 5 6 22;
      gridIndex3Dto1D 6 4 5 22; gridIndex3Dto1D 5 4 6 22;
      gridIndex3Dto1D 6 5 6 22; gridIndex3Dto1D 6 4 6 22 ] /\
  calculateBoidNeighborCells spacialIndex_C2 22
  <> neighborCells_spec spacialIndex_C2 22.
Proof.
  assert (Hc : neighborSigns spacialIndex_C2 = (-1, 1, 1)).
  { unfold neighborSigns. rewrite to_ivec3_spacialIndex_C2.
    unfold spacialIndex_C2; simpl. eval_Rltb. reflexivity. }
  assert (Hs : neighborSigns_spec spacialIndex_C2 = (1, -1, 1)).
  { unfold neighborSigns_spec. rewrite to_ivec3_spacialIndex_C2.
    unfold spacialIndex_C2; simpl. eval_Rltb. reflexivity. }
  unfold calculateBoidNeighborCells, neighborCells_spec.
  rewrite Hc, Hs, to_ivec3_spacialIndex_C2.
  split; [reflexivity |]. split; [reflexivity |].
  vm_compute. discriminate.
Qed.

(** ** Threads beyond the guard *)

Lemma kernUpdateVelocityBruteForce_idle N pos vel1 i o :
  N <= i -> kernUpdateVelocityBruteForce N pos vel1 i o = Ok o.
Proof.
  intros H. unfold kernUpdateVelocityBruteForce. destruct o.
  destruct (Z.geb_spec i N); [reflexivity | lia].
Qed.

Lemma kernComputeIndices_idle N res gmin inv pos i o :
  N <= i -> kernComputeIndices N res gmin inv pos i o = Ok o.
Proof.
  intros H. unfold kernComputeIndices. destruct o.
  destruct (Z.ltb_spec i N); [lia | reflexivity].
Qed.

Lemma kernResetIntBuffer_idle N value index buf :
  N <= index -> kernResetIntBuffer N value index buf = Ok buf.
Proof.
  intros H. unfold kernResetIntBuffer.
  destruct (Z.ltb_spec index N); [lia | reflexivity].
Qed.

Lemma kernIdentifyCellStartEnd_idle N cells i o :
  1 <= N -> N <= i -> kernIdentifyCellStartEnd N cells i o = Ok o.
Proof.
  intros HN H. unfold kernIdentifyCellStartEnd. destruct o.
  destruct (Z.eqb_spec i (N - 1)); [lia |].
  rewrite andb_false_r. cbn [bind].
  destruct (Z.eqb_spec i 0); [lia |].
  destruct (Z.ltb_spec i N); [lia | reflexivity].
Qed.

Lemma kernUpdateVelNeighborSearchScattered_idle
    N res gmin inv w st en idx pos vel1 index o :
  N <= index ->
  kernUpdateVelNeighborSearchScattered N res gmin inv w st en idx pos vel1
    index o = Ok o.
Proof.
  intros H. unfold kernUpdateVelNeighborSearchScattered.
  destruct (Z.geb_spec index N); [reflexivity | lia].
Qed.

Lemma kernUpdateVelNeighborSearchCoherent_idle
    N res gmin inv w st en pos vel1 index o :
  N <= index ->
  kernUpdateVelNeighborSearchCoherent N res gmin inv w st en pos vel1
    index o = Ok o.
Proof.
  intros H. unfold kernUpdateVelNeighborSearchCoherent.
  destruct (Z.geb_spec index N); [reflexivity | lia].
Qed.

Lemma kernPropogateCoherency_idle N idx pos vel i o :
  N <= i -> kernPropogateCoherency N idx pos vel i o = Ok o.
Proof.
  intros H. unfold kernPropogateCoherency. destruct o.
  destruct (Z.geb_spec i N); [reflexivity | lia].
Qed.

(** A launch of the step functions runs the body for the boids
    [0 .. numObjects - 1]. *)
Lemma launch_boids {S} (body : Z -> S -> result S) d s :
  0 <= numObjects d ->
  (forall i s', numObjects d <= i -> body i s' = Ok s') ->
  launch (blocksPerGrid d) body s
  = foldM body (zrange 0 (Z.to_nat (numObjects d))) s.
Proof.
  intros HN Hidle. apply launch_guarded; [| assumption].
  split; [assumption |]. apply blocks_cover; assumption.
Qed.

(** ** The boundary tables *)

Lemma gridDevice_initGrid N pos vel1 vel2 ai gi st en pc vc :
  initGrid (mkDevice N pos vel1 vel2 ai gi st en pc vc 0 0 0 0 vzero [])
  = gridDevice N pos vel1 vel2 ai gi st en pc vc.
Proof.
  unfold gridDevice, initGrid. rewrite halfSideCount_initGrid.
  unfold rule1Distance, rule2Distance, rule3Distance.
  rewrite (Rmax_left 5 3) by lra. rewrite (Rmax_left 5 5) by lra.
  simpl. f_equal; try lra. f_equal; lra.
Qed.

Lemma cell_of_origin :
  to_ivec3 (vscale (vadd (vneg (mkvec3 (-110) (-110) (-110))) vzero) (1 / 10))
  = mkivec3 11 11 11.
Proof.
  unfold to_ivec3; simpl.
  rewrite !(truncZ_nonneg _ 11); [reflexivity | lra | lia ].
Qed.

Arguments truncZ : simpl never.
Arguments Rltb : simpl never.
Arguments gridIndex3Dto1D : simpl never.
Arguments glm_distance : simpl never.
Arguments glm_length : simpl never.
Arguments glm_normalize : simpl never.

Lemma foldM_invariant {S} (P : S -> Prop) (body : Z -> S -> result S) l :
  (forall i s s', In i l -> body i s = Ok s' -> P s -> P s') ->
  forall s s', P s -> foldM body l s = Ok s' -> P s'.
Proof.
  induction l as [| i l IH]; intros Hbody s s' Hs; simpl.
  - intros [= <-]; assumption.
  - destruct (body i s) as [s1 |] eqn:E; simpl; [| discriminate].
    apply IH.
    + intros j t t' Hj; apply Hbody; right; assumption.
    + eapply Hbody; [left; reflexivity | exact E | exact Hs].
Qed.

(** *** The reset *)

Lemma set_nth_reset_prefix (v : Z) n buf :
  (n < List.length buf)%nat ->
  set_nth (repeat v n ++ skipn n buf) n v = repeat v (S n) ++ skipn (S n) buf.
Proof.
  revert buf; induction n; intros [| b buf] H; simpl in *; try lia.
  - reflexivity.
  - f_equal. apply IHn. lia.
Qed.

(** A launch of [kernResetIntBuffer] with bound [N] overwrites the first
    [N] entries of the buffer and keeps the others. *)
Lemma reset_launch (v : Z) n buf :
  (n <= List.length buf)%nat ->
  foldM (kernResetIntBuffer (Z.of_nat n) v) (zrange 0 n) buf
  = Ok (repeat v n ++ skipn n buf).
Proof.
  intros Hn.
  assert (G : forall m, (m <= n)%nat ->
            foldM (kernResetIntBuffer (Z.of_nat n) v) (zrange 0 m) buf
            = Ok (repeat v m ++ skipn m buf)).
  { induction m; intros Hm; [reflexivity |].
    replace (S m) with (m + 1)%nat by lia.
    rewrite zrange_app, foldM_app, IHm by lia. cbn [bind].
    change (zrange (0 + Z.of_nat m) 1) with [0 + Z.of_nat m + Z.of_nat 0].
    cbn [foldM]. unfold kernResetIntBuffer.
    destruct (Z.ltb_spec (0 + Z.of_nat m + Z.of_nat 0) (Z.of_nat n)); [| lia].
    rewrite wr_Ok.
    - cbn [bind]. replace (Z.to_nat (0 + Z.of_nat m + Z.of_nat 0)) with m by lia.
      rewrite set_nth_reset_prefix by lia.
      now replace (m + 1)%nat with (S m) by lia.
    - rewrite length_app, repeat_length, length_skipn. lia. }
  apply G; lia.
Qed.

Lemma resetCellTables_eval d :
  0 <= numObjects d ->
  numObjects d <= Z.of_nat (List.length (dev_gridCellEndIndices d)) ->
  numObjects d <= Z.of_nat (List.length (dev_gridCellStartIndices d)) ->
  let n := Z.to_nat (numObjects d) in
  resetCellTables d
  = Ok (with_start
          (with_end d (repeat (-1) n ++ skipn n (dev_gridCellEndIndices d)))
          (repeat (-1) n ++ skipn n (dev_gridCellStartIndices d))).
Proof.
  intros HN He Hs n. unfold resetCellTables.
  rewrite launch_boids;
    [| assumption | intros; apply kernResetIntBuffer_idle; assumption].
  replace (numObjects d) with (Z.of_nat n) at 1 by lia.
  fold n. rewrite reset_launch by lia. cbn [bind].
  rewrite launch_boids;
    [| assumption | intros; apply kernResetIntBuffer_idle; assumption].
  cbn [with_end numObjects dev_gridCellStartIndices].
  replace (numObjects d) with (Z.of_nat n) at 1 by lia.
  fold n. rewrite reset_launch by lia. reflexivity.
Qed.

(** The reset leaves every cell from [numObjects] on as it was. *)
Lemma reset_keeps_cell (v : Z) n buf c :
  (n <= List.length buf)%nat -> Z.of_nat n <= c ->
  rd (repeat v n ++ skipn n buf) c = rd buf c.
Proof.
  intros Hn Hc. unfold rd. destruct (Z.ltb_spec c 0); [reflexivity |].
  rewrite nth_error_app2 by (rewrite repeat_length; lia).
  rewrite repeat_length, nth_error_skipn.
  now replace (n + (Z.to_nat c - n))%nat with (Z.to_nat c) by lia.
Qed.

Lemma computeAndSortIndices_oneBoid st en :
  computeAndSortIndices insertion_sort_by_key (oneBoid st en)
  = Ok (gridDevice 1 [vzero] [vzero] [vzero] [0] [5577] st en [vzero] [vzero]).
Proof.
  unfold computeAndSortIndices.
  rewrite launch_boids;
    [| simpl; lia | intros; apply kernComputeIndices_idle; assumption].
  simpl. rewrite !(truncZ_nonneg _ 11) by (first [lra | lia]). reflexivity.
Qed.

(** C4, evaluated: with one boid, both grid steps reach the launch of
    [kernIdentifyCellStartEnd] with only cell 0 of the two tables reset to
    -1; the other 10647 cells of the lattice still hold what they held
    before the step. *)
Theorem C4_reset_stops_at_numObjects :
  (exists d',
      scatteredBeforeIdentify insertion_sort_by_key
        (oneBoid staleTable staleTable) = Ok d' /\
      gridCellCount d' = 10648 /\
      dev_gridCellStartIndices d' = -1 :: repeat 7 (Z.to_nat 10647) /\
      dev_gridCellEndIndices d' = -1 :: repeat 7 (Z.to_nat 10647)) /\
  (exists d',
      coherentBeforeIdentify insertion_sort_by_key
        (oneBoid staleTable staleTable) = Ok d' /\
      gridCellCount d' = 10648 /\
      dev_gridCellStartIndices d' = -1 :: repeat 7 (Z.to_nat 10647) /\
      dev_gridCellEndIndices d' = -1 :: repeat 7 (Z.to_nat 10647)).
Proof.
  assert (Hlen : Z.of_nat (List.length staleTable) = 10648)
    by (unfold staleTable; rewrite repeat_length; reflexivity).
  assert (Hreset : repeat (-1) (Z.to_nat 1) ++ skipn (Z.to_nat 1) staleTable
                   = -1 :: repeat 7 (Z.to_nat 10647))
    by (vm_compute; reflexivity).
  split.
  - unfold scatteredBeforeIdentify.
    rewrite computeAndSortIndices_oneBoid. cbn [bind].
    rewrite resetCellTables_eval;
      [| simpl; lia | cbn [gridDevice numObjects dev_gridCellEndIndices]; lia
       | cbn [gridDevice numObjects dev_gridCellStartIndices]; lia ].
    cbv zeta. cbn [gridDevice numObjects dev_gridCellEndIndices
                   dev_gridCellStartIndices].
    rewrite Hreset. eexists; split; [reflexivity |].
    repeat split; reflexivity.
  - unfold coherentBeforeIdentify.
    rewrite resetCellTables_eval;
      [| simpl; lia
       | cbn [oneBoid gridDevice numObjects dev_gridCellEndIndices]; lia
       | cbn [oneBoid gridDevice numObjects dev_gridCellStartIndices]; lia ].
    cbv zeta. cbn [oneBoid gridDevice numObjects dev_gridCellEndIndices
                   dev_gridCellStartIndices].
    rewrite Hreset. cbn [bind].
    change (with_start _ _)
      with (oneBoid (-1 :: repeat 7 (Z.to_nat 10647))
                    (-1 :: repeat 7 (Z.to_nat 10647))).
    rewrite computeAndSortIndices_oneBoid.
    eexists; split; [reflexivity |].
    repeat split; reflexivity.
Qed.

(** *** The boundary-table build with a single boid *)

Lemma identifyCells_single pos vel1 vel2 ai g st en pc vc :
  identifyCells (gridDevice 1 pos vel1 vel2 ai [g] st en pc vc)
  = (st' <- wr st g 0 ;;
     Ok (gridDevice 1 pos vel1 vel2 ai [g] st' en pc vc)).
Proof.
  unfold identifyCells.
  rewrite launch_boids;
    [| simpl; lia
     | intros; apply kernIdentifyCellStartEnd_idle; [simpl; lia | assumption]].
  cbn [gridDevice numObjects dev_particleGridIndices dev_gridCellStartIndices
       dev_gridCellEndIndices].
  change (zrange 0 (Z.to_nat 1)) with [0].
  cbn [foldM]. unfold kernIdentifyCellStartEnd.
  change (rd [g] 0) with (Ok g). cbn [Z.gtb Z.compare andb bind Z.eqb].
  destruct (wr st g 0); reflexivity.
Qed.

(** C3, evaluated: one boid at the origin and tables holding -1 in every
    cell.  After the boundary-table build of the scattered step the boid's
    cell 5577 has [start = 0] but still [end = -1], and the sum of
    [end[c] - start[c] + 1] over the populated cells is 0, not 1. *)
Theorem C3_single_boid_sum_is_zero :
  exists d',
    scatteredAfterIdentify insertion_sort_by_key
      (oneBoid cleanTable cleanTable) = Ok d' /\
    numObjects d' = 1 /\
    dev_particleGridIndices d' = [5577] /\
    rd (dev_gridCellStartIndices d') 5577 = Ok 0 /\
    rd (dev_gridCellEndIndices d') 5577 = Ok (-1) /\
    populatedSum (dev_gridCellStartIndices d') (dev_gridCellEndIndices d') = 0.
Proof.
  assert (Hlen : Z.of_nat (List.length cleanTable) = 10648)
    by (unfold cleanTable; rewrite repeat_length; reflexivity).
  assert (Hreset : repeat (-1) (Z.to_nat 1) ++ skipn (Z.to_nat 1) cleanTable
                   = cleanTable)
    by (vm_compute; reflexivity).
  unfold scatteredAfterIdentify, scatteredBeforeIdentify.
  rewrite computeAndSortIndices_oneBoid. cbn [bind].
  rewrite resetCellTables_eval;
    [| simpl; lia | cbn [gridDevice numObjects dev_gridCellEndIndices]; lia
     | cbn [gridDevice numObjects dev_gridCellStartIndices]; lia ].
  cbv zeta. cbn [gridDevice numObjects dev_gridCellEndIndices
                 dev_gridCellStartIndices].
  rewrite Hreset. cbn [bind].
  change (with_start _ _)
    with (gridDevice 1 [vzero] [vzero] [vzero] [0] [5577]
            cleanTable cleanTable [vzero] [vzero]).
  rewrite identifyCells_single, wr_Ok by lia. cbn [bind].
  eexists; split; [reflexivity |].
  cbn [gridDevice numObjects dev_particleGridIndices dev_gridCellEndIndices
       dev_gridCellStartIndices].
  repeat split; vm_compute; reflexivity.
Qed.

(** ** The speed limit *)

Lemma glm_dot_nonneg v : (0 <= glm_dot v v)%R.
Proof. unfold glm_dot. nra. Qed.

Lemma glm_length_nonneg v : (0 <= glm_length v)%R.
Proof. apply sqrt_pos. Qed.

Lemma glm_length_sqr v : (glm_length v * glm_length v = glm_dot v v)%R.
Proof. apply sqrt_sqrt, glm_dot_nonneg. Qed.

Lemma glm_dot_vscale v k :
  (glm_dot (vscale v k) (vscale v k) = k * k * glm_dot v v)%R.
Proof. unfold glm_dot, vscale; simpl. ring. Qed.

Lemma glm_length_vscale v k :
  (0 <= k)%R -> glm_length (vscale v k) = (k * glm_length v)%R.
Proof.
  intros Hk. unfold glm_length. rewrite glm_dot_vscale.
  rewrite sqrt_mult_alt by nra. now rewrite sqrt_square.
Qed.

(** A vector longer than [maxSpeed] is scaled by the positive factor
    [maxSpeed / length]. *)
Lemma limitSpeed_fast v :
  (glm_length v > maxSpeed)%R ->
  limitSpeed v = vscale v (maxSpeed / glm_length v) /\
  glm_length (limitSpeed v) = maxSpeed.
Proof.
  intros H. unfold limitSpeed, Rgtb. rewrite Rltb_true by exact H.
  assert (Hm : (0 < glm_length v)%R) by (unfold maxSpeed in H; lra).
  assert (E : vscale (glm_normalize v) maxSpeed
              = vscale v (maxSpeed / glm_length v)).
  { unfold glm_normalize. fold (glm_length v). unfold vscale; simpl.
    f_equal; field; lra. }
  rewrite E. split; [reflexivity |].
  rewrite glm_length_vscale.
  - field; lra.
  - unfold maxSpeed. apply Rlt_le, Rdiv_lt_0_compat; lra.
Qed.

Lemma limitSpeed_slow v :
  (glm_length v <= maxSpeed)%R -> limitSpeed v = v.
Proof.
  intros H. unfold limitSpeed, Rgtb. now rewrite Rltb_false.
Qed.

Lemma glm_length_limitSpeed v : (glm_length (limitSpeed v) <= maxSpeed)%R.
Proof.
  destruct (Rlt_dec maxSpeed (glm_length v)) as [H | H].
  - apply limitSpeed_fast in H as [_ ->]. lra.
  - rewrite limitSpeed_slow by lra. lra.
Qed.

Lemma component_le_length v :
  (vx v <= glm_length v /\ vy v <= glm_length v /\ vz v <= glm_length v)%R.
Proof.
  pose proof (glm_length_nonneg v) as H0.
  pose proof (glm_length_sqr v) as H2. unfold glm_dot in H2.
  repeat split; nra.
Qed.

(** The diagnostic is evaluated on the limited vector, none of whose
    components exceeds [maxSpeed]. *)
Lemma speedWarning_limitSpeed v : speedWarning (limitSpeed v) = [].
Proof.
  pose proof (glm_length_limitSpeed v) as H.
  destruct (component_le_length (limitSpeed v)) as (Hx & Hy & Hz).
  unfold speedWarning, Rgtb.
  rewrite !Rltb_false by lra. reflexivity.
Qed.

(** ** The rules of the brute-force evaluator *)

Lemma rd_nth {A} (buf : list A) i (dflt : A) :
  0 <= i < Z.of_nat (List.length buf) ->
  rd buf i = Ok (nth (Z.to_nat i) buf dflt).
Proof.
  intros H. unfold rd. destruct (Z.ltb_spec i 0); [lia |].
  rewrite (nth_error_nth' buf dflt) by lia. reflexivity.
Qed.

Lemma brute_force_loop (pos vel : list vec3) (p : Z)
    (p_in_pos : 0 <= p < Z.of_nat (List.length pos)) ids :
  (forall q, In q ids ->
             0 <= q < Z.of_nat (List.length pos) /\
             q < Z.of_nat (List.length vel)) ->
  forall a,
    foldM (fun i a =>
             if p =? i then Ok a
             else pos_self <- rd pos p ;;
                  applyRules pos_self pos vel i a)
          ids a
    = Ok (accumulated pos vel p ids a).
Proof.
  set (body := fun (i : Z) (a : accum) =>
                 if p =? i then Ok a
                 else pos_self <- rd pos p ;;
                      applyRules pos_self pos vel i a).
  induction ids as [| q ids IH]; intros Hin a.
  - destruct a; unfold accumulated; simpl; now rewrite !Z.add_0_r.
  - cbn [foldM].
    assert (Hq := Hin q (or_introl eq_refl)).
    assert (IH' := IH (fun r Hr => Hin r (or_intror Hr))).
    unfold accumulated. cbn [filter]. unfold body at 1.
    destruct (Z.eqb_spec p q) as [E | Hne].
    + assert (Hself : forall d, isNeighbor pos p d q = false).
      { intros d. unfold isNeighbor. rewrite E, Z.eqb_refl. reflexivity. }
      rewrite !Hself. cbn [bind]. rewrite IH'. reflexivity.
    + assert (Hother : forall d, isNeighbor pos p d q
                         = Rltb (glm_distance (posOf pos p) (posOf pos q)) d).
      { intros d. unfold isNeighbor.
        destruct (Z.eqb_spec q p); [congruence | reflexivity]. }
      rewrite !Hother.
      rewrite (rd_nth pos p vzero) by lia. cbn [bind].
      unfold applyRules.
      rewrite (rd_nth pos q vzero) by lia. cbn [bind]. cbv zeta.
      fold (posOf pos p) (posOf pos q).
      destruct (Rltb (glm_distance (posOf pos p) (posOf pos q)) rule1Distance);
        destruct (Rltb (glm_distance (posOf pos p) (posOf pos q)) rule2Distance);
        destruct (Rltb (glm_distance (posOf pos p) (posOf pos q)) rule3Distance);
        try rewrite (rd_nth vel q vzero) by lia;
        cbn [bind]; rewrite IH'; unfold accumulated;
        cbn [center numRule1 c perceived_velocity numRule3 map fold_left
             List.length];
        fold (velOf vel q); f_equal; f_equal; lia.
Qed.


Lemma combineRules_spec N pos vel p currentPos :
  (neighborsWithin N pos p rule1Distance <> [] -> currentPos = posOf pos p) ->
  combineRules currentPos
    (accumulated pos vel p (zrange 0 (Z.to_nat N)) accum0)
  = vadd (vadd (cohesion_spec N pos p) (separation_spec N pos p))
         (alignment_spec N pos vel p).
Proof.
  intros Hcur.
  unfold combineRules, accumulated, cohesion_spec, separation_spec,
    alignment_spec.
  cbn [center numRule1 c perceived_velocity numRule3 accum0].
  fold (neighborsWithin N pos p rule1Distance).
  fold (neighborsWithin N pos p rule2Distance).
  fold (neighborsWithin N pos p rule3Distance).
  f_equal; [f_equal |].
  - destruct (neighborsWithin N pos p rule1Distance) as [| q l] eqn:E.
    + reflexivity.
    + rewrite Hcur by discriminate.
      destruct (Z.eqb_spec (0 + Z.of_nat (List.length (q :: l))) 0) as [H | _];
        [simpl in H; lia |].
      unfold vmean, vsum. now rewrite length_map.
  - destruct (neighborsWithin N pos p rule3Distance) as [| q l] eqn:E.
    + reflexivity.
    + destruct (Z.eqb_spec (0 + Z.of_nat (List.length (q :: l))) 0) as [H | _];
        [simpl in H; lia |].
      unfold vmean, vsum. now rewrite length_map.
Qed.

(** [computeVelocityChange] returns the sum of the three contributions. *)
Lemma computeVelocityChange_spec N pos vel p :
  0 <= p < N ->
  Z.of_nat (List.length pos) = N -> Z.of_nat (List.length vel) = N ->
  computeVelocityChange N p pos vel
  = Ok (vadd (vadd (cohesion_spec N pos p) (separation_spec N pos p))
             (alignment_spec N pos vel p)).
Proof.
  intros Hp Hpos Hvel. unfold computeVelocityChange.
  rewrite (brute_force_loop pos vel p) by
    (try lia; intros q Hq; apply in_zrange in Hq; lia).
  cbn [bind].
  destruct (numRule1 _ =? 0) eqn:E.
  - f_equal. apply combineRules_spec. intros Hne. exfalso.
    unfold accumulated in E. cbn [numRule1 accum0] in E.
    fold (neighborsWithin N pos p rule1Distance) in E.
    destruct (neighborsWithin N pos p rule1Distance); [congruence |].
    apply Z.eqb_eq in E. simpl in E. lia.
  - rewrite (rd_nth pos p vzero) by lia. cbn [bind]. f_equal.
    apply combineRules_spec. reflexivity.
Qed.

Lemma vadd_reorder v r1 r2 r3 :
  vadd (vadd (vadd r1 r2) r3) v = vadd (vadd (vadd v r1) r2) r3.
Proof. unfold vadd; simpl. f_equal; ring. Qed.

(** The thread of the brute-force evaluator for boid [p] stores the limited
    rule velocity and prints nothing. *)
Lemma kernUpdateVelocityBruteForce_spec N pos vel1 vel2 out p :
  0 <= p < N ->
  Z.of_nat (List.length pos) = N -> Z.of_nat (List.length vel1) = N ->
  p < Z.of_nat (List.length vel2) ->
  kernUpdateVelocityBruteForce N pos vel1 p (vel2, out)
  = Ok (set_nth vel2 (Z.to_nat p) (limitSpeed (ruleVelocity_spec N pos vel1 p)),
        out).
Proof.
  intros Hp Hpos Hvel Hv2. unfold kernUpdateVelocityBruteForce.
  destruct (Z.geb_spec p N); [lia |].
  rewrite computeVelocityChange_spec by assumption. cbn [bind].
  rewrite (rd_nth vel1 p vzero) by lia. cbn [bind].
  fold (velOf vel1 p). rewrite vadd_reorder.
  fold (ruleVelocity_spec N pos vel1 p).
  rewrite wr_Ok by lia. cbn [bind].
  now rewrite speedWarning_limitSpeed, app_nil_r.
Qed.

(** C6, amended: over exact real arithmetic, for every boid [p] the
    brute-force evaluator stores the velocity
    [vel[p] + cohesion + separation + alignment] (each rule over the other
    boids within its distance; cohesion and alignment only when a
    neighbour matched, separation always), rescaled by the positive factor
    [maxSpeed / length] to length exactly [maxSpeed] when it is longer than
    [maxSpeed]; the stored velocity is never longer than [maxSpeed].  In
    binary32 the rescaled vector can be longer than [maxSpeed] by a
    rounding error (module [B32]). *)
Theorem C6_brute_force_velocity N pos vel1 vel2 out p :
  0 <= p < N ->
  Z.of_nat (List.length pos) = N -> Z.of_nat (List.length vel1) = N ->
  p < Z.of_nat (List.length vel2) ->
  let v := vadd (vadd (vadd (velOf vel1 p) (cohesion_spec N pos p))
                      (separation_spec N pos p))
                (alignment_spec N pos vel1 p) in
  exists vel2' w,
    kernUpdateVelocityBruteForce N pos vel1 p (vel2, out) = Ok (vel2', out) /\
    rd vel2' p = Ok w /\
    (forall q, q <> p -> rd vel2' q = rd vel2 q) /\
    ((glm_length v > maxSpeed)%R ->
     w = vscale v (maxSpeed / glm_length v) /\ glm_length w = maxSpeed) /\
    ((glm_length v <= maxSpeed)%R -> w = v) /\
    (glm_length w <= maxSpeed)%R.
Proof.
  intros Hp Hpos Hvel Hv2 v.
  exists (set_nth vel2 (Z.to_nat p) (limitSpeed v)), (limitSpeed v).
  assert (Hw : wr vel2 p (limitSpeed v)
               = Ok (set_nth vel2 (Z.to_nat p) (limitSpeed v)))
    by (apply wr_Ok; lia).
  split; [apply kernUpdateVelocityBruteForce_spec; assumption |].
  split; [eapply rd_wr_same; exact Hw |].
  split; [intros q Hq; apply (rd_wr_other _ _ _ _ _ Hw); congruence |].
  split; [apply limitSpeed_fast |].
  split; [apply limitSpeed_slow | apply glm_length_limitSpeed].
Qed.

(** C6 at boid 0 of a pair one unit apart, both flying at [maxSpeed]. *)
Lemma C6_brute_force_velocity_witness :
  let N := 2 in
  let pos := [vzero; mkvec3 (-1) 0 0] in
  let vel1 := [mkvec3 1 0 0; mkvec3 1 0 0] in
  let v := vadd (vadd (vadd (velOf vel1 0) (cohesion_spec N pos 0))
                      (separation_spec N pos 0))
                (alignment_spec N pos vel1 0) in
  exists vel2' w,
    kernUpdateVelocityBruteForce N pos vel1 0 ([vzero; vzero], [])
    = Ok (vel2', []) /\
    rd vel2' 0 = Ok w /\
    (forall q, q <> 0 -> rd vel2' q = rd [vzero; vzero] q) /\
    ((glm_length v > maxSpeed)%R ->
     w = vscale v (maxSpeed / glm_length v) /\ glm_length w = maxSpeed) /\
    ((glm_length v <= maxSpeed)%R -> w = v) /\
    (glm_length w <= maxSpeed)%R.
Proof.
  apply (C6_brute_force_velocity 2 [vzero; mkvec3 (-1) 0 0]
           [mkvec3 1 0 0; mkvec3 1 0 0] [vzero; vzero] [] 0).
  - lia.
  - reflexivity.
  - reflexivity.
  - simpl; lia.
Defined.

(** ** The diagnostic *)

Lemma Rltb_distance a b d :
  (0 < d)%R ->
  Rltb (glm_distance a b) d = Rltb (glm_dot (vsub b a) (vsub b a)) (d * d).
Proof.
  intros Hd. unfold glm_distance, glm_length.
  set (x := glm_dot _ _).
  assert (0 <= x)%R by apply glm_dot_nonneg.
  destruct (Rltb_spec x (d * d)).
  - apply Rltb_true. rewrite <- (sqrt_square d) by lra.
    apply sqrt_lt_1; nra.
  - apply Rltb_false. rewrite <- (sqrt_square d) at 1 by lra.
    apply sqrt_le_1; nra.
Qed.

Lemma ruleVelocity_pair :
  ruleVelocity_spec 2 posPair velPair 0 = mkvec3 (119 / 100) 0 0.
Proof.
  unfold ruleVelocity_spec, cohesion_spec, separation_spec, alignment_spec,
    neighborsWithin, isNeighbor.
  simpl.
  rewrite !Rltb_distance
    by (unfold rule1Distance, rule2Distance, rule3Distance; lra).
  unfold posOf, posPair. simpl.
  unfold rule1Distance, rule2Distance, rule3Distance.
  rewrite !Rltb_true by (unfold glm_dot, vsub; simpl; lra).
  unfold vadd, rule1Scale, rule2Scale, rule3Scale. simpl.
  f_equal; lra.
Qed.

(** C8, refuted as stated: the velocity computed for boid 0 of the pair
    is (1.19, 0, 0) before the limit, its x component exceeds [maxSpeed],
    and the thread prints nothing. *)
Lemma C8_fast_velocity_prints_nothing :
  exists dv vel2',
    computeVelocityChange 2 0 posPair velPair = Ok dv /\
    rd velPair 0 = Ok (mkvec3 1 0 0) /\
    (vx (vadd dv (mkvec3 1 0 0)) > maxSpeed)%R /\
    kernUpdateVelocityBruteForce 2 posPair velPair 0 ([vzero; vzero], [])
    = Ok (vel2', []).
Proof.
  eexists _, _. split; [| split; [| split]].
  - apply computeVelocityChange_spec; [lia | reflexivity | reflexivity].
  - reflexivity.
  - change (mkvec3 1 0 0) with (velOf velPair 0).
    rewrite vadd_reorder.
    fold (ruleVelocity_spec 2 posPair velPair 0).
    rewrite ruleVelocity_pair. unfold maxSpeed; simpl. lra.
  - apply kernUpdateVelocityBruteForce_spec;
      [lia | reflexivity | reflexivity | simpl; lia].
Qed.

(** Inversion of a successful sequence. *)
Ltac inv_bind H :=
  repeat match type of H with
         | bind ?m _ = Ok _ => destruct m eqn:?; cbn [bind] in H;
                               [| discriminate H]
         end.

Ltac inv_binds :=
  repeat match goal with
         | H : bind ?m _ = Ok _ |- _ =>
             destruct m eqn:?; cbn [bind] in H; [| discriminate H]
         end.

Lemma storeVelocity_inv linearIndex currentPos vel1 a vel2 out vel2' out' :
  storeVelocity linearIndex currentPos vel1 a (vel2, out) = Ok (vel2', out') ->
  exists v,
    rd vel1 linearIndex = Ok v /\
    wr vel2 linearIndex (limitSpeed (vadd (combineRules currentPos a) v))
    = Ok vel2' /\
    out' = (out ++ speedWarning
                     (limitSpeed (vadd (combineRules currentPos a) v)))%list.
Proof.
  unfold storeVelocity. intros H. inv_bind H.
  injection H as <- <-. eexists; repeat split; eassumption.
Qed.

(** C8, amended: the diagnostic is evaluated on the velocity after the
    limit, not before: a thread of the brute-force or of the scattered
    evaluator prints what [speedWarning] gives for the limited velocity.
    None of the components of a limited velocity exceeds [maxSpeed], so
    over exact arithmetic nothing is printed, whatever the velocity was
    before the limit.  What the thread stores is the limited velocity, in
    the slot of its boid; nothing else changes. *)
Theorem C8_warning_checks_limited_velocity :
  (forall N pos vel1 i vel2 out vel2' out',
      kernUpdateVelocityBruteForce N pos vel1 i (vel2, out)
      = Ok (vel2', out') ->
      i < N ->
      exists dv v,
        computeVelocityChange N i pos vel1 = Ok dv /\
        rd vel1 i = Ok v /\
        wr vel2 i (limitSpeed (vadd dv v)) = Ok vel2' /\
        out' = (out ++ speedWarning (limitSpeed (vadd dv v)))%list /\
        speedWarning (limitSpeed (vadd dv v)) = [] /\
        out' = out) /\
  (forall N res gmin inv w st en idx pos vel1 index vel2 out vel2' out',
      kernUpdateVelNeighborSearchScattered N res gmin inv w st en idx pos vel1
        index (vel2, out) = Ok (vel2', out') ->
      index < N ->
      exists linearIndex currentPos a v,
        rd idx index = Ok linearIndex /\
        rd pos linearIndex = Ok currentPos /\
        rd vel1 linearIndex = Ok v /\
        wr vel2 linearIndex
           (limitSpeed (vadd (combineRules currentPos a) v)) = Ok vel2' /\
        out' = (out ++ speedWarning
                         (limitSpeed (vadd (combineRules currentPos a) v)))%list /\
        speedWarning (limitSpeed (vadd (combineRules currentPos a) v)) = [] /\
        out' = out).
Proof.
  split.
  - intros N pos vel1 i vel2 out vel2' out' H Hi.
    unfold kernUpdateVelocityBruteForce in H.
    destruct (Z.geb_spec i N); [lia |].
    inv_bind H. injection H as <- <-.
    eexists _, _. repeat split; try eassumption.
    + apply speedWarning_limitSpeed.
    + now rewrite speedWarning_limitSpeed, app_nil_r.
  - intros N res gmin inv w st en idx pos vel1 index vel2 out vel2' out' H Hi.
    unfold kernUpdateVelNeighborSearchScattered in H.
    destruct (Z.geb_spec index N); [lia |].
    inv_bind H.
    apply storeVelocity_inv in H as (v & Hv & Hw & ->).
    eexists _, _, _, _. repeat split; try eassumption.
    + apply speedWarning_limitSpeed.
    + now rewrite speedWarning_limitSpeed, app_nil_r.
Qed.

(** C8 at boid 0 of the pair, whose velocity before the limit is
    (1.19, 0, 0). *)
Lemma C8_warning_checks_limited_velocity_witness :
  exists dv v,
    computeVelocityChange 2 0 posPair velPair = Ok dv /\
    rd velPair 0 = Ok v /\
    wr [vzero; vzero] 0 (limitSpeed (vadd dv v))
    = Ok [limitSpeed (ruleVelocity_spec 2 posPair velPair 0); vzero] /\
    @nil string = ([] ++ speedWarning (limitSpeed (vadd dv v)))%list /\
    speedWarning (limitSpeed (vadd dv v)) = [] /\
    @nil string = [].
Proof.
  apply (proj1 C8_warning_checks_limited_velocity 2 posPair velPair 0
           [vzero; vzero] []).
  - apply kernUpdateVelocityBruteForce_spec;
      [lia | reflexivity | reflexivity | simpl; lia].
  - lia.
Defined.

(** ** Which velocities the integrator reads *)

Lemma limitSpeed_short v :
  (glm_dot v v <= 1)%R -> limitSpeed v = v.
Proof.
  intros H. apply limitSpeed_slow. unfold maxSpeed, glm_length.
  rewrite <- sqrt_1. apply sqrt_le_1_alt. exact H.
Qed.

Lemma ruleVelocity_rest_0 :
  ruleVelocity_spec 2 posRest velRest 0 = mkvec3 (- (9 / 100)) 0 0.
Proof.
  unfold ruleVelocity_spec, cohesion_spec, separation_spec, alignment_spec,
    neighborsWithin, isNeighbor.
  simpl.
  rewrite !Rltb_distance
    by (unfold rule1Distance, rule2Distance, rule3Distance; lra).
  unfold posOf, posRest. simpl.
  unfold rule1Distance, rule2Distance, rule3Distance.
  rewrite !Rltb_true by (unfold glm_dot, vsub; simpl; lra).
  unfold vadd, rule1Scale, rule2Scale, rule3Scale. simpl.
  f_equal; lra.
Qed.

Lemma ruleVelocity_rest_1 :
  ruleVelocity_spec 2 posRest velRest 1 = mkvec3 (9 / 100) 0 0.
Proof.
  unfold ruleVelocity_spec, cohesion_spec, separation_spec, alignment_spec,
    neighborsWithin, isNeighbor.
  simpl.
  rewrite !Rltb_distance
    by (unfold rule1Distance, rule2Distance, rule3Distance; lra).
  unfold posOf, posRest. simpl.
  unfold rule1Distance, rule2Distance, rule3Distance.
  rewrite !Rltb_true by (unfold glm_dot, vsub; simpl; lra).
  unfold vadd, rule1Scale, rule2Scale, rule3Scale. simpl.
  f_equal; lra.
Qed.

Lemma integrated_at_rest p dt : inDomain p -> integrated p vzero dt = p.
Proof.
  intros (Hx & Hy & Hz). unfold integrated. destruct p as [x y z].
  cbn [vadd vscale vzero vx vy vz] in *.
  rewrite !Rmult_0_l, !Rplus_0_r, !wrap_id by assumption. reflexivity.
Qed.

(** The brute-force step on the two boids at rest, for any [dt]. *)
Lemma stepSimulationNaive_twoBoidsAtRest dt :
  stepSimulationNaive dt twoBoidsAtRest
  = Ok (gridDevice 2 posRest
          [mkvec3 (- (9 / 100)) 0 0; mkvec3 (9 / 100) 0 0] velRest
          [0; 0] [0; 0] cleanTable cleanTable
          [vzero; vzero] [vzero; vzero]).
Proof.
  unfold stepSimulationNaive.
  rewrite launch_boids;
    [| simpl; lia
     | intros; destruct s'; apply kernUpdateVelocityBruteForce_idle; assumption].
  cbn [twoBoidsAtRest gridDevice numObjects dev_pos dev_vel1 dev_vel2
       dev_stdout].
  change (zrange 0 (Z.to_nat 2)) with [0; 1]. cbn [foldM].
  rewrite kernUpdateVelocityBruteForce_spec
    by first [reflexivity | simpl; lia].
  cbn [bind].
  rewrite kernUpdateVelocityBruteForce_spec
    by first [reflexivity | simpl; lia].
  cbn [bind fst snd].
  rewrite ruleVelocity_rest_0, ruleVelocity_rest_1.
  rewrite !limitSpeed_short by (unfold glm_dot; simpl; lra).
  change (set_nth (set_nth _ _ _) _ _)
    with [mkvec3 (- (9 / 100)) 0 0; mkvec3 (9 / 100) 0 0].
  rewrite launch_boids;
    [| simpl; lia | intros; apply kernUpdatePos_idle; assumption].
  cbn [twoBoidsAtRest gridDevice with_stdout with_vel2 numObjects dev_pos
       dev_vel1 dev_vel2].
  change (zrange 0 (Z.to_nat 2)) with [0; 1]. cbn [foldM].
  rewrite (kernUpdatePos_active 2 dt velRest 0 posRest vzero vzero)
    by first [reflexivity | lia].
  rewrite integrated_at_rest
    by (unfold inDomain, scene_scale; simpl; lra).
  change (wr posRest 0 vzero) with (Ok posRest). cbn [bind].
  rewrite (kernUpdatePos_active 2 dt velRest 1 posRest (mkvec3 1 0 0) vzero)
    by first [reflexivity | lia].
  rewrite integrated_at_rest
    by (unfold inDomain, scene_scale; simpl; lra).
  change (wr posRest 1 (mkvec3 1 0 0)) with (Ok posRest). cbn [bind].
  reflexivity.
Qed.

(** C1, evaluated: two boids at rest one unit apart, [dt = 1].  The
    brute-force evaluator computes the velocities (-0.09, 0, 0) and
    (0.09, 0, 0), which the step leaves in [dev_vel1]; the positions after
    the step are the positions before it, because [kernUpdatePos] was
    given the buffer the evaluator read (all zero), not the one it
    wrote. *)
Theorem C1_naive_integrates_previous_velocities :
  exists d',
    stepSimulationNaive 1 twoBoidsAtRest = Ok d' /\
    dev_vel1 d' = [mkvec3 (- (9 / 100)) 0 0; mkvec3 (9 / 100) 0 0] /\
    dev_pos d' = dev_pos twoBoidsAtRest /\
    dev_pos d' <> [mkvec3 (0 + - (9 / 100) * 1) 0 0;
                   mkvec3 (1 + 9 / 100 * 1) 0 0].
Proof.
  rewrite stepSimulationNaive_twoBoidsAtRest.
  eexists; split; [reflexivity |].
  split; [reflexivity |]. split; [reflexivity |].
  cbn [gridDevice dev_pos]. unfold posRest.
  intros [= H _]. lra.
Qed.

(** ** What the stages of a step leave alone *)

Lemma computeAndSortIndices_frame sort d d' :
  computeAndSortIndices sort d = Ok d' -> exists o, d' = with_indices d o.
Proof.
  unfold computeAndSortIndices. intros H. inv_bind H.
  cbv zeta in H. destruct (sort _ _) as [keys values].
  injection H as <-. eexists. reflexivity.
Qed.

Lemma resetCellTables_frame d d' :
  resetCellTables d = Ok d' ->
  exists s e, d' = with_end (with_start d s) e.
Proof.
  unfold resetCellTables. intros H. inv_bind H.
  injection H as <-. eexists _, _. reflexivity.
Qed.

Lemma identifyCells_frame d d' :
  identifyCells d = Ok d' ->
  exists s e, d' = with_end (with_start d s) e.
Proof.
  unfold identifyCells. intros H. inv_bind H.
  injection H as <-. eexists _, _. reflexivity.
Qed.

Lemma scatteredAfterIdentify_frame sort d d' :
  scatteredAfterIdentify sort d = Ok d' ->
  exists ai gi st en, d' = with_grid d ai gi st en.
Proof.
  unfold scatteredAfterIdentify, scatteredBeforeIdentify. intros H.
  inv_binds.
  match goal with E : computeAndSortIndices _ _ = _ |- _ =>
    apply computeAndSortIndices_frame in E as ([ai gi] & ->) end.
  match goal with E : resetCellTables _ = _ |- _ =>
    apply resetCellTables_frame in E as (s & e & ->) end.
  apply identifyCells_frame in H as (s' & e' & ->).
  exists ai, gi, s', e'. reflexivity.
Qed.

Lemma coherentAfterIdentify_frame sort d d' :
  coherentAfterIdentify sort d = Ok d' ->
  exists ai gi st en, d' = with_grid d ai gi st en.
Proof.
  unfold coherentAfterIdentify, coherentBeforeIdentify. intros H.
  inv_binds.
  match goal with E : resetCellTables _ = _ |- _ =>
    apply resetCellTables_frame in E as (s & e & ->) end.
  match goal with E : computeAndSortIndices _ _ = _ |- _ =>
    apply computeAndSortIndices_frame in E as ([ai gi] & ->) end.
  apply identifyCells_frame in H as (s' & e' & ->).
  exists ai, gi, s', e'. reflexivity.
Qed.

(** ** Stepping with [dt = 0] *)

Lemma integrated_dt0 p v : inDomain p -> integrated p v 0 = p.
Proof.
  intros (Hx & Hy & Hz). unfold integrated. destruct p as [x y z].
  cbn [vadd vscale vx vy vz] in *.
  rewrite !Rmult_0_r, !Rplus_0_r, !wrap_id by assumption. reflexivity.
Qed.

Lemma kernUpdatePos_dt0 N vel pos index pos' :
  (forall i p, i < N -> rd pos i = Ok p -> inDomain p) ->
  kernUpdatePos N 0 vel index pos = Ok pos' -> pos' = pos.
Proof.
  intros Hdom H. unfold kernUpdatePos in H.
  destruct (Z.geb_spec index N); [congruence |].
  destruct (rd pos index) as [p |] eqn:Hp; cbn [bind] in H; [| discriminate].
  destruct (rd vel index) as [v |] eqn:Hv; cbn [bind] in H; [| discriminate].
  change (wr pos index (integrated p v 0) = Ok pos') in H.
  rewrite integrated_dt0 in H by (eapply Hdom; eassumption).
  rewrite (wr_same_value _ _ _ Hp) in H. congruence.
Qed.

Lemma launch_kernUpdatePos_dt0 blocks N vel pos pos' :
  (forall i p, i < N -> rd pos i = Ok p -> inDomain p) ->
  launch blocks (kernUpdatePos N 0 vel) pos = Ok pos' -> pos' = pos.
Proof.
  intros Hdom. unfold launch.
  apply (foldM_invariant (fun s => s = pos)); [| reflexivity].
  intros i s s' _ Hbody ->. eapply kernUpdatePos_dt0; eassumption.
Qed.

Lemma rd_In {A} (buf : list A) i a : rd buf i = Ok a -> In a buf.
Proof. intros H. apply rd_inv in H as [_ H]. eapply nth_error_In; eassumption. Qed.

(** The slot that [kernPropogateCoherency] fills for a boid. *)
Lemma foldM_slots {S} (body : Z -> S -> result S) (R : Z -> S -> Prop) l :
  NoDup l ->
  (forall i s s', In i l -> body i s = Ok s' -> R i s') ->
  (forall i j s s', i <> j -> body j s = Ok s' -> R i s -> R i s') ->
  forall s s', foldM body l s = Ok s' -> forall i, In i l -> R i s'.
Proof.
  intros Hnd Hown Hother.
  induction l as [| j l IH]; intros s s' H i Hi; [destruct Hi |].
  cbn [foldM] in H.
  destruct (body j s) as [s1 |] eqn:E; cbn [bind] in H; [| discriminate].
  inversion Hnd as [| ? ? Hj Hnd']; subst.
  destruct Hi as [<- | Hi].
  - apply (foldM_invariant (R j) body l) with (s := s1); [| | assumption].
    + intros k t t' Hk Hb. apply Hother with (j := k); [| assumption].
      intros ->; contradiction.
    + eapply Hown; [left; reflexivity | eassumption].
  - eapply IH; try eassumption.
    intros k t t' Hk. apply Hown. right; assumption.
Qed.

Lemma NoDup_zrange lo n : NoDup (zrange lo n).
Proof.
  unfold zrange. apply Finite.Injective_map_NoDup; [| apply seq_NoDup].
  intros a b H. lia.
Qed.

Lemma launch_kernPropogateCoherency blocks N idx pos vel pos2 vel2 pos2' vel2' :
  launch blocks (kernPropogateCoherency N idx pos vel) (pos2, vel2)
  = Ok (pos2', vel2') ->
  forall i, 0 <= i < N -> i < blocks * blockSize ->
    exists k, rd idx i = Ok k /\ rd pos2' i = rd pos k.
Proof.
  intros H i Hi Hb.
  apply (foldM_slots (kernPropogateCoherency N idx pos vel)
           (fun i o => i < N -> exists k, rd idx i = Ok k
                                          /\ rd (fst o) i = rd pos k)
           (threadIds blocks)) with (s := (pos2, vel2)) (s' := (pos2', vel2'));
    try assumption.
  - apply NoDup_zrange.
  - clear. intros i [p v] [p' v'] _ Hbody HiN.
    unfold kernPropogateCoherency in Hbody.
    destruct (Z.geb_spec i N); [lia |].
    inv_bind Hbody. injection Hbody as <- <-.
    eexists; split; [reflexivity |]. cbn [fst].
    match goal with E : wr p i _ = Ok _ |- _ =>
      rewrite (rd_wr_same _ _ _ _ E) end.
    symmetry; assumption.
  - clear. intros i j [p v] [p' v'] Hij Hbody HR HiN.
    destruct (HR HiN) as (k & Hk & Hrd). exists k; split; [assumption |].
    unfold kernPropogateCoherency in Hbody.
    destruct (Z.geb_spec j N); [injection Hbody as <- <-; assumption |].
    inv_bind Hbody. injection Hbody as <- <-. cbn [fst] in *.
    match goal with E : wr p j _ = Ok _ |- _ =>
      rewrite (rd_wr_other _ _ _ _ _ E) by congruence end.
    assumption.
  - apply in_zrange. lia.
  - lia.
Qed.

Lemma inDomain_rd pos i p :
  Forall inDomain pos -> rd pos i = Ok p -> inDomain p.
Proof.
  intros Hall Hrd. apply rd_In in Hrd.
  rewrite Forall_forall in Hall. auto.
Qed.

Lemma stepSimulationNaive_dt0 d d' :
  stepSimulationNaive 0 d = Ok d' ->
  Forall inDomain (dev_pos d) ->
  dev_pos d' = dev_pos d.
Proof.
  unfold stepSimulationNaive. intros H Hdom. inv_binds.
  injection H as <-. cbn.
  match goal with E : launch _ (kernUpdatePos _ _ _) _ = Ok _ |- _ =>
    apply launch_kernUpdatePos_dt0 in E; [exact E |] end.
  intros i p _. apply inDomain_rd. exact Hdom.
Qed.

Lemma stepSimulationScatteredGrid_dt0 sort d d' :
  stepSimulationScatteredGrid sort 0 d = Ok d' ->
  Forall inDomain (dev_pos d) ->
  dev_pos d' = dev_pos d.
Proof.
  unfold stepSimulationScatteredGrid. intros H Hdom.
  destruct (scatteredAfterIdentify sort d) as [d4 |] eqn:E4;
    cbn [bind] in H; [| discriminate].
  apply scatteredAfterIdentify_frame in E4 as (ai & gi & st & en & ->).
  inv_binds. injection H as <-. cbn.
  match goal with E : launch _ (kernUpdatePos _ _ _) _ = Ok _ |- _ =>
    apply launch_kernUpdatePos_dt0 in E; [exact E |] end.
  intros i p _. apply inDomain_rd. exact Hdom.
Qed.

Lemma stepSimulationCoherentGrid_dt0 sort d d' :
  stepSimulationCoherentGrid sort 0 d = Ok d' ->
  Forall inDomain (dev_pos d) ->
  forall i, 0 <= i < numObjects d ->
    exists k, rd (dev_particleArrayIndices d') i = Ok k /\
              rd (dev_pos d') i = rd (dev_pos d) k.
Proof.
  unfold stepSimulationCoherentGrid. intros H Hdom i Hi.
  destruct (coherentAfterIdentify sort d) as [d4 |] eqn:E4;
    cbn [bind] in H; [| discriminate].
  apply coherentAfterIdentify_frame in E4 as (ai & gi & st & en & ->).
  destruct (launch _ (kernPropogateCoherency _ _ _ _) _) as [[pc vc] |] eqn:Ep;
    cbn [bind] in H; [| discriminate].
  inv_binds. injection H as <-.
  cbn in *.
  assert (Hcover : forall j, 0 <= j < numObjects d ->
                             j < blocksPerGrid d * blockSize).
  { intros j Hj. unfold blocksPerGrid.
    pose proof (blocks_cover (numObjects d)). lia. }
  pose proof (launch_kernPropogateCoherency _ _ _ _ _ _ _ _ _ Ep) as Hslots.
  match goal with E : launch _ (kernUpdatePos _ _ _) _ = Ok _ |- _ =>
    apply launch_kernUpdatePos_dt0 in E; [subst |] end.
  - apply Hslots; auto.
  - intros j p Hj Hrd.
    destruct (rd_inv _ _ _ Hrd) as [Hj0 _].
    destruct (Hslots j) as (k & _ & Hk); [lia | apply Hcover; lia |].
    rewrite Hk in Hrd. eapply inDomain_rd; eassumption.
Qed.

(** ** The neighbour loops of the grid evaluators on concrete tables *)

Lemma visitCell_empty off slotOf li cp pos vel st en cell a :
  rangeIsEmpty off st en cell = true ->
  visitCell off slotOf li cp pos vel st en cell a = Ok a.
Proof.
  unfold rangeIsEmpty, visitCell. destruct (cell <? 0); [reflexivity |].
  cbn [orb]. destruct (rd st cell) as [s |]; [| discriminate].
  destruct (rd en cell) as [e |]; [| discriminate].
  intros H. apply Z.leb_le in H. cbn [bind].
  replace (Z.to_nat (e - s + off)) with 0%nat by lia. reflexivity.
Qed.

Lemma visitCells_empty off slotOf li cp pos vel st en cells a :
  forallb (rangeIsEmpty off st en) cells = true ->
  foldM (visitCell off slotOf li cp pos vel st en) cells a = Ok a.
Proof.
  intros H. apply foldM_idle. intros cell Hc.
  rewrite forallb_forall in H. apply visitCell_empty.
  (* every cell of the list is empty, whatever the accumulator *)
  apply H, Hc.
Qed.

(** An inclusive loop over a cell whose two entries are the sentinel -1
    runs once, with [j = -1]. *)
Lemma visitCell_sentinel idx li cp pos vel st en cell a :
  0 <= cell -> rd st cell = Ok (-1) -> rd en cell = Ok (-1) ->
  visitCell 1 (rd idx) li cp pos vel st en cell a = OutOfBounds.
Proof.
  intros Hc Hs He. unfold visitCell.
  destruct (Z.ltb_spec cell 0); [lia |].
  rewrite Hs, He. reflexivity.
Qed.

Lemma visitCells_sentinel idx li cp pos vel st en pre cell rest a :
  forallb (rangeIsEmpty 1 st en) pre = true ->
  0 <= cell -> rd st cell = Ok (-1) -> rd en cell = Ok (-1) ->
  foldM (visitCell 1 (rd idx) li cp pos vel st en) (pre ++ cell :: rest) a
  = OutOfBounds.
Proof.
  intros Hpre Hc Hs He.
  rewrite foldM_app, visitCells_empty by assumption.
  cbn [bind foldM]. now rewrite visitCell_sentinel.
Qed.

Lemma neighbors_of_origin :
  calculateBoidNeighborCells
    (vscale (vsub vzero (mkvec3 (-110) (-110) (-110))) (1 / 10)) 22
  = [5577; 5576; 5599; 6061; 5598; 6083; 6060; 6082].
Proof.
  unfold calculateBoidNeighborCells, neighborSigns, to_ivec3. simpl.
  rewrite !(truncZ_nonneg _ 11) by (first [lra | lia]).
  eval_Rltb. reflexivity.
Qed.

Lemma scatteredAfterIdentify_oneBoid :
  scatteredAfterIdentify insertion_sort_by_key (oneBoid cleanTable cleanTable)
  = Ok (gridDevice 1 [vzero] [vzero] [vzero] [0] [5577]
          (set_nth cleanTable (Z.to_nat 5577) 0) cleanTable [vzero] [vzero]).
Proof.
  assert (Hlen : Z.of_nat (List.length cleanTable) = 10648)
    by (unfold cleanTable; rewrite repeat_length; reflexivity).
  assert (Hreset : repeat (-1) (Z.to_nat 1) ++ skipn (Z.to_nat 1) cleanTable
                   = cleanTable)
    by (vm_compute; reflexivity).
  unfold scatteredAfterIdentify, scatteredBeforeIdentify.
  rewrite computeAndSortIndices_oneBoid. cbn [bind].
  rewrite resetCellTables_eval;
    [| simpl; lia | cbn [gridDevice numObjects dev_gridCellEndIndices]; lia
     | cbn [gridDevice numObjects dev_gridCellStartIndices]; lia ].
  cbv zeta. cbn [gridDevice numObjects dev_gridCellEndIndices
                 dev_gridCellStartIndices].
  rewrite Hreset. cbn [bind].
  change (with_start _ _)
    with (gridDevice 1 [vzero] [vzero] [vzero] [0] [5577]
            cleanTable cleanTable [vzero] [vzero]).
  rewrite identifyCells_single, wr_Ok by lia. reflexivity.
Qed.

Lemma stepSimulationNaive_oneBoid dt st en :
  stepSimulationNaive dt (oneBoid st en) = Ok (oneBoid st en).
Proof.
  unfold stepSimulationNaive.
  rewrite launch_boids;
    [| simpl; lia
     | intros; destruct s'; apply kernUpdateVelocityBruteForce_idle; assumption].
  cbn [oneBoid gridDevice numObjects dev_pos dev_vel1 dev_vel2 dev_stdout].
  change (zrange 0 (Z.to_nat 1)) with [0]. cbn [foldM].
  rewrite kernUpdateVelocityBruteForce_spec
    by first [reflexivity | simpl; lia].
  cbn [bind fst snd].
  assert (Hv : ruleVelocity_spec 1 [vzero] [vzero] 0 = vzero).
  { unfold ruleVelocity_spec, cohesion_spec, separation_spec, alignment_spec,
      neighborsWithin, isNeighbor. simpl.
    unfold vadd, vzero. simpl. f_equal; lra. }
  rewrite Hv, limitSpeed_short by (unfold glm_dot; simpl; lra).
  rewrite launch_boids;
    [| simpl; lia | intros; apply kernUpdatePos_idle; assumption].
  cbn [oneBoid gridDevice with_stdout with_vel2 numObjects dev_pos
       dev_vel1 dev_vel2].
  change (zrange 0 (Z.to_nat 1)) with [0]. cbn [foldM].
  rewrite (kernUpdatePos_active 1 dt [vzero] 0 [vzero] vzero vzero)
    by first [reflexivity | lia].
  rewrite integrated_at_rest
    by (unfold inDomain, scene_scale; simpl; lra).
  reflexivity.
Qed.

(** C5, evaluated: one boid at the origin, boundary tables holding -1 in
    every cell.  The boid has no neighbour at all, so its true neighbour set
    lies in any candidate window, and the brute-force step completes.  In
    the scattered step the evaluator reaches the candidate cell 5576,
    whose entries are [start = end = -1]; the loop [j = start; j <= end]
    runs with [j = -1] and reads [particleArrayIndices[-1]], outside the
    buffer. *)
Theorem C5_scattered_reads_before_the_buffer dt :
  neighborsWithin 1 [vzero] 0 rule1Distance = [] /\
  stepSimulationNaive dt (oneBoid cleanTable cleanTable)
  = Ok (oneBoid cleanTable cleanTable) /\
  stepSimulationScatteredGrid insertion_sort_by_key dt
    (oneBoid cleanTable cleanTable) = OutOfBounds.
Proof.
  split; [reflexivity |]. split; [apply stepSimulationNaive_oneBoid |].
  unfold stepSimulationScatteredGrid.
  rewrite scatteredAfterIdentify_oneBoid. cbn [bind].
  rewrite launch_boids;
    [| simpl; lia
     | intros; apply kernUpdateVelNeighborSearchScattered_idle; assumption].
  cbn [gridDevice numObjects gridSideCount gridMinimum gridInverseCellWidth
       gridCellWidth dev_gridCellStartIndices dev_gridCellEndIndices
       dev_particleArrayIndices dev_pos dev_vel1 dev_vel2 dev_stdout].
  change (zrange 0 (Z.to_nat 1)) with [0]. cbn [foldM].
  unfold kernUpdateVelNeighborSearchScattered.
  change (0 >=? 1) with false. cbv iota.
  change (rd [0] 0) with (Ok 0). cbn [bind].
  change (rd [vzero] 0) with (Ok vzero). cbn [bind].
  rewrite neighbors_of_origin.
  change [5577; 5576; 5599; 6061; 5598; 6083; 6060; 6082]
    with ([5577] ++ 5576 :: [5599; 6061; 5598; 6083; 6060; 6082]).
  rewrite (visitCells_sentinel [0] 0 vzero [vzero] [vzero] _ _ [5577] 5576);
    [reflexivity | vm_compute; reflexivity | lia
     | vm_compute; reflexivity | vm_compute; reflexivity].
Qed.

(** ** The coherent step on two boids stored against the cell order *)

Ltac trunc_to z :=
  match goal with
  | |- context [truncZ ?r] =>
      rewrite (truncZ_nonneg r z) by (first [lra | lia])
  end.

Lemma computeAndSortIndices_swapped st en :
  computeAndSortIndices insertion_sort_by_key (twoBoidsSwapped st en)
  = Ok (gridDevice 2 posSwapped velRest [vzero; vzero] [1; 0] [5572; 5582]
          st en [vzero; vzero] [vzero; vzero]).
Proof.
  unfold computeAndSortIndices.
  rewrite launch_boids;
    [| simpl; lia | intros; apply kernComputeIndices_idle; assumption].
  simpl. repeat trunc_to 16. repeat trunc_to 6. repeat trunc_to 11.
  reflexivity.
Qed.

Lemma identifyCells_two pos vel1 vel2 ai g0 g1 st en pc vc :
  g0 <> g1 ->
  identifyCells (gridDevice 2 pos vel1 vel2 ai [g0; g1] st en pc vc)
  = (st1 <- wr st g0 0 ;;
     en1 <- wr en g1 1 ;;
     en2 <- wr en1 g0 0 ;;
     st2 <- wr st1 g1 1 ;;
     Ok (gridDevice 2 pos vel1 vel2 ai [g0; g1] st2 en2 pc vc)).
Proof.
  intros Hg. unfold identifyCells.
  rewrite launch_boids;
    [| simpl; lia
     | intros; apply kernIdentifyCellStartEnd_idle; [simpl; lia | assumption]].
  cbn [gridDevice numObjects dev_particleGridIndices dev_gridCellStartIndices
       dev_gridCellEndIndices].
  change (zrange 0 (Z.to_nat 2)) with [0; 1].
  cbn [foldM]. unfold kernIdentifyCellStartEnd.
  set (W := @wr Z). simpl.
  destruct (W st g0 0) as [st1 |]; [| reflexivity]. simpl.
  destruct (W en g1 1) as [en1 |]; [| reflexivity]. simpl.
  destruct (Z.eqb_spec g0 g1); [contradiction |]. simpl.
  destruct (W en1 g0 0) as [en2 |]; [| reflexivity]. simpl.
  destruct (W st1 g1 1) as [st2 |]; reflexivity.
Qed.

(** A thread of a grid evaluator all of whose candidate cells have empty
    ranges stores the limited sum of the untouched accumulators and the
    boid's velocity. *)
Lemma kernUpdateVelNeighborSearchCoherent_alone
    N res gmin inv w st en pos vel1 i vel2 out p v :
  i < N -> rd pos i = Ok p -> rd vel1 i = Ok v ->
  forallb (rangeIsEmpty 0 st en)
          (calculateBoidNeighborCells (vscale (vsub p gmin) inv) res) = true ->
  kernUpdateVelNeighborSearchCoherent N res gmin inv w st en pos vel1 i
    (vel2, out)
  = (vel2' <- wr vel2 i (limitSpeed (vadd (combineRules p accum0) v)) ;;
     Ok (vel2', out)).
Proof.
  intros Hi Hp Hv Hempty. unfold kernUpdateVelNeighborSearchCoherent.
  destruct (Z.geb_spec i N); [lia |].
  rewrite Hp. cbn [bind]. rewrite visitCells_empty by assumption.
  cbn [bind]. unfold storeVelocity. rewrite Hv. cbn [bind].
  rewrite speedWarning_limitSpeed, app_nil_r. reflexivity.
Qed.

Lemma kernUpdateVelNeighborSearchScattered_alone
    N res gmin inv w st en idx pos vel1 index vel2 out li p v :
  index < N -> rd idx index = Ok li -> rd pos li = Ok p -> rd vel1 li = Ok v ->
  forallb (rangeIsEmpty 1 st en)
          (calculateBoidNeighborCells (vscale (vsub p gmin) inv) res) = true ->
  kernUpdateVelNeighborSearchScattered N res gmin inv w st en idx pos vel1
    index (vel2, out)
  = (vel2' <- wr vel2 li (limitSpeed (vadd (combineRules p accum0) v)) ;;
     Ok (vel2', out)).
Proof.
  intros Hi Hli Hp Hv Hempty. unfold kernUpdateVelNeighborSearchScattered.
  destruct (Z.geb_spec index N); [lia |].
  rewrite Hli. cbn [bind]. rewrite Hp. cbn [bind].
  rewrite visitCells_empty by assumption.
  cbn [bind]. unfold storeVelocity. rewrite Hv. cbn [bind].
  rewrite speedWarning_limitSpeed, app_nil_r. reflexivity.
Qed.

Lemma neighbors_swapped_0 :
  calculateBoidNeighborCells
    (vscale (vsub (mkvec3 (-50) 0 0) (mkvec3 (-110) (-110) (-110))) (1 / 10)) 22
  = [5572; 5571; 5594; 6056; 5593; 6078; 6055; 6077].
Proof.
  unfold calculateBoidNeighborCells, neighborSigns, to_ivec3. simpl.
  repeat trunc_to 6. repeat trunc_to 11.
  eval_Rltb. reflexivity.
Qed.

Lemma neighbors_swapped_1 :
  calculateBoidNeighborCells
    (vscale (vsub (mkvec3 50 0 0) (mkvec3 (-110) (-110) (-110))) (1 / 10)) 22
  = [5582; 5581; 5604; 6066; 5603; 6088; 6065; 6087].
Proof.
  unfold calculateBoidNeighborCells, neighborSigns, to_ivec3. simpl.
  repeat trunc_to 16. repeat trunc_to 11.
  eval_Rltb. reflexivity.
Qed.

Lemma restVelocity p : limitSpeed (vadd (combineRules p accum0) vzero) = vzero.
Proof.
  assert (E : vadd (combineRules p accum0) vzero = vzero).
  { unfold combineRules, vadd, vscale, vzero; simpl. f_equal; lra. }
  rewrite E. apply limitSpeed_short. unfold glm_dot; simpl; lra.
Qed.

Lemma stepSimulationCoherentGrid_swapped :
  stepSimulationCoherentGrid insertion_sort_by_key 0
    (twoBoidsSwapped cleanTable cleanTable)
  = Ok (gridDevice 2 [mkvec3 (-50) 0 0; mkvec3 50 0 0] velRest [vzero; vzero]
          [1; 0] [5572; 5582]
          (set_nth (set_nth cleanTable (Z.to_nat 5572) 0) (Z.to_nat 5582) 1)
          (set_nth (set_nth cleanTable (Z.to_nat 5582) 1) (Z.to_nat 5572) 0)
          posSwapped [vzero; vzero]).
Proof.
  assert (Hlen : Z.of_nat (List.length cleanTable) = 10648)
    by (unfold cleanTable; rewrite repeat_length; reflexivity).
  assert (Hreset : repeat (-1) (Z.to_nat 2) ++ skipn (Z.to_nat 2) cleanTable
                   = cleanTable)
    by (vm_compute; reflexivity).
  unfold stepSimulationCoherentGrid, coherentAfterIdentify,
    coherentBeforeIdentify.
  rewrite resetCellTables_eval;
    [| simpl; lia
     | cbn [twoBoidsSwapped gridDevice numObjects dev_gridCellEndIndices]; lia
     | cbn [twoBoidsSwapped gridDevice numObjects dev_gridCellStartIndices];
       lia ].
  cbv zeta. cbn [twoBoidsSwapped gridDevice numObjects dev_gridCellEndIndices
                 dev_gridCellStartIndices].
  rewrite Hreset. cbn [bind].
  change (with_start _ _) with (twoBoidsSwapped cleanTable cleanTable).
  rewrite computeAndSortIndices_swapped. cbn [bind].
  rewrite identifyCells_two by lia.
  rewrite (wr_Ok cleanTable 5572 0) by lia. cbn [bind].
  rewrite (wr_Ok cleanTable 5582 1) by lia. cbn [bind].
  rewrite wr_Ok by (rewrite length_set_nth; lia). cbn [bind].
  rewrite wr_Ok by (rewrite length_set_nth; lia). cbn [bind].
  set (st := set_nth (set_nth cleanTable (Z.to_nat 5572) 0) (Z.to_nat 5582) 1).
  set (en := set_nth (set_nth cleanTable (Z.to_nat 5582) 1) (Z.to_nat 5572) 0).
  rewrite launch_boids;
    [| simpl; lia | intros; apply kernPropogateCoherency_idle; assumption].
  cbn [gridDevice numObjects dev_particleArrayIndices dev_pos dev_vel1
       dev_pos_co dev_vel_co].
  change (zrange 0 (Z.to_nat 2)) with [0; 1].
  unfold posSwapped, velRest. simpl foldM. cbn [bind].
  rewrite launch_boids;
    [| simpl; lia
     | intros; apply kernUpdateVelNeighborSearchCoherent_idle; assumption].
  cbn [with_co fst snd gridDevice numObjects gridSideCount gridMinimum
       gridInverseCellWidth gridCellWidth dev_gridCellStartIndices
       dev_gridCellEndIndices dev_particleArrayIndices dev_pos dev_vel1
       dev_vel2 dev_stdout dev_pos_co dev_vel_co].
  change (zrange 0 (Z.to_nat 2)) with [0; 1]. cbn [foldM].
  rewrite (kernUpdateVelNeighborSearchCoherent_alone 2 22 _ _ _ st en _ _ 0
             _ _ (mkvec3 (-50) 0 0) vzero);
    [| lia | reflexivity | reflexivity
     | rewrite neighbors_swapped_0; vm_compute; reflexivity].
  rewrite restVelocity.
  change (wr [vzero; vzero] 0 vzero) with (Ok [vzero; vzero]). cbn [bind].
  rewrite (kernUpdateVelNeighborSearchCoherent_alone 2 22 _ _ _ st en _ _ 1
             _ _ (mkvec3 50 0 0) vzero);
    [| lia | reflexivity | reflexivity
     | rewrite neighbors_swapped_1; vm_compute; reflexivity].
  rewrite restVelocity.
  change (wr [vzero; vzero] 1 vzero) with (Ok [vzero; vzero]).
  cbn [bind fst snd].
  rewrite launch_boids;
    [| simpl; lia | intros; apply kernUpdatePos_idle; assumption].
  cbn [with_stdout with_vel1 with_co fst snd gridDevice numObjects
       dev_pos dev_vel1 dev_vel2 dev_stdout dev_pos_co dev_vel_co].
  change (zrange 0 (Z.to_nat 2)) with [0; 1]. cbn [foldM].
  rewrite (kernUpdatePos_active 2 0 _ 0 _ (mkvec3 (-50) 0 0) vzero)
    by first [reflexivity | lia].
  rewrite integrated_dt0 by (unfold inDomain, scene_scale; simpl; lra).
  rewrite wr_same_value by reflexivity. cbn [bind].
  rewrite (kernUpdatePos_active 2 0 _ 1 _ (mkvec3 50 0 0) vzero)
    by first [reflexivity | lia].
  rewrite integrated_dt0 by (unfold inDomain, scene_scale; simpl; lra).
  rewrite wr_same_value by reflexivity. cbn [bind].
  reflexivity.
Qed.

(** C9, refuted as stated: two boids at rest inside the domain, the boid
    of slot 0 in the higher cell.  The coherent step with [dt = 0]
    completes and leaves in slot 0 the position that was in slot 1, and
    in slot 1 the one that was in slot 0. *)
Lemma C9_coherent_step_moves_slots :
  exists d',
    step insertion_sort_by_key CoherentGrid 0
      (twoBoidsSwapped cleanTable cleanTable) = Ok d' /\
    Forall inDomain (dev_pos (twoBoidsSwapped cleanTable cleanTable)) /\
    dev_pos (twoBoidsSwapped cleanTable cleanTable)
    = [mkvec3 50 0 0; mkvec3 (-50) 0 0] /\
    dev_pos d' = [mkvec3 (-50) 0 0; mkvec3 50 0 0] /\
    dev_pos d' <> dev_pos (twoBoidsSwapped cleanTable cleanTable).
Proof.
  cbn [step]. rewrite stepSimulationCoherentGrid_swapped.
  eexists; split; [reflexivity |].
  split; [repeat constructor; unfold scene_scale; simpl; lra |].
  split; [reflexivity |]. split; [reflexivity |].
  cbn [gridDevice twoBoidsSwapped dev_pos]. unfold posSwapped.
  intros [= H]. lra.
Qed.

(** ** The boundary tables of two or more boids *)

Lemma populatedSum_set_start st : forall en n s0 e0 s',
  nth_error st n = Some s0 -> nth_error en n = Some e0 ->
  populatedSum (set_nth st n s') en
  = populatedSum st en - contribution s0 e0 + contribution s' e0.
Proof.
  induction st as [| s st IH]; intros [| e en] [| n] s0 e0 s' Hs He;
    simpl in *; try discriminate.
  - injection Hs as ->. injection He as ->. unfold contribution. lia.
  - rewrite (IH en n s0 e0 s') by assumption. lia.
Qed.

Lemma populatedSum_set_end st : forall en n s0 e0 e',
  nth_error st n = Some s0 -> nth_error en n = Some e0 ->
  populatedSum st (set_nth en n e')
  = populatedSum st en - contribution s0 e0 + contribution s0 e'.
Proof.
  induction st as [| s st IH]; intros [| e en] [| n] s0 e0 e' Hs He;
    simpl in *; try discriminate.
  - injection Hs as ->. injection He as ->. unfold contribution. lia.
  - rewrite (IH en n s0 e0 e') by assumption. lia.
Qed.

Lemma populatedSum_clean n : populatedSum (repeat (-1) n) (repeat (-1) n) = 0.
Proof. induction n; simpl; lia. Qed.

Lemma Sorted_adjacent (l : list Z) :
  Sorted Z.le l ->
  forall i, (S i < List.length l)%nat -> nth i l 0 <= nth (S i) l 0.
Proof.
  induction 1 as [| a l Hs IH Hhd]; intros i Hi; simpl in Hi; [lia |].
  destruct i as [| i].
  - destruct l as [| b l]; simpl in *; [lia |].
    inversion Hhd; assumption.
  - apply (IH i). lia.
Qed.

Lemma populatedSum_wr_start st en c s0 e0 s' st' :
  rd st c = Ok s0 -> rd en c = Ok e0 -> wr st c s' = Ok st' ->
  populatedSum st' en
  = populatedSum st en - contribution s0 e0 + contribution s' e0.
Proof.
  intros Hs He Hw. apply rd_inv in Hs as [_ Hs]. apply rd_inv in He as [_ He].
  apply wr_inv in Hw as [_ ->]. now apply populatedSum_set_start.
Qed.

Lemma populatedSum_wr_end st en c s0 e0 e' en' :
  rd st c = Ok s0 -> rd en c = Ok e0 -> wr en c e' = Ok en' ->
  populatedSum st en'
  = populatedSum st en - contribution s0 e0 + contribution s0 e'.
Proof.
  intros Hs He Hw. apply rd_inv in Hs as [_ Hs]. apply rd_inv in He as [_ He].
  apply wr_inv in Hw as [_ ->]. now apply populatedSum_set_end.
Qed.

Section Identify.
Variables (N M : Z) (cells : list Z).
Hypothesis N_ge_2 : 2 <= N.
Hypothesis cells_length : Z.of_nat (List.length cells) = N.
Hypothesis cells_sorted : Sorted Z.le cells.
Hypothesis cells_in_lattice : Forall (fun g => 0 <= g < M) cells.

Lemma rd_cells i : 0 <= i < N -> rd cells i = Ok (cellAt cells i).
Proof. intros H. apply rd_nth. lia. Qed.

Lemma cellAt_in_lattice i : 0 <= i < N -> 0 <= cellAt cells i < M.
Proof.
  intros H. rewrite Forall_forall in cells_in_lattice.
  apply cells_in_lattice. apply nth_In. lia.
Qed.

Lemma cellAt_step i : 0 < i < N -> cellAt cells (i - 1) <= cellAt cells i.
Proof.
  intros H. unfold cellAt.
  replace (Z.to_nat i) with (S (Z.to_nat (i - 1))) by lia.
  apply Sorted_adjacent; [assumption | lia].
Qed.

Lemma thread_first st en :
  kernIdentifyCellStartEnd N cells 0 (st, en)
  = (st' <- wr st (cellAt cells 0) 0 ;; Ok (st', en)).
Proof.
  unfold kernIdentifyCellStartEnd. cbn [Z.gtb Z.compare andb bind Z.eqb].
  rewrite rd_cells by lia. reflexivity.
Qed.

Lemma thread_middle i st en :
  0 < i < N - 1 ->
  kernIdentifyCellStartEnd N cells i (st, en) = closeAndOpen cells i st en.
Proof.
  intros H. unfold kernIdentifyCellStartEnd, closeAndOpen.
  destruct (Z.eqb_spec i (N - 1)); [lia |]. rewrite andb_false_r. cbn [bind].
  destruct (Z.eqb_spec i 0); [lia |].
  destruct (Z.ltb_spec i N); [| lia].
  rewrite !rd_cells by lia. cbn [bind].
  destruct (cellAt cells (i - 1) =? cellAt cells i); reflexivity.
Qed.

Lemma thread_last st en :
  kernIdentifyCellStartEnd N cells (N - 1) (st, en)
  = (en1 <- wr en (cellAt cells (N - 1)) (N - 1) ;; closeAndOpen cells (N - 1) st en1).
Proof.
  unfold kernIdentifyCellStartEnd, closeAndOpen.
  destruct (Z.gtb_spec (N - 1) 0); [| lia]. rewrite Z.eqb_refl. cbn [andb].
  rewrite !rd_cells by lia. cbn [bind].
  destruct (wr en (cellAt cells (N - 1)) (N - 1)) as [en1 |]; [| reflexivity].
  cbn [bind].
  destruct (Z.eqb_spec (N - 1) 0); [lia |].
  destruct (Z.ltb_spec (N - 1) N); [| lia].
  cbn [bind]. destruct (cellAt cells (N - 1 - 1) =? cellAt cells (N - 1)); reflexivity.
Qed.

Lemma closeAndOpen_open i st en :
  0 < i < N -> openAt M cells i st en ->
  exists st' en', closeAndOpen cells i st en = Ok (st', en') /\ openAt M cells (i + 1) st' en'.
Proof.
  intros Hi (Hls & Hle & (s & Hs0 & Hs) & He & Hhigh & Hsum).
  unfold closeAndOpen, openAt. replace (i + 1 - 1) with i by lia.
  pose proof (cellAt_step i Hi) as Hstep.
  pose proof (cellAt_in_lattice i ltac:(lia)) as Hg'.
  pose proof (cellAt_in_lattice (i - 1) ltac:(lia)) as Hg.
  destruct (Z.eqb_spec (cellAt cells (i - 1)) (cellAt cells i)) as [E | Hne].
  - exists st, en. split; [reflexivity |]. rewrite <- E.
    repeat split; try assumption; try (apply Hhigh; assumption).
    exists s; auto.
  - destruct (Hhigh (cellAt cells i) ltac:(lia)) as [Hs' He'].
    assert (Hw1 : wr en (cellAt cells (i - 1)) (i - 1)
                  = Ok (set_nth en (Z.to_nat (cellAt cells (i - 1))) (i - 1)))
      by (apply wr_Ok; lia).
    assert (Hw2 : wr st (cellAt cells i) i = Ok (set_nth st (Z.to_nat (cellAt cells i)) i))
      by (apply wr_Ok; lia).
    rewrite Hw1. cbn [bind]. rewrite Hw2. cbn [bind].
    eexists _, _. split; [reflexivity |].
    split; [rewrite length_set_nth; assumption |].
    split; [rewrite length_set_nth; assumption |].
    split; [exists i; split; [lia | eapply rd_wr_same; eassumption] |].
    split; [rewrite (rd_wr_other _ _ _ _ _ Hw1) by lia; assumption |].
    split.
    + intros c Hc.
      rewrite (rd_wr_other _ _ _ _ _ Hw2) by lia.
      rewrite (rd_wr_other _ _ _ _ _ Hw1) by lia.
      apply Hhigh. lia.
    + rewrite (populatedSum_wr_start st _ (cellAt cells i) (-1) (-1) i);
        [| assumption
         | rewrite (rd_wr_other _ _ _ _ _ Hw1) by lia; assumption
         | assumption].
      rewrite (populatedSum_wr_end st en (cellAt cells (i - 1)) s (-1) (i - 1))
        by assumption.
      rewrite Hsum. unfold contribution.
      destruct (Z.eqb_spec s (-1)); [lia |].
      destruct (Z.eqb_spec i (-1)); [lia |].
      change (-1 =? -1) with true. cbv iota. lia.
Qed.

Lemma threads_open m :
  (1 <= m)%nat -> Z.of_nat m <= N - 1 ->
  exists st en,
    foldM (kernIdentifyCellStartEnd N cells) (zrange 0 m)
      (repeat (-1) (Z.to_nat M), repeat (-1) (Z.to_nat M)) = Ok (st, en) /\
    openAt M cells (Z.of_nat m) st en.
Proof.
  induction m as [| m IH]; [lia |]. intros _ Hm.
  destruct m as [| m].
  - clear IH. change (zrange 0 1) with [0]. cbn [foldM].
    rewrite thread_first.
    pose proof (cellAt_in_lattice 0 ltac:(lia)) as Hg.
    assert (Hrd : forall c, 0 <= c < M -> rd (repeat (-1) (Z.to_nat M)) c = Ok (-1)).
    { intros c Hc. rewrite (rd_nth _ c 0) by (rewrite repeat_length; lia).
      f_equal. apply nth_repeat_lt. lia. }
    rewrite wr_Ok by (rewrite repeat_length; lia). cbn [bind].
    eexists _, _. split; [reflexivity |].
    assert (Hw : wr (repeat (-1) (Z.to_nat M)) (cellAt cells 0) 0
                 = Ok (set_nth (repeat (-1) (Z.to_nat M)) (Z.to_nat (cellAt cells 0)) 0))
      by (apply wr_Ok; rewrite repeat_length; lia).
    unfold openAt. change (Z.of_nat 1 - 1) with 0.
    split; [rewrite length_set_nth, repeat_length; lia |].
    split; [rewrite repeat_length; lia |].
    split; [exists 0; split; [lia | eapply rd_wr_same; eassumption] |].
    split; [apply Hrd; lia |].
    split.
    + intros c Hc. rewrite (rd_wr_other _ _ _ _ _ Hw) by lia.
      split; apply Hrd; lia.
    + rewrite (populatedSum_wr_start _ _ (cellAt cells 0) (-1) (-1) 0 _
                 (Hrd _ Hg) (Hrd _ Hg) Hw).
      rewrite populatedSum_clean. reflexivity.
  - destruct IH as (st & en & Hrun & Hopen); [lia | lia |].
    replace (S (S m)) with (S m + 1)%nat by lia.
    rewrite zrange_app, foldM_app, Hrun. cbn [bind].
    change (zrange (0 + Z.of_nat (S m)) 1) with [0 + Z.of_nat (S m) + Z.of_nat 0].
    replace (0 + Z.of_nat (S m) + Z.of_nat 0) with (Z.of_nat (S m)) by lia.
    cbn [foldM]. rewrite thread_middle by lia.
    destruct (closeAndOpen_open (Z.of_nat (S m)) st en ltac:(lia) Hopen)
      as (st' & en' & -> & Hopen').
    cbn [bind]. exists st', en'. split; [reflexivity |].
    replace (Z.of_nat (S m + 1)) with (Z.of_nat (S m) + 1) by lia. assumption.
Qed.

Lemma identify_sum :
  exists st en,
    foldM (kernIdentifyCellStartEnd N cells) (zrange 0 (Z.to_nat N))
      (repeat (-1) (Z.to_nat M), repeat (-1) (Z.to_nat M)) = Ok (st, en) /\
    populatedSum st en = N.
Proof.
  destruct (threads_open (Z.to_nat (N - 1)) ltac:(lia) ltac:(lia))
    as (st & en & Hrun & Hopen).
  replace (Z.to_nat N) with (Z.to_nat (N - 1) + 1)%nat by lia.
  rewrite zrange_app, foldM_app, Hrun. cbn [bind].
  change (zrange (0 + Z.of_nat (Z.to_nat (N - 1))) 1)
    with [0 + Z.of_nat (Z.to_nat (N - 1)) + Z.of_nat 0].
  replace (0 + Z.of_nat (Z.to_nat (N - 1)) + Z.of_nat 0) with (N - 1) by lia.
  replace (Z.of_nat (Z.to_nat (N - 1))) with (N - 1) in Hopen by lia.
  cbn [foldM]. rewrite thread_last.
  destruct Hopen as (Hls & Hle & (s & Hs0 & Hs) & He & Hhigh & Hsum).
  pose proof (cellAt_step (N - 1) ltac:(lia)) as Hstep.
  pose proof (cellAt_in_lattice (N - 1) ltac:(lia)) as Hg'.
  pose proof (cellAt_in_lattice (N - 1 - 1) ltac:(lia)) as Hg.
  assert (Hw : wr en (cellAt cells (N - 1)) (N - 1)
               = Ok (set_nth en (Z.to_nat (cellAt cells (N - 1))) (N - 1)))
    by (apply wr_Ok; lia).
  rewrite Hw. cbn [bind]. unfold closeAndOpen.
  destruct (Z.eqb_spec (cellAt cells (N - 1 - 1)) (cellAt cells (N - 1))) as [E | Hne].
  - cbn [bind]. eexists _, _. split; [reflexivity |].
    rewrite <- E in Hw.
    rewrite (populatedSum_wr_end st en _ s (-1) (N - 1) _ Hs He)
      by (rewrite <- E; exact Hw).
    rewrite Hsum. unfold contribution.
    destruct (Z.eqb_spec s (-1)); lia.
  - destruct (Hhigh (cellAt cells (N - 1)) ltac:(lia)) as [Hs' He'].
    set (en1 := set_nth en (Z.to_nat (cellAt cells (N - 1))) (N - 1)) in *.
    assert (Hw1 : wr en1 (cellAt cells (N - 1 - 1)) (N - 1 - 1)
                  = Ok (set_nth en1 (Z.to_nat (cellAt cells (N - 1 - 1))) (N - 1 - 1)))
      by (apply wr_Ok; unfold en1; rewrite length_set_nth; lia).
    assert (Hw2 : wr st (cellAt cells (N - 1)) (N - 1)
                  = Ok (set_nth st (Z.to_nat (cellAt cells (N - 1))) (N - 1)))
      by (apply wr_Ok; lia).
    rewrite Hw1. cbn [bind]. rewrite Hw2. cbn [bind].
    eexists _, _. split; [reflexivity |].
    rewrite (populatedSum_wr_start st _ (cellAt cells (N - 1)) (-1) (N - 1) (N - 1));
      [| assumption
       | rewrite (rd_wr_other _ _ _ _ _ Hw1) by lia;
         eapply rd_wr_same; eassumption
       | assumption].
    rewrite (populatedSum_wr_end st en1 (cellAt cells (N - 1 - 1)) s (-1) (N - 1 - 1));
      [| assumption
       | unfold en1; rewrite (rd_wr_other _ _ _ _ _ Hw) by lia; assumption
       | assumption].
    rewrite (populatedSum_wr_end st en (cellAt cells (N - 1)) (-1) (-1) (N - 1))
      by assumption.
    rewrite Hsum. unfold contribution.
    destruct (Z.eqb_spec s (-1)); [lia |].
    destruct (Z.eqb_spec (N - 1) (-1)); [lia |].
    change (-1 =? -1) with true. cbv iota. lia.
Qed.
End Identify.

(** With two or more boids, sorted cell identifiers inside the lattice and
    tables holding -1 in every cell, the build of the scattered step
    yields ranges whose lengths add up to [numObjects]. *)
Lemma identifyCells_sum d :
  2 <= numObjects d ->
  Z.of_nat (List.length (dev_particleGridIndices d)) = numObjects d ->
  Sorted Z.le (dev_particleGridIndices d) ->
  Forall (fun g => 0 <= g < gridCellCount d) (dev_particleGridIndices d) ->
  dev_gridCellStartIndices d = repeat (-1) (Z.to_nat (gridCellCount d)) ->
  dev_gridCellEndIndices d = repeat (-1) (Z.to_nat (gridCellCount d)) ->
  exists d',
    identifyCells d = Ok d' /\
    populatedSum (dev_gridCellStartIndices d') (dev_gridCellEndIndices d')
    = numObjects d.
Proof.
  intros HN Hlen Hsorted Hin Hst Hen. unfold identifyCells.
  rewrite launch_boids;
    [| lia
     | intros; apply kernIdentifyCellStartEnd_idle; [lia | assumption]].
  rewrite Hst, Hen.
  destruct (identify_sum (numObjects d) (gridCellCount d)
              (dev_particleGridIndices d) HN Hlen Hsorted Hin)
    as (st & en & -> & Hsum).
  cbn [bind]. eexists; split; [reflexivity |]. exact Hsum.
Qed.

(** ** The sort model *)

Lemma insert_by_key_perm k v l :
  Permutation (insert_by_key k v l) ((k, v) :: l).
Proof.
  induction l as [| [k' v'] l IH]; simpl; [reflexivity |].
  destruct (k <? k'); [reflexivity |].
  rewrite IH. apply perm_swap.
Qed.

Lemma sort_pairs_perm l : Permutation (sort_pairs l) l.
Proof.
  induction l as [| [k v] l IH]; simpl; [reflexivity |].
  rewrite insert_by_key_perm. now constructor.
Qed.

Lemma insert_by_key_sorted k v l :
  Sorted keyLe l -> Sorted keyLe (insert_by_key k v l).
Proof.
  induction 1 as [| [k' v'] l Hs IH Hhd]; simpl.
  - repeat constructor.
  - destruct (Z.ltb_spec k k').
    + constructor; [constructor; assumption |].
      constructor. unfold keyLe; simpl; lia.
    + constructor; [assumption |].
      destruct l as [| [k'' v''] l]; simpl in *.
      * constructor. unfold keyLe; simpl; lia.
      * inversion Hhd; subst.
        destruct (k <? k''); constructor; unfold keyLe in *; simpl in *; lia.
Qed.

Lemma sort_pairs_sorted l : Sorted keyLe (sort_pairs l).
Proof.
  induction l as [| [k v] l IH]; simpl; [constructor |].
  now apply insert_by_key_sorted.
Qed.

(** The instance sorts the keys and permutes the values with them. *)
Lemma insertion_sort_by_key_spec keys values :
  let '(keys', values') := insertion_sort_by_key keys values in
  Sorted keyLe (combine keys' values') /\
  Permutation (combine keys' values') (combine keys values).
Proof.
  unfold insertion_sort_by_key.
  assert (E : forall l : list (Z * Z), combine (map fst l) (map snd l) = l).
  { induction l as [| [a b] l IH]; simpl; [reflexivity | now rewrite IH]. }
  rewrite E. split; [apply sort_pairs_sorted | apply sort_pairs_perm].
Qed.

(** ** Which velocity buffer each step integrates with *)

(** The brute-force step integrates with the velocities it started from:
    after the swap they are in [dev_vel2], the ones it computed in
    [dev_vel1]. *)
Lemma stepSimulationNaive_integrates_previous dt d d' :
  stepSimulationNaive dt d = Ok d' ->
  dev_vel2 d' = dev_vel1 d /\
  launch (blocksPerGrid d) (kernUpdatePos (numObjects d) dt (dev_vel2 d'))
         (dev_pos d) = Ok (dev_pos d').
Proof.
  unfold stepSimulationNaive. intros H. inv_binds. injection H as <-.
  cbn. split; [reflexivity | assumption].
Qed.

(** The scattered step integrates with the velocities its evaluator has
    just written, which the swap leaves in [dev_vel1]. *)
Lemma stepSimulationScatteredGrid_integrates_new sort dt d d' :
  stepSimulationScatteredGrid sort dt d = Ok d' ->
  launch (blocksPerGrid d) (kernUpdatePos (numObjects d) dt (dev_vel1 d'))
         (dev_pos d) = Ok (dev_pos d').
Proof.
  unfold stepSimulationScatteredGrid. intros H.
  destruct (scatteredAfterIdentify sort d) as [d4 |] eqn:E4;
    cbn [bind] in H; [| discriminate].
  apply scatteredAfterIdentify_frame in E4 as (ai & gi & st & en & ->).
  inv_binds. injection H as <-. cbn in *. assumption.
Qed.

(** The coherent step integrates the reordered copy of the positions with
    the velocities its evaluator has just written into [dev_vel1]. *)
Lemma stepSimulationCoherentGrid_integrates_new sort dt d d' :
  stepSimulationCoherentGrid sort dt d = Ok d' ->
  exists pc vc,
    launch (blocksPerGrid d)
      (kernPropogateCoherency (numObjects d) (dev_particleArrayIndices d')
         (dev_pos d) (dev_vel1 d))
      (dev_pos_co d, dev_vel_co d) = Ok (pc, vc) /\
    launch (blocksPerGrid d) (kernUpdatePos (numObjects d) dt (dev_vel1 d'))
           pc = Ok (dev_pos d').
Proof.
  unfold stepSimulationCoherentGrid. intros H.
  destruct (coherentAfterIdentify sort d) as [d4 |] eqn:E4;
    cbn [bind] in H; [| discriminate].
  apply coherentAfterIdentify_frame in E4 as (ai & gi & st & en & ->).
  destruct (launch _ (kernPropogateCoherency _ _ _ _) _) as [[pc vc] |] eqn:Ep;
    cbn [bind] in H; [| discriminate].
  inv_binds. injection H as <-. cbn in *.
  exists pc, vc. split; assumption.
Qed.

(** ** A scattered step that completes *)

Lemma stepSimulationScatteredGrid_oneBoid dt :
  stepSimulationScatteredGrid insertion_sort_by_key dt
    (oneBoid zeroTable cleanTable)
  = Ok (gridDevice 1 [vzero] [vzero] [vzero] [0] [5577]
          (-1 :: repeat 0 (Z.to_nat 10647)) cleanTable [vzero] [vzero]).
Proof.
  assert (Hlen : Z.of_nat (List.length cleanTable) = 10648)
    by (unfold cleanTable; rewrite repeat_length; reflexivity).
  assert (Hlen0 : Z.of_nat (List.length zeroTable) = 10648)
    by (unfold zeroTable; rewrite repeat_length; reflexivity).
  assert (Hreset : repeat (-1) (Z.to_nat 1) ++ skipn (Z.to_nat 1) cleanTable
                   = cleanTable)
    by (vm_compute; reflexivity).
  assert (Hreset0 : repeat (-1) (Z.to_nat 1) ++ skipn (Z.to_nat 1) zeroTable
                    = -1 :: repeat 0 (Z.to_nat 10647))
    by (vm_compute; reflexivity).
  unfold stepSimulationScatteredGrid, scatteredAfterIdentify,
    scatteredBeforeIdentify.
  rewrite computeAndSortIndices_oneBoid. cbn [bind].
  rewrite resetCellTables_eval;
    [| simpl; lia | cbn [gridDevice numObjects dev_gridCellEndIndices]; lia
     | cbn [gridDevice numObjects dev_gridCellStartIndices]; lia ].
  cbv zeta. cbn [gridDevice numObjects dev_gridCellEndIndices
                 dev_gridCellStartIndices].
  rewrite Hreset, Hreset0. cbn [bind].
  change (with_start _ _)
    with (gridDevice 1 [vzero] [vzero] [vzero] [0] [5577]
            (-1 :: repeat 0 (Z.to_nat 10647)) cleanTable [vzero] [vzero]).
  rewrite identifyCells_single.
  rewrite wr_same_value by (vm_compute; reflexivity). cbn [bind].
  rewrite launch_boids;
    [| simpl; lia
     | intros; apply kernUpdateVelNeighborSearchScattered_idle; assumption].
  cbn [gridDevice numObjects gridSideCount gridMinimum gridInverseCellWidth
       gridCellWidth dev_gridCellStartIndices dev_gridCellEndIndices
       dev_particleArrayIndices dev_pos dev_vel1 dev_vel2 dev_stdout].
  change (zrange 0 (Z.to_nat 1)) with [0]. cbn [foldM].
  rewrite (kernUpdateVelNeighborSearchScattered_alone 1 22 _ _ _ _ _ _ _ _ 0
             _ _ 0 vzero vzero);
    [| lia | reflexivity | reflexivity | reflexivity
     | rewrite neighbors_of_origin; vm_compute; reflexivity].
  rewrite restVelocity.
  change (wr [vzero] 0 vzero) with (Ok [vzero]). cbn [bind fst snd].
  rewrite launch_boids;
    [| simpl; lia | intros; apply kernUpdatePos_idle; assumption].
  cbn [with_stdout with_vel2 gridDevice numObjects dev_pos dev_vel1 dev_vel2].
  change (zrange 0 (Z.to_nat 1)) with [0]. cbn [foldM].
  rewrite (kernUpdatePos_active 1 dt [vzero] 0 [vzero] vzero vzero)
    by first [reflexivity | lia].
  rewrite integrated_at_rest
    by (unfold inDomain, scene_scale; simpl; lra).
  reflexivity.
Qed.

(** ** What the reset reaches *)

Lemma resetCellTables_keeps_cells d d' c :
  0 <= numObjects d ->
  numObjects d <= Z.of_nat (List.length (dev_gridCellEndIndices d)) ->
  numObjects d <= Z.of_nat (List.length (dev_gridCellStartIndices d)) ->
  resetCellTables d = Ok d' ->
  numObjects d <= c ->
  rd (dev_gridCellStartIndices d') c = rd (dev_gridCellStartIndices d) c /\
  rd (dev_gridCellEndIndices d') c = rd (dev_gridCellEndIndices d) c.
Proof.
  intros HN He Hs H Hc. rewrite resetCellTables_eval in H by assumption.
  injection H as <-.
  cbn [with_start with_end dev_gridCellStartIndices dev_gridCellEndIndices].
  split; apply reset_keeps_cell; lia.
Qed.

(** ** The cell identifier *)

Lemma gridIndex3Dto1D_injective x y z x' y' z' n :
  0 <= x < n -> 0 <= y < n -> 0 <= z < n ->
  0 <= x' < n -> 0 <= y' < n -> 0 <= z' < n ->
  gridIndex3Dto1D x y z n = gridIndex3Dto1D x' y' z' n ->
  x = x' /\ y = y' /\ z = z'.
Proof.
  unfold gridIndex3Dto1D. intros Hx Hy Hz Hx' Hy' Hz' H.
  assert (Hzz : z = z') by nia.
  subst z'. assert (Hyy : y = y') by nia.
  subst y'. repeat split; lia.
Qed.

Lemma flattening_in_int x y z n :
  n <= 1290 -> 0 <= x < n -> 0 <= y < n -> 0 <= z < n ->
  flattensInInt x y z n.
Proof.
  intros Hn Hx Hy Hz. unfold flattensInInt, inInt.
  change (2 ^ 31) with 2147483648.
  assert (Hyn : 0 <= y * n <= 1289 * 1290) by nia.
  assert (Hzn : 0 <= z * n <= 1289 * 1290) by nia.
  assert (Hznn : 0 <= z * n * n <= 1289 * 1290 * 1290) by nia.
  repeat split; lia.
Qed.

(** X1: on a lattice of side [n] of at most 1290 cells, the largest side
    whose cube is below 2^31, [gridIndex3Dto1D] stays within [int] and
    two cells with the same flattened identifier are the same cell. *)
Theorem X1_cell_identifier_is_injective x y z x' y' z' n :
  n <= 1290 ->
  0 <= x < n -> 0 <= y < n -> 0 <= z < n ->
  0 <= x' < n -> 0 <= y' < n -> 0 <= z' < n ->
  flattensInInt x y z n /\ flattensInInt x' y' z' n /\
  (gridIndex3Dto1D x y z n = gridIndex3Dto1D x' y' z' n ->
   x = x' /\ y = y' /\ z = z').
Proof.
  intros Hn Hx Hy Hz Hx' Hy' Hz'.
  split; [apply flattening_in_int; assumption |].
  split; [apply flattening_in_int; assumption |].
  unfold gridIndex3Dto1D. intros H.
  assert (Hzz : z = z') by nia.
  subst z'. assert (Hyy : y = y') by nia.
  subst y'. repeat split; lia.
Qed.

(** X1 at the cells (3, 21, 0) and (3, 0, 1) of the lattice of side
    22. *)
Lemma X1_cell_identifier_is_injective_witness :
  flattensInInt 3 21 0 22 /\ flattensInInt 3 0 1 22 /\
  (gridIndex3Dto1D 3 21 0 22 = gridIndex3Dto1D 3 0 1 22 ->
   3 = 3 /\ 21 = 0 /\ 0 = 1).
Proof.
  apply (X1_cell_identifier_is_injective 3 21 0 3 0 1 22); lia.
Defined.

(** ** The candidate cells, for every boid *)

Lemma filterCell_cases n a :
  (inLattice n a /\
   filterCell n a = gridIndex3Dto1D (ix a) (iy a) (iz a) n) \/
  (~ inLattice n a /\ filterCell n a = -1).
Proof.
  unfold filterCell, inLattice.
  destruct (Z.ltb_spec (ix a) 0), (Z.geb_spec (ix a) n),
    (Z.ltb_spec (iy a) 0), (Z.geb_spec (iy a) n),
    (Z.ltb_spec (iz a) 0), (Z.geb_spec (iz a) n); cbn [orb];
    first [left; split; [lia | reflexivity] | right; split; [lia | reflexivity]].
Qed.

Lemma filterCell_range n a :
  filterCell n a = -1 \/ 0 <= filterCell n a < n * n * n.
Proof.
  destruct (filterCell_cases n a) as [[Hin ->] | [_ ->]]; [right | left; reflexivity].
  destruct Hin as (Hx & Hy & Hz). apply gridIndex3Dto1D_bounds; assumption.
Qed.

(** X2: for a grid of at most 1290 cells a side and whatever the boid's
    offset, [calculateBoidNeighborCells] fills eight entries, each of
    them -1 or the identifier of a cell of the lattice, flattened within
    [int]: the evaluators never index the boundary tables outside
    [0, gridResolution^3). *)
Theorem X2_candidate_cells_are_cells spacialIndex gridResolution :
  gridResolution <= 1290 ->
  List.length (calculateBoidNeighborCells spacialIndex gridResolution)
  = 8%nat /\
  Forall (fun cell =>
            cell = -1 \/
            exists a,
              inLattice gridResolution a /\
              flattensInInt (ix a) (iy a) (iz a) gridResolution /\
              cell = gridIndex3Dto1D (ix a) (iy a) (iz a) gridResolution /\
              0 <= cell < gridResolution * gridResolution * gridResolution)
         (calculateBoidNeighborCells spacialIndex gridResolution).
Proof.
  intros Hres. unfold calculateBoidNeighborCells.
  destruct (neighborSigns spacialIndex) as [[x y] z].
  split; [reflexivity |].
  apply Forall_map, Forall_forall. intros d _.
  destruct (filterCell_cases gridResolution (iadd (to_ivec3 spacialIndex) d))
    as [[Hin ->] | [_ ->]]; [right | left; reflexivity].
  eexists. split; [exact Hin |].
  destruct Hin as (Hx & Hy & Hz).
  split; [apply flattening_in_int; assumption |].
  split; [reflexivity |].
  apply gridIndex3Dto1D_bounds; assumption.
Qed.

(** X2 at the grid of side 22 and a boid at (5.75, 5.25, 5.75) cell
    widths from the corner. *)
Lemma X2_candidate_cells_are_cells_witness :
  List.length (calculateBoidNeighborCells spacialIndex_C2 22) = 8%nat /\
  Forall (fun cell =>
            cell = -1 \/
            exists a,
              inLattice 22 a /\
              flattensInInt (ix a) (iy a) (iz a) 22 /\
              cell = gridIndex3Dto1D (ix a) (iy a) (iz a) 22 /\
              0 <= cell < 22 * 22 * 22)
         (calculateBoidNeighborCells spacialIndex_C2 22).
Proof.
  apply (X2_candidate_cells_are_cells spacialIndex_C2 22). lia.
Defined.

(** X3: the candidate cells are the boid's own cell and cells one step
    up on y, one step up on z and one step to either side on x, never a
    cell one step down on y or on z. *)
Theorem X3_candidate_cells_never_below spacialIndex gridResolution :
  Forall (fun cell =>
            exists dx dy dz,
              (dx = -1 \/ dx = 0 \/ dx = 1) /\ (dy = 0 \/ dy = 1) /\
              (dz = 0 \/ dz = 1) /\
              cell = filterCell gridResolution
                       (iadd (to_ivec3 spacialIndex) (mkivec3 dx dy dz)))
         (calculateBoidNeighborCells spacialIndex gridResolution).
Proof.
  unfold calculateBoidNeighborCells. rewrite neighborSigns_code.
  match goal with
  | |- context [if ?b then -1 else 1] => set (x := if b then -1 else 1)
  end.
  assert (Hx : x = -1 \/ x = 1)
    by (unfold x; match goal with |- context [if ?b then _ else _] =>
                    destruct b end; auto).
  cbn [neighborDiffs map].
  repeat constructor; eexists _, _, _;
    (split; [| split; [| split; [| reflexivity]]]); lia.
Qed.

Lemma NoDup_filterCell n (l : list ivec3) :
  NoDup l -> NoDup (filter (fun cell => 0 <=? cell) (map (filterCell n) l)).
Proof.
  induction 1 as [| a l Hnotin Hnd IH]; cbn [map filter]; [constructor |].
  destruct (Z.leb_spec 0 (filterCell n a)) as [Hpos | _]; [| assumption].
  constructor; [| assumption].
  intros Hin. apply filter_In in Hin as [Hin _].
  apply in_map_iff in Hin as (b & Hb & Hbl).
  destruct (filterCell_cases n a) as [[Ha Ea] | [_ Ea]]; [| lia].
  destruct (filterCell_cases n b) as [[Hb' Eb] | [_ Eb]]; [| lia].
  rewrite Ea, Eb in Hb. destruct Ha as (? & ? & ?), Hb' as (? & ? & ?).
  apply gridIndex3Dto1D_injective in Hb as (E1 & E2 & E3); try assumption.
  apply Hnotin. destruct a, b; cbn in *; subst; assumption.
Qed.

Lemma NoDup_candidates (c : ivec3) x :
  x = -1 \/ x = 1 -> NoDup (map (iadd c) (neighborDiffs x 1 1)).
Proof.
  intros Hx. cbn [neighborDiffs map]. unfold iadd; cbn [ix iy iz].
  repeat constructor; cbn [In]; intros H;
    repeat match goal with
           | H : _ \/ _ |- _ => destruct H as [H | H]
           | H : mkivec3 _ _ _ = mkivec3 _ _ _ |- _ => injection H; lia
           | H : False |- _ => destruct H
           end.
Qed.

(** X4: for a grid of at most 1290 cells a side, the valid candidate
    cells of a boid are pairwise distinct, so no sorted entry is examined
    through two candidate cells. *)
Theorem X4_candidate_cells_are_distinct spacialIndex gridResolution :
  gridResolution <= 1290 ->
  (forall a, inLattice gridResolution a ->
             flattensInInt (ix a) (iy a) (iz a) gridResolution) /\
  NoDup (filter (fun cell => 0 <=? cell)
                (calculateBoidNeighborCells spacialIndex gridResolution)).
Proof.
  intros Hres. split.
  { intros a (Hx & Hy & Hz). apply flattening_in_int; assumption. }
  unfold calculateBoidNeighborCells. rewrite neighborSigns_code.
  match goal with
  | |- context [if ?b then -1 else 1] => set (x := if b then -1 else 1)
  end.
  assert (Hx : x = -1 \/ x = 1)
    by (unfold x; match goal with |- context [if ?b then _ else _] =>
                    destruct b end; auto).
  rewrite <- (map_map (iadd (to_ivec3 spacialIndex))
                (filterCell gridResolution)).
  apply NoDup_filterCell, NoDup_candidates, Hx.
Qed.

(** X4 at the grid of side 22 and a boid at (5.75, 5.25, 5.75) cell
    widths from the corner. *)
Lemma X4_candidate_cells_are_distinct_witness :
  (forall a, inLattice 22 a -> flattensInInt (ix a) (iy a) (iz a) 22) /\
  NoDup (filter (fun cell => 0 <=? cell)
                (calculateBoidNeighborCells spacialIndex_C2 22)).
Proof.
  apply (X4_candidate_cells_are_distinct spacialIndex_C2 22). lia.
Defined.

(** ** Launches of kernels that write one slot per thread *)

Lemma foldM_total {S} (P : S -> Prop) (body : Z -> S -> result S) l :
  (forall i s, In i l -> P s -> exists s', body i s = Ok s' /\ P s') ->
  forall s, P s -> exists s', foldM body l s = Ok s' /\ P s'.
Proof.
  induction l as [| i l IH]; intros Hbody s Hs; cbn [foldM].
  - exists s; split; [reflexivity | assumption].
  - destruct (Hbody i s (or_introl eq_refl) Hs) as (s1 & -> & Hs1).
    cbn [bind]. apply IH; [| assumption].
    intros j t Hj. apply Hbody. right; assumption.
Qed.

Lemma set_nth_app_skipn {A} (l1 buf : list A) a :
  (List.length l1 < List.length buf)%nat ->
  set_nth (l1 ++ skipn (List.length l1) buf) (List.length l1) a
  = (l1 ++ [a]) ++ skipn (S (List.length l1)) buf.
Proof.
  revert buf; induction l1 as [| x l1 IH]; intros [| b buf] H;
    cbn in *; try lia.
  - reflexivity.
  - f_equal. apply IH. lia.
Qed.

Lemma rd_app_skipn {A} (l1 buf : list A) i :
  Z.of_nat (List.length l1) <= i ->
  (List.length l1 <= List.length buf)%nat ->
  rd (l1 ++ skipn (List.length l1) buf) i = rd buf i.
Proof.
  intros Hi Hl. unfold rd. destruct (Z.ltb_spec i 0); [reflexivity |].
  rewrite nth_error_app2 by lia. rewrite nth_error_skipn.
  now replace (List.length l1 + (Z.to_nat i - List.length l1))%nat
    with (Z.to_nat i) by lia.
Qed.

Lemma rd_app_prefix {A} (f : Z -> A) n (rest : list A) i :
  0 <= i < Z.of_nat n -> rd (map f (zrange 0 n) ++ rest) i = Ok (f i).
Proof.
  intros Hi. unfold rd. destruct (Z.ltb_spec i 0); [lia |].
  rewrite nth_error_app1 by (unfold zrange; rewrite !length_map, length_seq; lia).
  unfold zrange. rewrite !nth_error_map, nth_error_seq.
  destruct (Nat.ltb_spec (Z.to_nat i) n); [| lia]. cbn.
  do 2 f_equal. lia.
Qed.

Lemma length_zrange lo n : List.length (zrange lo n) = n.
Proof. unfold zrange. now rewrite length_map, length_seq. Qed.

(** Threads [0 .. n-1] that each store [f i] in slot [i], and read of
    the buffer nothing but their own slot, leave [f 0 .. f (n-1)] followed
    by the rest of the buffer. *)
Lemma foldM_pointwise {A} (f : Z -> A) (body : Z -> list A -> result (list A))
    (buf0 : list A) n :
  (n <= List.length buf0)%nat ->
  (forall i buf, 0 <= i < Z.of_nat n ->
                 List.length buf = List.length buf0 ->
                 rd buf i = rd buf0 i ->
                 body i buf = wr buf i (f i)) ->
  foldM body (zrange 0 n) buf0 = Ok (map f (zrange 0 n) ++ skipn n buf0).
Proof.
  intros Hn Hbody.
  assert (G : forall m, (m <= n)%nat ->
            foldM body (zrange 0 m) buf0
            = Ok (map f (zrange 0 m) ++ skipn m buf0)).
  { induction m as [| m IH]; intros Hm; [reflexivity |].
    replace (S m) with (m + 1)%nat by lia.
    rewrite zrange_app, foldM_app, IH by lia. cbn [bind].
    change (zrange (0 + Z.of_nat m) 1) with [0 + Z.of_nat m + Z.of_nat 0].
    replace (0 + Z.of_nat m + Z.of_nat 0) with (Z.of_nat m) by lia.
    cbn [foldM].
    assert (Hlen : List.length (map f (zrange 0 m)) = m)
      by (now rewrite length_map, length_zrange).
    assert (Hlen' : List.length (map f (zrange 0 m) ++ skipn m buf0)
                    = List.length buf0)
      by (rewrite length_app, Hlen, length_skipn; lia).
    rewrite Hbody; [| lia | assumption |].
    - rewrite wr_Ok by lia. cbn [bind].
      replace (Z.to_nat (Z.of_nat m)) with m by lia.
      rewrite <- Hlen at 2 3. rewrite set_nth_app_skipn by lia.
      rewrite Hlen, map_app. cbn [map].
      now replace (m + 1)%nat with (S m) by lia.
    - rewrite <- Hlen at 2. apply rd_app_skipn; lia. }
  apply G; lia.
Qed.

(** The same for kernels that also carry the standard output and leave it
    alone. *)
Lemma foldM_pointwise_out {A O} (f : Z -> A)
    (body : Z -> list A * O -> result (list A * O))
    (buf0 : list A) (out : O) n :
  (n <= List.length buf0)%nat ->
  (forall i buf, 0 <= i < Z.of_nat n ->
                 List.length buf = List.length buf0 ->
                 body i (buf, out) = (b <- wr buf i (f i) ;; Ok (b, out))) ->
  foldM body (zrange 0 n) (buf0, out)
  = Ok (map f (zrange 0 n) ++ skipn n buf0, out).
Proof.
  intros Hn Hbody.
  assert (G : forall m, (m <= n)%nat ->
            foldM body (zrange 0 m) (buf0, out)
            = Ok (map f (zrange 0 m) ++ skipn m buf0, out)).
  { induction m as [| m IH]; intros Hm; [reflexivity |].
    replace (S m) with (m + 1)%nat by lia.
    rewrite zrange_app, foldM_app, IH by lia. cbn [bind].
    change (zrange (0 + Z.of_nat m) 1) with [0 + Z.of_nat m + Z.of_nat 0].
    replace (0 + Z.of_nat m + Z.of_nat 0) with (Z.of_nat m) by lia.
    cbn [foldM].
    assert (Hlen : List.length (map f (zrange 0 m)) = m)
      by (now rewrite length_map, length_zrange).
    assert (Hlen' : List.length (map f (zrange 0 m) ++ skipn m buf0)
                    = List.length buf0)
      by (rewrite length_app, Hlen, length_skipn; lia).
    rewrite Hbody; [| lia | assumption].
    rewrite wr_Ok by lia. cbn [bind].
    replace (Z.to_nat (Z.of_nat m)) with m by lia.
    rewrite <- Hlen at 2 3. rewrite set_nth_app_skipn by lia.
    rewrite Hlen, map_app. cbn [map].
    now replace (m + 1)%nat with (S m) by lia. }
  apply G; lia.
Qed.

Lemma length_pointwise {A} (f : Z -> A) n (buf : list A) :
  (n <= List.length buf)%nat ->
  List.length (map f (zrange 0 n) ++ skipn n buf) = List.length buf.
Proof.
  intros H. rewrite length_app, length_map, length_zrange, length_skipn. lia.
Qed.


(** ** The integrator, launched *)

Lemma launch_kernUpdatePos blocks N dt vel pos :
  0 <= N <= blocks * blockSize ->
  N <= Z.of_nat (List.length pos) -> N <= Z.of_nat (List.length vel) ->
  launch blocks (kernUpdatePos N dt vel) pos
  = Ok (map (fun i => integrated (posOf pos i) (velOf vel i) dt)
            (zrange 0 (Z.to_nat N))
        ++ skipn (Z.to_nat N) pos).
Proof.
  intros HN Hp Hv.
  rewrite (launch_guarded _ blocks N) by
    (try assumption; intros; apply kernUpdatePos_idle; assumption).
  apply foldM_pointwise; [lia |].
  intros i buf Hi Hlen Hrd.
  apply kernUpdatePos_active; [lia | |].
  - rewrite Hrd. apply rd_nth. lia.
  - apply rd_nth. lia.
Qed.



(** ** The brute-force evaluator, launched *)

Lemma launch_kernUpdateVelocityBruteForce blocks N pos vel1 vel2 out :
  0 <= N <= blocks * blockSize ->
  Z.of_nat (List.length pos) = N -> Z.of_nat (List.length vel1) = N ->
  N <= Z.of_nat (List.length vel2) ->
  launch blocks (kernUpdateVelocityBruteForce N pos vel1) (vel2, out)
  = Ok (map (fun i => limitSpeed (ruleVelocity_spec N pos vel1 i))
            (zrange 0 (Z.to_nat N))
        ++ skipn (Z.to_nat N) vel2, out).
Proof.
  intros HN Hp Hv Hv2.
  rewrite (launch_guarded _ blocks N) by
    (try assumption; intros i [b o] Hi;
     apply kernUpdateVelocityBruteForce_idle; assumption).
  apply foldM_pointwise_out; [lia |].
  intros i buf Hi Hlen.
  rewrite kernUpdateVelocityBruteForce_spec by lia.
  rewrite wr_Ok by lia. reflexivity.
Qed.



(** ** The brute-force step on allocated buffers *)

Lemma stepSimulationNaive_allocated dt d :
  allocated d ->
  stepSimulationNaive dt d
  = Ok (with_vel2
          (with_vel1
             (with_pos d
                (map (fun i => integrated (posOf (dev_pos d) i)
                                          (velOf (dev_vel1 d) i) dt)
                     (zrange 0 (Z.to_nat (numObjects d)))
                 ++ skipn (Z.to_nat (numObjects d)) (dev_pos d)))
             (map (fun i => limitSpeed
                              (ruleVelocity_spec (numObjects d) (dev_pos d)
                                 (dev_vel1 d) i))
                  (zrange 0 (Z.to_nat (numObjects d)))
              ++ skipn (Z.to_nat (numObjects d)) (dev_vel2 d)))
          (dev_vel1 d)).
Proof.
  intros (HN & Hp & Hv1 & Hv2 & _).
  pose proof (blocks_cover (numObjects d) HN) as Hcover.
  unfold stepSimulationNaive.
  rewrite launch_kernUpdateVelocityBruteForce by (unfold blocksPerGrid; lia).
  cbn [bind fst snd].
  change (blocksPerGrid (with_stdout _ _)) with (blocksPerGrid d).
  cbn [with_stdout with_vel2 numObjects dev_vel1 dev_pos].
  rewrite launch_kernUpdatePos by (unfold blocksPerGrid; lia).
  cbn [bind]. destruct d; reflexivity.
Qed.

(** X7: on buffers allocated for [numObjects] boids the brute-force step
    completes without leaving any buffer, and keeps the allocation.  It
    leaves in [dev_vel1] the limited rule velocity of every boid, in
    [dev_vel2] the velocities it started from, and in [dev_pos] every
    position moved by [dt] times the velocity the boid had before the
    step. *)
Theorem X7_brute_force_step dt d :
  allocated d ->
  exists d',
    stepSimulationNaive dt d = Ok d' /\
    allocated d' /\
    dev_vel2 d' = dev_vel1 d /\
    forall i, 0 <= i < numObjects d ->
      rd (dev_vel1 d') i
      = Ok (limitSpeed
              (ruleVelocity_spec (numObjects d) (dev_pos d) (dev_vel1 d) i)) /\
      rd (dev_pos d') i
      = Ok (integrated (posOf (dev_pos d) i) (velOf (dev_vel1 d) i) dt).
Proof.
  intros Hd. rewrite (stepSimulationNaive_allocated dt d Hd).
  destruct Hd as (HN & Hp & Hv1 & Hv2 & Hai & Hgi & Hst & Hen & Hpc & Hvc).
  eexists. split; [reflexivity |]. split; [| split; [reflexivity |]].
  - unfold allocated.
    cbn [with_vel2 with_vel1 with_pos numObjects dev_pos dev_vel1 dev_vel2
         dev_particleArrayIndices dev_particleGridIndices
         dev_gridCellStartIndices dev_gridCellEndIndices dev_pos_co
         dev_vel_co gridCellCount].
    rewrite !length_pointwise by lia. repeat split; assumption.
  - intros i Hi.
    cbn [with_vel2 with_vel1 with_pos dev_pos dev_vel1]. split.
    + apply (rd_app_prefix
               (fun i => limitSpeed
                           (ruleVelocity_spec (numObjects d) (dev_pos d)
                              (dev_vel1 d) i))). lia.
    + apply (rd_app_prefix
               (fun i => integrated (posOf (dev_pos d) i)
                                    (velOf (dev_vel1 d) i) dt)). lia.
Qed.

Lemma allocated_twoBoidsAtRest : allocated twoBoidsAtRest.
Proof.
  unfold allocated, twoBoidsAtRest, gridDevice, cleanTable.
  cbn [numObjects dev_pos dev_vel1 dev_vel2 dev_particleArrayIndices
       dev_particleGridIndices dev_gridCellStartIndices
       dev_gridCellEndIndices dev_pos_co dev_vel_co gridCellCount].
  rewrite !repeat_length. repeat split; reflexivity || lia.
Qed.

(** X7 at the two boids at rest, [dt = 1]. *)
Lemma X7_brute_force_step_witness :
  exists d',
    stepSimulationNaive 1 twoBoidsAtRest = Ok d' /\
    allocated d' /\
    dev_vel2 d' = dev_vel1 twoBoidsAtRest /\
    forall i, 0 <= i < numObjects twoBoidsAtRest ->
      rd (dev_vel1 d') i
      = Ok (limitSpeed
              (ruleVelocity_spec (numObjects twoBoidsAtRest)
                 (dev_pos twoBoidsAtRest) (dev_vel1 twoBoidsAtRest) i)) /\
      rd (dev_pos d') i
      = Ok (integrated (posOf (dev_pos twoBoidsAtRest) i)
                       (velOf (dev_vel1 twoBoidsAtRest) i) 1).
Proof.
  apply (X7_brute_force_step 1 twoBoidsAtRest).
  apply allocated_twoBoidsAtRest.
Defined.

(** ** What every completed step guarantees *)

Lemma launch_kernUpdatePos_inDomain blocks N dt vel pos pos' i p :
  launch blocks (kernUpdatePos N dt vel) pos = Ok pos' ->
  0 <= i < N -> i < blocks * blockSize ->
  rd pos' i = Ok p -> inDomain p.
Proof.
  intros H Hi Hb.
  revert p.
  apply (foldM_slots (kernUpdatePos N dt vel)
           (fun i s => i < N -> forall p, rd s i = Ok p -> inDomain p)
           (threadIds blocks)) with (s := pos) (s' := pos');
    try assumption.
  - apply NoDup_zrange.
  - clear. intros i s s' _ Hbody HiN p Hp.
    unfold kernUpdatePos in Hbody.
    destruct (Z.geb_spec i N); [lia |].
    inv_bind Hbody.
    rewrite (rd_wr_same _ _ _ _ Hbody) in Hp. injection Hp as <-.
    match goal with
    | Hp : rd s i = Ok ?p, Hv : rd vel i = Ok ?v |- _ =>
        apply (integrated_in_domain p v dt)
    end.
  - clear. intros i j s s' Hij Hbody HR HiN p Hp.
    apply HR; [assumption |].
    unfold kernUpdatePos in Hbody.
    destruct (Z.geb_spec j N); [injection Hbody as <-; assumption |].
    inv_bind Hbody.
    rewrite <- (rd_wr_other _ _ _ _ _ Hbody) by congruence. assumption.
  - apply in_zrange. lia.
  - lia.
Qed.

(** X8: whichever strategy is used, whatever the time step and whatever
    the sort returns, a step that completes leaves every boid inside the
    domain: each coordinate of each of the [numObjects] positions is
    between [-scene_scale] and [scene_scale]. *)
Theorem X8_step_keeps_boids_in_domain sort strategy dt d d' i p :
  step sort strategy dt d = Ok d' ->
  0 <= i < numObjects d ->
  rd (dev_pos d') i = Ok p ->
  inDomain p.
Proof.
  intros H Hi Hp.
  assert (Hcover : numObjects d <= blocksPerGrid d * blockSize)
    by (apply blocks_cover; lia).
  destruct strategy; cbn [step] in H.
  - apply stepSimulationNaive_integrates_previous in H as [_ H].
    eapply launch_kernUpdatePos_inDomain; try eassumption. lia.
  - apply stepSimulationScatteredGrid_integrates_new in H.
    eapply launch_kernUpdatePos_inDomain; try eassumption. lia.
  - apply stepSimulationCoherentGrid_integrates_new in H
      as (pc & vc & _ & H).
    eapply launch_kernUpdatePos_inDomain; try eassumption. lia.
Qed.

(** X8 at the scattered step of a single boid, slot 0. *)
Lemma X8_step_keeps_boids_in_domain_witness : inDomain vzero.
Proof.
  apply (X8_step_keeps_boids_in_domain insertion_sort_by_key ScatteredGrid 1
           (oneBoid zeroTable cleanTable)
           (gridDevice 1 [vzero] [vzero] [vzero] [0] [5577]
              (-1 :: repeat 0 (Z.to_nat 10647)) cleanTable [vzero] [vzero])
           0 vzero).
  - apply stepSimulationScatteredGrid_oneBoid.
  - cbn. lia.
  - reflexivity.
Defined.

(** *** The velocity each thread stores *)

Lemma kernUpdateVelocityBruteForce_inv N pos vel1 i vel2 out vel2' out' :
  kernUpdateVelocityBruteForce N pos vel1 i (vel2, out) = Ok (vel2', out') ->
  i < N ->
  exists w, bruteForceVelocity N pos vel1 i = Ok w /\ wr vel2 i w = Ok vel2'.
Proof.
  unfold kernUpdateVelocityBruteForce, bruteForceVelocity. intros H Hi.
  destruct (Z.geb_spec i N); [lia |].
  destruct (computeVelocityChange N i pos vel1) as [dv |];
    cbn [bind] in *; [| discriminate].
  destruct (rd vel1 i) as [v |]; cbn [bind] in *; [| discriminate].
  inv_bind H. injection H as <- _.
  eexists; split; [reflexivity | assumption].
Qed.

Lemma storeVelocity_stores linearIndex currentPos vel1 a vel2 out vel2' out' :
  storeVelocity linearIndex currentPos vel1 a (vel2, out) = Ok (vel2', out') ->
  exists v,
    rd vel1 linearIndex = Ok v /\
    wr vel2 linearIndex (limitSpeed (vadd (combineRules currentPos a) v))
    = Ok vel2'.
Proof.
  unfold storeVelocity. intros H. inv_bind H.
  injection H as <- _. eexists; split; [reflexivity | eassumption].
Qed.

Lemma kernUpdateVelNeighborSearchScattered_inv
    N res gmin inv w st en idx pos vel1 index vel2 out vel2' out' :
  kernUpdateVelNeighborSearchScattered N res gmin inv w st en idx pos vel1
    index (vel2, out) = Ok (vel2', out') ->
  index < N ->
  exists li u, rd idx index = Ok li /\
               gridVelocity 1 (rd idx) res gmin inv st en pos vel1 li = Ok u /\
               wr vel2 li u = Ok vel2'.
Proof.
  unfold kernUpdateVelNeighborSearchScattered. intros H Hi.
  destruct (Z.geb_spec index N); [lia |].
  destruct (rd idx index) as [li |]; cbn [bind] in H; [| discriminate].
  destruct (rd pos li) as [p |] eqn:Ep; cbn [bind] in H; [| discriminate].
  destruct (foldM _ _ accum0) as [a |] eqn:Ea; cbn [bind] in H;
    [| discriminate].
  apply storeVelocity_stores in H as (v & Hv & Hw).
  exists li, (limitSpeed (vadd (combineRules p a) v)).
  split; [reflexivity |]. split; [| exact Hw].
  unfold gridVelocity. rewrite Ep. cbn [bind]. rewrite Ea. cbn [bind].
  rewrite Hv. reflexivity.
Qed.

Lemma kernUpdateVelNeighborSearchCoherent_inv
    N res gmin inv w st en pos vel1 i vel2 out vel2' out' :
  kernUpdateVelNeighborSearchCoherent N res gmin inv w st en pos vel1
    i (vel2, out) = Ok (vel2', out') ->
  i < N ->
  exists u, gridVelocity 0 Ok res gmin inv st en pos vel1 i = Ok u /\
            wr vel2 i u = Ok vel2'.
Proof.
  unfold kernUpdateVelNeighborSearchCoherent. intros H Hi.
  destruct (Z.geb_spec i N); [lia |].
  destruct (rd pos i) as [p |] eqn:Ep; cbn [bind] in H; [| discriminate].
  destruct (foldM _ _ accum0) as [a |] eqn:Ea; cbn [bind] in H;
    [| discriminate].
  apply storeVelocity_stores in H as (v & Hv & Hw).
  exists (limitSpeed (vadd (combineRules p a) v)).
  split; [| exact Hw].
  unfold gridVelocity. rewrite Ep. cbn [bind]. rewrite Ea. cbn [bind].
  rewrite Hv. reflexivity.
Qed.

(** A launch of threads that each store one velocity, thread [i] in a
    slot [k] with [slot i k], the velocity being a value for the slot:
    after the launch the slot of every thread holds a value for it. *)
Lemma launch_stores (body : Z -> velOut -> result velOut)
    (slot : Z -> Z -> Prop) (val : Z -> vec3 -> Prop)
    blocks N vel2 out vel2' out' :
  (forall i v o v' o', body i (v, o) = Ok (v', o') -> i < N ->
     exists k u, slot i k /\ val k u /\ wr v k u = Ok v') ->
  (forall i s, N <= i -> body i s = Ok s) ->
  launch blocks body (vel2, out) = Ok (vel2', out') ->
  forall i, 0 <= i < N -> i < blocks * blockSize ->
    exists k u, slot i k /\ val k u /\ rd vel2' k = Ok u.
Proof.
  intros Hact Hidle H i Hi Hb.
  apply (foldM_slots body
           (fun i (s : velOut) =>
              i < N -> exists k u, slot i k /\ val k u /\
                                   rd (fst s) k = Ok u)
           (threadIds blocks)) with (s := (vel2, out)) (s' := (vel2', out'));
    try assumption.
  - apply NoDup_zrange.
  - intros j [v o] [v' o'] _ Hbody HjN.
    destruct (Hact _ _ _ _ _ Hbody HjN) as (k & u & Hk & Hu & Hw).
    exists k, u. split; [assumption |]. split; [assumption |].
    apply (rd_wr_same _ _ _ _ Hw).
  - intros j j' [v o] [v' o'] Hjj Hbody HR HjN.
    destruct (HR HjN) as (k & x & Hk & Hx & Hrd). cbn [fst] in *.
    destruct (Z.ltb_spec j' N) as [Hj' | Hj'].
    + destruct (Hact _ _ _ _ _ Hbody Hj') as (k' & u & _ & Hu & Hw).
      destruct (Z.eq_dec k' k) as [-> | Hne].
      * exists k, u. split; [assumption |]. split; [assumption |].
        apply (rd_wr_same _ _ _ _ Hw).
      * exists k, x. split; [assumption |]. split; [assumption |].
        rewrite (rd_wr_other _ _ _ _ _ Hw) by congruence. assumption.
    + rewrite (Hidle _ _ Hj') in Hbody. injection Hbody as <- <-.
      exists k, x. auto.
  - apply in_zrange. lia.
  - lia.
Qed.

(** X9: after a step that completes, the slot of [dev_vel1] that a
    thread of the evaluator has written holds the velocity that this
    thread computes from the state before the step, whatever the other
    threads have stored.  The brute-force thread [i] computes it from
    [dev_pos] and the old [dev_vel1] and leaves it in slot [i]; the
    scattered thread [i] computes it for the boid
    [b = dev_particleArrayIndices[i]], from the same buffers and the
    boundary tables the step has built, and leaves it in slot [b]; the
    coherent thread [i] computes it from the reordered copies, of which
    the velocities are left in [dev_vel2], and leaves it in slot [i]. *)
Theorem X9_step_stores_thread_velocities sort strategy dt d d' :
  step sort strategy dt d = Ok d' ->
  0 <= numObjects d ->
  forall i, 0 <= i < numObjects d ->
    match strategy with
    | BruteForce =>
        exists w,
          bruteForceVelocity (numObjects d) (dev_pos d) (dev_vel1 d) i
          = Ok w /\
          rd (dev_vel1 d') i = Ok w
    | ScatteredGrid =>
        exists b w,
          rd (dev_particleArrayIndices d') i = Ok b /\
          gridVelocity 1 (rd (dev_particleArrayIndices d'))
            (gridSideCount d) (gridMinimum d) (gridInverseCellWidth d)
            (dev_gridCellStartIndices d') (dev_gridCellEndIndices d')
            (dev_pos d) (dev_vel1 d) b = Ok w /\
          rd (dev_vel1 d') b = Ok w
    | CoherentGrid =>
        exists pc w,
          launch (blocksPerGrid d)
            (kernPropogateCoherency (numObjects d)
               (dev_particleArrayIndices d') (dev_pos d) (dev_vel1 d))
            (dev_pos_co d, dev_vel_co d) = Ok (pc, dev_vel2 d') /\
          gridVelocity 0 Ok
            (gridSideCount d) (gridMinimum d) (gridInverseCellWidth d)
            (dev_gridCellStartIndices d') (dev_gridCellEndIndices d')
            pc (dev_vel2 d') i = Ok w /\
          rd (dev_vel1 d') i = Ok w
    end.
Proof.
  intros H HN i Hi.
  assert (Hcover : numObjects d <= blocksPerGrid d * blockSize)
    by (apply blocks_cover; lia).
  destruct strategy; cbn [step] in H.
  - unfold stepSimulationNaive in H.
    destruct (launch _ (kernUpdateVelocityBruteForce _ _ _) _)
      as [[v2 o2] |] eqn:E; cbn [bind] in H; [| discriminate].
    inv_binds. injection H as <-. cbn.
    apply (launch_stores _ (fun i k => k = i)
             (fun k u => bruteForceVelocity (numObjects d) (dev_pos d)
                           (dev_vel1 d) k = Ok u)
             _ (numObjects d) _ _ _ _) with (i := i) in E;
      [destruct E as (k & u & -> & Hu & Hrd); exists u; auto | | | lia | lia].
    + intros j v o v' o' Hb Hj.
      apply kernUpdateVelocityBruteForce_inv in Hb as (u & Hu & Hw);
        [| assumption].
      exists j, u; auto.
    + intros j [v o] Hj. apply kernUpdateVelocityBruteForce_idle; assumption.
  - unfold stepSimulationScatteredGrid in H.
    destruct (scatteredAfterIdentify sort d) as [d4 |] eqn:E4;
      cbn [bind] in H; [| discriminate].
    apply scatteredAfterIdentify_frame in E4 as (ai & gi & st & en & ->).
    destruct (launch _ (kernUpdateVelNeighborSearchScattered
                          _ _ _ _ _ _ _ _ _ _) _)
      as [[v2 o2] |] eqn:E; cbn [bind] in H; [| discriminate].
    inv_binds. injection H as <-.
    cbn [with_grid with_indices with_start with_end with_vel1 with_vel2
         with_pos with_stdout numObjects dev_pos dev_vel1 dev_vel2
         dev_particleArrayIndices dev_gridCellStartIndices
         dev_gridCellEndIndices gridSideCount gridMinimum
         gridInverseCellWidth gridCellWidth dev_stdout fst snd] in *.
    apply (launch_stores _ (fun i k => rd ai i = Ok k)
             (fun k u => gridVelocity 1 (rd ai) (gridSideCount d)
                           (gridMinimum d) (gridInverseCellWidth d) st en
                           (dev_pos d) (dev_vel1 d) k = Ok u)
             _ (numObjects d) _ _ _ _) with (i := i) in E;
      [destruct E as (k & u & Hk & Hu & Hrd); exists k, u; auto | | | lia |].
    + intros j v o v' o' Hb Hj.
      apply kernUpdateVelNeighborSearchScattered_inv in Hb
        as (li & u & Hli & Hu & Hw); [| assumption].
      exists li, u; auto.
    + intros j [v o] Hj.
      apply kernUpdateVelNeighborSearchScattered_idle; assumption.
    + change (blocksPerGrid (with_grid d ai gi st en))
        with (blocksPerGrid d). lia.
  - unfold stepSimulationCoherentGrid in H.
    destruct (coherentAfterIdentify sort d) as [d4 |] eqn:E4;
      cbn [bind] in H; [| discriminate].
    apply coherentAfterIdentify_frame in E4 as (ai & gi & st & en & ->).
    destruct (launch _ (kernPropogateCoherency _ _ _ _) _)
      as [[pc vc] |] eqn:Ep; cbn [bind] in H; [| discriminate].
    destruct (launch _ (kernUpdateVelNeighborSearchCoherent
                          _ _ _ _ _ _ _ _ _) _)
      as [[v2 o2] |] eqn:E; cbn [bind] in H; [| discriminate].
    inv_binds. injection H as <-.
    cbn [with_grid with_indices with_start with_end with_vel1 with_vel2
         with_pos with_co with_stdout numObjects dev_pos dev_vel1 dev_vel2
         dev_pos_co dev_vel_co
         dev_particleArrayIndices dev_gridCellStartIndices
         dev_gridCellEndIndices gridSideCount gridMinimum
         gridInverseCellWidth gridCellWidth dev_stdout fst snd] in *.
    change (blocksPerGrid (with_grid d ai gi st en))
      with (blocksPerGrid d) in *.
    exists pc. 
    apply (launch_stores _ (fun i k => k = i)
             (fun k u => gridVelocity 0 Ok (gridSideCount d)
                           (gridMinimum d) (gridInverseCellWidth d) st en
                           pc vc k = Ok u)
             _ (numObjects d) _ _ _ _) with (i := i) in E;
      [destruct E as (k & u & -> & Hu & Hrd); exists u; auto | | | lia |].
    + intros j v o v' o' Hb Hj.
      apply kernUpdateVelNeighborSearchCoherent_inv in Hb as (u & Hu & Hw);
        [| assumption].
      exists j, u; auto.
    + intros j [v o] Hj.
      apply kernUpdateVelNeighborSearchCoherent_idle; assumption.
    + match goal with
      | |- _ < blocksPerGrid ?x * _ =>
          change (blocksPerGrid x) with (blocksPerGrid d)
      end. lia.
Qed.

(** X9 at the coherent step of the two boids stored against the cell
    order. *)
Lemma X9_step_stores_thread_velocities_witness :
  let d := twoBoidsSwapped cleanTable cleanTable in
  exists d',
    stepSimulationCoherentGrid insertion_sort_by_key 0 d = Ok d' /\
    forall i, 0 <= i < 2 ->
      exists pc w,
        launch (blocksPerGrid d)
          (kernPropogateCoherency 2 (dev_particleArrayIndices d')
             (dev_pos d) (dev_vel1 d))
          (dev_pos_co d, dev_vel_co d) = Ok (pc, dev_vel2 d') /\
        gridVelocity 0 Ok 22 (mkvec3 (-110) (-110) (-110)) (1 / 10)
          (dev_gridCellStartIndices d') (dev_gridCellEndIndices d')
          pc (dev_vel2 d') i = Ok w /\
        rd (dev_vel1 d') i = Ok w.
Proof.
  intros d. eexists. split; [apply stepSimulationCoherentGrid_swapped |].
  apply (X9_step_stores_thread_velocities insertion_sort_by_key
           CoherentGrid 0 d).
  - apply stepSimulationCoherentGrid_swapped.
  - cbn. lia.
Defined.

(** ** The reset of the boundary tables, in general *)

Lemma foldM_fails {S} (P : S -> Prop) (body : Z -> S -> result S) i l :
  In i l ->
  (forall s, P s -> body i s = OutOfBounds) ->
  (forall j s s', body j s = Ok s' -> P s -> P s') ->
  forall s, P s -> foldM body l s = OutOfBounds.
Proof.
  intros Hi Hfail Hinv.
  induction l as [| j l IH]; intros s Hs; [destruct Hi |].
  cbn [foldM].
  destruct (body j s) as [s1 |] eqn:E; [| reflexivity]. cbn [bind].
  destruct Hi as [-> | Hi].
  - rewrite (Hfail s Hs) in E. discriminate.
  - apply IH; [assumption |]. eapply Hinv; eassumption.
Qed.

Lemma wr_beyond {A} (buf : list A) i a :
  Z.of_nat (List.length buf) <= i -> wr buf i a = OutOfBounds.
Proof.
  intros H. unfold wr.
  destruct (Z.leb_spec (Z.of_nat (List.length buf)) i); [| lia].
  now rewrite orb_true_r.
Qed.

Lemma reset_launch_overflow blocks N v buf :
  Z.of_nat (List.length buf) < N -> N <= blocks * blockSize ->
  launch blocks (kernResetIntBuffer N v) buf = OutOfBounds.
Proof.
  intros Hlen Hb. unfold launch.
  apply (foldM_fails (fun s => List.length s = List.length buf) _
           (Z.of_nat (List.length buf))).
  - apply in_zrange. lia.
  - intros s Hs. unfold kernResetIntBuffer.
    destruct (Z.ltb_spec (Z.of_nat (List.length buf)) N); [| lia].
    apply wr_beyond. lia.
  - intros j s s' Hbody Hs. unfold kernResetIntBuffer in Hbody.
    destruct (j <? N).
    + apply wr_length in Hbody. congruence.
    + injection Hbody as <-. assumption.
  - reflexivity.
Qed.

Lemma resetCellTables_overflow d :
  Z.of_nat (List.length (dev_gridCellStartIndices d)) < numObjects d \/
  Z.of_nat (List.length (dev_gridCellEndIndices d)) < numObjects d ->
  resetCellTables d = OutOfBounds.
Proof.
  intros H.
  assert (HN : 0 <= numObjects d) by lia.
  pose proof (blocks_cover _ HN) as Hcover.
  unfold resetCellTables.
  destruct (launch _ _ (dev_gridCellEndIndices d)) as [e |] eqn:E;
    [| reflexivity].
  cbn [bind].
  destruct H as [H | H].
  - rewrite reset_launch_overflow; [reflexivity | exact H | exact Hcover].
  - rewrite reset_launch_overflow in E by assumption. discriminate.
Qed.

(** X10: the grid steps clear the first [numObjects] entries of the two
    boundary tables, whose length is the number of cells.  When there are
    more boids than entries in either table, the scattered and the
    coherent step both stop with an access beyond the table, whatever
    the positions, the time step and the sort. *)
Theorem X10_grid_steps_need_a_cell_per_boid sort strategy dt d :
  Z.of_nat (List.length (dev_gridCellStartIndices d)) < numObjects d \/
  Z.of_nat (List.length (dev_gridCellEndIndices d)) < numObjects d ->
  strategy <> BruteForce ->
  step sort strategy dt d = OutOfBounds.
Proof.
  intros H Hs. destruct strategy; [contradiction | |]; cbn [step].
  - unfold stepSimulationScatteredGrid, scatteredAfterIdentify,
      scatteredBeforeIdentify.
    destruct (computeAndSortIndices sort d) as [d1 |] eqn:E; [| reflexivity].
    apply computeAndSortIndices_frame in E as (o & ->).
    cbn [bind]. rewrite resetCellTables_overflow; [reflexivity | exact H].
  - unfold stepSimulationCoherentGrid, coherentAfterIdentify,
      coherentBeforeIdentify.
    rewrite resetCellTables_overflow by exact H. reflexivity.
Qed.

(** X10 at two boids over tables of a single cell, coherent step. *)
Lemma X10_grid_steps_need_a_cell_per_boid_witness :
  step insertion_sort_by_key CoherentGrid 1
    (gridDevice 2 posRest velRest velRest [0; 0] [0; 0] [-1] [-1]
       [vzero; vzero] [vzero; vzero])
  = OutOfBounds.
Proof.
  apply (X10_grid_steps_need_a_cell_per_boid insertion_sort_by_key
           CoherentGrid 1
           (gridDevice 2 posRest velRest velRest [0; 0] [0; 0] [-1] [-1]
              [vzero; vzero] [vzero; vzero])).
  - left. cbn. lia.
  - discriminate.
Defined.

(** X11: on tables that have an entry for each boid, the two launches of
    [kernResetIntBuffer] complete; they set the entries below
    [numObjects] to -1 and leave every entry from [numObjects] on, however
    many cells the tables have, as it was. *)
Theorem X11_reset_clears_a_prefix d :
  0 <= numObjects d ->
  numObjects d <= Z.of_nat (List.length (dev_gridCellStartIndices d)) ->
  numObjects d <= Z.of_nat (List.length (dev_gridCellEndIndices d)) ->
  exists d',
    resetCellTables d = Ok d' /\
    (forall c, 0 <= c < numObjects d ->
       rd (dev_gridCellStartIndices d') c = Ok (-1) /\
       rd (dev_gridCellEndIndices d') c = Ok (-1)) /\
    (forall c, numObjects d <= c ->
       rd (dev_gridCellStartIndices d') c = rd (dev_gridCellStartIndices d) c /\
       rd (dev_gridCellEndIndices d') c = rd (dev_gridCellEndIndices d) c).
Proof.
  intros HN Hs He.
  pose proof (resetCellTables_eval d HN He Hs) as Heval. cbv zeta in Heval.
  eexists. split; [exact Heval |].
  cbn [with_start with_end dev_gridCellStartIndices dev_gridCellEndIndices].
  assert (Hpre : forall (buf : list Z) c,
             0 <= c < numObjects d ->
             rd (repeat (-1) (Z.to_nat (numObjects d))
                 ++ skipn (Z.to_nat (numObjects d)) buf) c = Ok (-1)).
  { intros buf c Hc. unfold rd. destruct (Z.ltb_spec c 0); [lia |].
    rewrite nth_error_app1 by (rewrite repeat_length; lia).
    rewrite nth_error_repeat by lia. reflexivity. }
  split.
  - intros c Hc. split; apply Hpre; assumption.
  - intros c Hc. split; apply reset_keeps_cell; lia.
Qed.

(** X11 at one boid over tables of three cells holding 7. *)
Lemma X11_reset_clears_a_prefix_witness :
  exists d',
    resetCellTables (oneBoid [7; 7; 7] [7; 7; 7]) = Ok d' /\
    (forall c, 0 <= c < 1 ->
       rd (dev_gridCellStartIndices d') c = Ok (-1) /\
       rd (dev_gridCellEndIndices d') c = Ok (-1)) /\
    (forall c, 1 <= c ->
       rd (dev_gridCellStartIndices d') c = rd [7; 7; 7] c /\
       rd (dev_gridCellEndIndices d') c = rd [7; 7; 7] c).
Proof.
  apply (X11_reset_clears_a_prefix (oneBoid [7; 7; 7] [7; 7; 7]));
    cbn; lia.
Defined.

(** ** The boundary tables, cell by cell *)

Section IdentifyRanges.
Variables (N M : Z) (cells st0 en0 : list Z).
Hypothesis N_ge_2 : 2 <= N.
Hypothesis cells_length : Z.of_nat (List.length cells) = N.
Hypothesis cells_sorted : Sorted Z.le cells.
Hypothesis cells_in_lattice : Forall (fun g => 0 <= g < M) cells.
Hypothesis st0_length : Z.of_nat (List.length st0) = M.
Hypothesis en0_length : Z.of_nat (List.length en0) = M.

Lemma cellAt_lattice i : 0 <= i < N -> 0 <= cellAt cells i < M.
Proof. apply (cellAt_in_lattice N M cells); assumption. Qed.

Lemma cellAt_next i : 0 <= i -> i + 1 < N -> cellAt cells i <= cellAt cells (i + 1).
Proof.
  intros H0 H1.
  pose proof (cellAt_step N cells N_ge_2 cells_length cells_sorted (i + 1)
                ltac:(lia)) as H.
  now replace (i + 1 - 1) with i in H by lia.
Qed.

Lemma cellAt_mono i j : 0 <= i <= j -> j < N -> cellAt cells i <= cellAt cells j.
Proof.
  intros Hij Hj.
  assert (G : forall k : nat, i + Z.of_nat k < N ->
                              cellAt cells i <= cellAt cells (i + Z.of_nat k)).
  { induction k as [| k IH]; intros Hk.
    - replace (i + Z.of_nat 0) with i by lia. lia.
    - pose proof (cellAt_next (i + Z.of_nat k) ltac:(lia) ltac:(lia)) as Hn.
      replace (i + Z.of_nat (S k)) with (i + Z.of_nat k + 1) by lia.
      specialize (IH ltac:(lia)). lia. }
  specialize (G (Z.to_nat (j - i)) ltac:(lia)).
  now replace (i + Z.of_nat (Z.to_nat (j - i))) with j in G by lia.
Qed.

Lemma occupied_cell i x : 0 <= i < N -> unoccupied N cells x -> x <> cellAt cells i.
Proof. intros Hi Hx E. apply (Hx i Hi). congruence. Qed.

(** What a thread does to the tables when it compares the entries [k - 1]
    and [k]. *)
Lemma closeAndOpen_effect k st en :
  0 < k < N ->
  Z.of_nat (List.length st) = M -> Z.of_nat (List.length en) = M ->
  exists st' en',
    closeAndOpen cells k st en = Ok (st', en') /\
    Z.of_nat (List.length st') = M /\ Z.of_nat (List.length en') = M /\
    (cellAt cells (k - 1) = cellAt cells k -> st' = st /\ en' = en) /\
    (cellAt cells (k - 1) <> cellAt cells k ->
       rd st' (cellAt cells k) = Ok k /\
       rd en' (cellAt cells (k - 1)) = Ok (k - 1) /\
       (forall x, x <> cellAt cells k -> rd st' x = rd st x) /\
       (forall x, x <> cellAt cells (k - 1) -> rd en' x = rd en x)).
Proof.
  intros Hk Hls Hle. unfold closeAndOpen.
  pose proof (cellAt_lattice k ltac:(lia)) as Hg'.
  pose proof (cellAt_lattice (k - 1) ltac:(lia)) as Hg.
  destruct (Z.eqb_spec (cellAt cells (k - 1)) (cellAt cells k)) as [E | Hne].
  - exists st, en. repeat split; try assumption; contradiction.
  - assert (Hw1 : wr en (cellAt cells (k - 1)) (k - 1)
                  = Ok (set_nth en (Z.to_nat (cellAt cells (k - 1))) (k - 1)))
      by (apply wr_Ok; lia).
    assert (Hw2 : wr st (cellAt cells k) k
                  = Ok (set_nth st (Z.to_nat (cellAt cells k)) k))
      by (apply wr_Ok; lia).
    rewrite Hw1. cbn [bind]. rewrite Hw2. cbn [bind].
    eexists _, _. split; [reflexivity |].
    split; [rewrite length_set_nth; assumption |].
    split; [rewrite length_set_nth; assumption |].
    split; [intros E; contradiction |]. intros _.
    split; [apply (rd_wr_same _ _ _ _ Hw2) |].
    split; [apply (rd_wr_same _ _ _ _ Hw1) |].
    split; intros x Hx.
    + apply (rd_wr_other _ _ _ _ _ Hw2). congruence.
    + apply (rd_wr_other _ _ _ _ _ Hw1). congruence.
Qed.

Lemma closeAndOpen_built m st en :
  0 < m < N - 1 -> rangesBuilt N M cells st0 en0 m st en ->
  exists st' en',
    closeAndOpen cells m st en = Ok (st', en') /\
    rangesBuilt N M cells st0 en0 (m + 1) st' en'.
Proof.
  intros Hm (Hls & Hle & HS & HE & HFS & HFE).
  destruct (closeAndOpen_effect m st en ltac:(lia) Hls Hle)
    as (st' & en' & Hrun & Hls' & Hle' & Heq & Hne).
  exists st', en'. split; [assumption |].
  pose proof (cellAt_next (m - 1) ltac:(lia) ltac:(lia)) as Hstep.
  replace (m - 1 + 1) with m in Hstep by lia.
  unfold rangesBuilt. replace (m + 1 - 1) with m by lia.
  split; [assumption |]. split; [assumption |].
  destruct (Z.eq_dec (cellAt cells (m - 1)) (cellAt cells m)) as [E | E].
  - destruct (Heq E) as [-> ->]. repeat split; try assumption.
    + intros a Ha Hlt. destruct (Z.eq_dec a m) as [-> | Hn].
      * destruct Ha as [_ [H0 | H0]]; [lia | contradiction].
      * apply HS; [assumption | lia].
    + intros b Hb Hlt. destruct (Z.eq_dec b (m - 1)) as [-> | Hn].
      * destruct Hb as [_ [H0 | H0]]; [lia |].
        replace (m - 1 + 1) with m in H0 by lia. contradiction.
      * apply HE; [assumption | lia].
  - destruct (Hne E) as (Hst & Hen & Hso & Heo). repeat split.
    + intros a Ha Hlt. destruct (Z.eq_dec a m) as [-> | Hn]; [assumption |].
      rewrite Hso; [apply HS; [assumption | lia] |].
      pose proof (cellAt_mono a (m - 1) ltac:(destruct Ha; lia) ltac:(lia)).
      lia.
    + intros b Hb Hlt. destruct (Z.eq_dec b (m - 1)) as [-> | Hn];
        [assumption |].
      rewrite Heo; [apply HE; [assumption | lia] |].
      destruct Hb as [Hb0 [Hb1 | Hb1]]; [lia |].
      pose proof (cellAt_next b ltac:(lia) ltac:(lia)).
      pose proof (cellAt_mono (b + 1) (m - 1) ltac:(lia) ltac:(lia)).
      lia.
    + intros x Hx. rewrite Hso; [apply HFS; assumption |].
      apply occupied_cell; [lia | assumption].
    + intros x Hx. rewrite Heo; [apply HFE; assumption |].
      apply occupied_cell; [lia | assumption].
Qed.

Lemma threads_built m :
  (1 <= m)%nat -> Z.of_nat m <= N - 1 ->
  exists st en,
    foldM (kernIdentifyCellStartEnd N cells) (zrange 0 m) (st0, en0)
    = Ok (st, en) /\
    rangesBuilt N M cells st0 en0 (Z.of_nat m) st en.
Proof.
  induction m as [| m IH]; [lia |]. intros _ Hm.
  destruct m as [| m].
  - clear IH. change (zrange 0 1) with [0]. cbn [foldM].
    rewrite (thread_first N cells N_ge_2 cells_length).
    pose proof (cellAt_lattice 0 ltac:(lia)) as Hg.
    assert (Hw : wr st0 (cellAt cells 0) 0
                 = Ok (set_nth st0 (Z.to_nat (cellAt cells 0)) 0))
      by (apply wr_Ok; lia).
    rewrite Hw. cbn [bind]. eexists _, _. split; [reflexivity |].
    unfold rangesBuilt. change (Z.of_nat 1 - 1) with 0.
    split; [rewrite length_set_nth; assumption |].
    split; [assumption |]. repeat split.
    + intros a Ha Hlt. replace a with 0 by (destruct Ha; lia).
      apply (rd_wr_same _ _ _ _ Hw).
    + intros b Hb Hlt. destruct Hb; lia.
    + intros x Hx. apply (rd_wr_other _ _ _ _ _ Hw).
      intros E. apply (Hx 0); [lia | assumption].
  - destruct IH as (st & en & Hrun & Hbuilt); [lia | lia |].
    replace (S (S m)) with (S m + 1)%nat by lia.
    rewrite zrange_app, foldM_app, Hrun. cbn [bind].
    change (zrange (0 + Z.of_nat (S m)) 1)
      with [0 + Z.of_nat (S m) + Z.of_nat 0].
    replace (0 + Z.of_nat (S m) + Z.of_nat 0) with (Z.of_nat (S m)) by lia.
    cbn [foldM]. rewrite (thread_middle N cells cells_length) by lia.
    destruct (closeAndOpen_built (Z.of_nat (S m)) st en ltac:(lia) Hbuilt)
      as (st' & en' & -> & Hbuilt').
    cbn [bind]. exists st', en'. split; [reflexivity |].
    replace (Z.of_nat (S m + 1)) with (Z.of_nat (S m) + 1) by lia.
    assumption.
Qed.

(** All the threads: every first entry of a cell is in the start table,
    every last entry in the end table. *)
Lemma identify_runs :
  exists st en,
    foldM (kernIdentifyCellStartEnd N cells) (zrange 0 (Z.to_nat N)) (st0, en0)
    = Ok (st, en) /\
    (forall a, runStart N cells a -> rd st (cellAt cells a) = Ok a) /\
    (forall b, runEnd N cells b -> rd en (cellAt cells b) = Ok b) /\
    (forall x, unoccupied N cells x ->
               rd st x = rd st0 x /\ rd en x = rd en0 x).
Proof.
  destruct (threads_built (Z.to_nat (N - 1)) ltac:(lia) ltac:(lia))
    as (st & en & Hrun & Hbuilt).
  replace (Z.to_nat N) with (Z.to_nat (N - 1) + 1)%nat by lia.
  rewrite zrange_app, foldM_app, Hrun. cbn [bind].
  change (zrange (0 + Z.of_nat (Z.to_nat (N - 1))) 1)
    with [0 + Z.of_nat (Z.to_nat (N - 1)) + Z.of_nat 0].
  replace (0 + Z.of_nat (Z.to_nat (N - 1)) + Z.of_nat 0) with (N - 1) by lia.
  replace (Z.of_nat (Z.to_nat (N - 1))) with (N - 1) in Hbuilt by lia.
  cbn [foldM]. rewrite (thread_last N cells N_ge_2 cells_length).
  destruct Hbuilt as (Hls & Hle & HS & HE & HFS & HFE).
  pose proof (cellAt_lattice (N - 1) ltac:(lia)) as Hg.
  assert (Hw : wr en (cellAt cells (N - 1)) (N - 1)
               = Ok (set_nth en (Z.to_nat (cellAt cells (N - 1))) (N - 1)))
    by (apply wr_Ok; lia).
  rewrite Hw. cbn [bind].
  set (en1 := set_nth en (Z.to_nat (cellAt cells (N - 1))) (N - 1)) in *.
  assert (Hle1 : Z.of_nat (List.length en1) = M)
    by (unfold en1; rewrite length_set_nth; assumption).
  destruct (closeAndOpen_effect (N - 1) st en1 ltac:(lia) Hls Hle1)
    as (st' & en' & -> & Hls' & Hle' & Heq & Hne).
  cbn [bind]. exists st', en'. split; [reflexivity |].
  pose proof (cellAt_next (N - 1 - 1) ltac:(lia) ltac:(lia)) as Hstep.
  replace (N - 1 - 1 + 1) with (N - 1) in Hstep by lia.
  assert (Hend : forall b, runEnd N cells b -> b < N - 1 - 1 ->
                           cellAt cells b < cellAt cells (N - 1 - 1)).
  { intros b [Hb0 [Hb1 | Hb1]] Hlt; [lia |].
    pose proof (cellAt_next b ltac:(lia) ltac:(lia)).
    pose proof (cellAt_mono (b + 1) (N - 1 - 1) ltac:(lia) ltac:(lia)).
    lia. }
  destruct (Z.eq_dec (cellAt cells (N - 1 - 1)) (cellAt cells (N - 1)))
    as [E | E].
  - destruct (Heq E) as [-> ->]. repeat split.
    + intros a Ha. destruct (Z.eq_dec a (N - 1)) as [-> | Hn].
      * destruct Ha as [_ [H0 | H0]]; [lia | contradiction].
      * apply HS; [assumption | destruct Ha; lia].
    + intros b Hb. destruct (Z.eq_dec b (N - 1)) as [-> | Hn];
        [apply (rd_wr_same _ _ _ _ Hw) |].
      destruct (Z.eq_dec b (N - 1 - 1)) as [-> | Hn'].
      * destruct Hb as [_ [H0 | H0]]; [lia |].
        replace (N - 1 - 1 + 1) with (N - 1) in H0 by lia. contradiction.
      * assert (Hlt : b < N - 1 - 1) by (destruct Hb; lia).
        unfold en1. rewrite (rd_wr_other _ _ _ _ _ Hw);
          [apply HE; assumption |].
        pose proof (Hend b Hb Hlt); lia.
    + apply HFS; assumption.
    + unfold en1. rewrite (rd_wr_other _ _ _ _ _ Hw);
        [apply HFE; assumption |].
      intros E'. apply (H (N - 1)); [lia | assumption].
  - destruct (Hne E) as (Hst & Hen & Hso & Heo). repeat split.
    + intros a Ha. destruct (Z.eq_dec a (N - 1)) as [-> | Hn];
        [assumption |].
      rewrite Hso; [apply HS; [assumption | destruct Ha; lia] |].
      pose proof (cellAt_mono a (N - 1 - 1)
                    ltac:(destruct Ha; lia) ltac:(lia)).
      lia.
    + intros b Hb. destruct (Z.eq_dec b (N - 1)) as [-> | Hn].
      * rewrite Heo by congruence. apply (rd_wr_same _ _ _ _ Hw).
      * destruct (Z.eq_dec b (N - 1 - 1)) as [-> | Hn']; [assumption |].
        assert (Hlt : b < N - 1 - 1) by (destruct Hb; lia).
        rewrite Heo by (pose proof (Hend b Hb Hlt); lia).
        unfold en1. rewrite (rd_wr_other _ _ _ _ _ Hw);
          [apply HE; assumption |].
        pose proof (Hend b Hb Hlt); lia.
    + rewrite Hso; [apply HFS; assumption |].
      apply occupied_cell; [lia | assumption].
    + rewrite Heo by (apply occupied_cell; [lia | assumption]).
      unfold en1. rewrite (rd_wr_other _ _ _ _ _ Hw);
        [apply HFE; assumption |].
      intros E'. apply (H (N - 1)); [lia | assumption].
Qed.

Lemma run_start_exists i :
  0 <= i < N ->
  exists a, runStart N cells a /\ a <= i /\
            forall j, a <= j <= i -> cellAt cells j = cellAt cells i.
Proof.
  intros Hi.
  assert (G : forall k : nat, Z.of_nat k < N ->
            exists a, runStart N cells a /\ a <= Z.of_nat k /\
              forall j, a <= j <= Z.of_nat k ->
                        cellAt cells j = cellAt cells (Z.of_nat k)).
  { induction k as [| k IH]; intros Hk.
    - exists 0. split; [split; [lia | left; reflexivity] |].
      split; [lia |]. intros j Hj. f_equal. lia.
    - destruct (Z.eq_dec (cellAt cells (Z.of_nat (S k) - 1))
                         (cellAt cells (Z.of_nat (S k)))) as [E | E].
      + destruct (IH ltac:(lia)) as (a & Ha & Hle & Hrun).
        exists a. split; [assumption |]. split; [lia |].
        intros j Hj. replace (Z.of_nat (S k) - 1) with (Z.of_nat k) in E by lia.
        destruct (Z.eq_dec j (Z.of_nat (S k))) as [-> | Hn]; [reflexivity |].
        rewrite <- E. apply Hrun. lia.
      + exists (Z.of_nat (S k)). split; [split; [lia | right; assumption] |].
        split; [lia |]. intros j Hj. f_equal. lia. }
  specialize (G (Z.to_nat i) ltac:(lia)).
  now replace (Z.of_nat (Z.to_nat i)) with i in G by lia.
Qed.

Lemma run_end_exists i :
  0 <= i < N ->
  exists b, runEnd N cells b /\ i <= b /\
            forall j, i <= j <= b -> cellAt cells j = cellAt cells i.
Proof.
  intros Hi.
  assert (G : forall k : nat, forall i, 0 <= i -> i + Z.of_nat k = N - 1 ->
            exists b, runEnd N cells b /\ i <= b /\
              forall j, i <= j <= b -> cellAt cells j = cellAt cells i).
  { induction k as [| k IH]; intros i' Hi0 Hk.
    - exists i'. split; [split; [lia | left; lia] |].
      split; [lia |]. intros j Hj. f_equal. lia.
    - destruct (Z.eq_dec (cellAt cells i') (cellAt cells (i' + 1))) as [E | E].
      + destruct (IH (i' + 1) ltac:(lia) ltac:(lia)) as (b & Hb & Hle & Hrun).
        exists b. split; [assumption |]. split; [lia |].
        intros j Hj.
        destruct (Z.eq_dec j i') as [-> | Hn]; [reflexivity |].
        rewrite E. apply Hrun. lia.
      + exists i'. split; [split; [lia | right; assumption] |].
        split; [lia |]. intros j Hj. f_equal. lia. }
  apply (G (Z.to_nat (N - 1 - i))); lia.
Qed.

Lemma identify_ranges :
  exists st en,
    foldM (kernIdentifyCellStartEnd N cells) (zrange 0 (Z.to_nat N)) (st0, en0)
    = Ok (st, en) /\
    (forall i, 0 <= i < N ->
       exists a b, rd st (cellAt cells i) = Ok a /\
                   rd en (cellAt cells i) = Ok b /\
                   0 <= a <= i /\ i <= b < N /\
                   cellRange N cells i a b) /\
    (forall x, unoccupied N cells x ->
               rd st x = rd st0 x /\ rd en x = rd en0 x).
Proof.
  destruct identify_runs as (st & en & Hrun & HS & HE & HF).
  exists st, en. split; [assumption |]. split; [| assumption].
  intros i Hi.
  destruct (run_start_exists i Hi) as (a & Ha & Hai & Hsame).
  destruct (run_end_exists i Hi) as (b & Hb & Hib & Hsame').
  exists a, b.
  split; [rewrite <- (Hsame a ltac:(lia)); apply HS; assumption |].
  split; [rewrite <- (Hsame' b ltac:(lia)); apply HE; assumption |].
  split; [destruct Ha; lia |]. split; [destruct Hb; lia |].
  intros j Hj. split.
  - intros E.
    destruct (Z.ltb_spec j a) as [Hlt | Hge].
    + exfalso. destruct Ha as [Ha0 [Ha1 | Ha1]]; [lia |].
      pose proof (cellAt_mono j (a - 1) ltac:(lia) ltac:(lia)).
      pose proof (cellAt_next (a - 1) ltac:(lia) ltac:(lia)) as Hn.
      replace (a - 1 + 1) with a in Hn by lia.
      pose proof (Hsame a ltac:(lia)). lia.
    + destruct (Z.ltb_spec b j) as [Hlt | Hge']; [| lia].
      exfalso. destruct Hb as [Hb0 [Hb1 | Hb1]]; [lia |].
      pose proof (cellAt_mono (b + 1) j ltac:(lia) ltac:(lia)).
      pose proof (cellAt_next b ltac:(lia) ltac:(lia)) as Hn.
      pose proof (Hsame' b ltac:(lia)). lia.
  - intros Hab. destruct (Z.le_ge_cases j i).
    + apply Hsame. lia.
    + apply Hsame'. lia.
Qed.
End IdentifyRanges.

(** X12: with two or more boids whose cell identifiers are sorted and
    inside the tables, [kernIdentifyCellStartEnd] completes, and for the
    cell of every boid the start and the end table hold the first and the
    last sorted entry of that cell: the entries between them, both
    included, are exactly the boids of the cell.  The cells that hold no
    boid keep what the tables held before the launch. *)
Theorem X12_identify_builds_the_cell_ranges d :
  2 <= numObjects d ->
  Z.of_nat (List.length (dev_particleGridIndices d)) = numObjects d ->
  Sorted Z.le (dev_particleGridIndices d) ->
  Forall (fun g => 0 <= g < gridCellCount d) (dev_particleGridIndices d) ->
  Z.of_nat (List.length (dev_gridCellStartIndices d)) = gridCellCount d ->
  Z.of_nat (List.length (dev_gridCellEndIndices d)) = gridCellCount d ->
  exists d',
    identifyCells d = Ok d' /\
    (forall i, 0 <= i < numObjects d ->
       exists a b,
         rd (dev_gridCellStartIndices d')
            (cellAt (dev_particleGridIndices d) i) = Ok a /\
         rd (dev_gridCellEndIndices d')
            (cellAt (dev_particleGridIndices d) i) = Ok b /\
         0 <= a <= i /\ i <= b < numObjects d /\
         cellRange (numObjects d) (dev_particleGridIndices d) i a b) /\
    (forall x, unoccupied (numObjects d) (dev_particleGridIndices d) x ->
       rd (dev_gridCellStartIndices d') x = rd (dev_gridCellStartIndices d) x /\
       rd (dev_gridCellEndIndices d') x = rd (dev_gridCellEndIndices d) x).
Proof.
  intros HN Hlen Hsorted Hin Hst Hen. unfold identifyCells.
  rewrite launch_boids;
    [| lia
     | intros; apply kernIdentifyCellStartEnd_idle; [lia | assumption]].
  destruct (identify_ranges (numObjects d) (gridCellCount d)
              (dev_particleGridIndices d) (dev_gridCellStartIndices d)
              (dev_gridCellEndIndices d) HN Hlen Hsorted Hin Hst Hen)
    as (st & en & -> & Hranges & Hframe).
  cbn [bind]. eexists; split; [reflexivity |].
  split; assumption.
Qed.

(** X12 at three boids, two in cell 2 and one in cell 5, over a cleared
    start table and an end table holding 7. *)
Lemma X12_identify_builds_the_cell_ranges_witness :
  exists d',
    identifyCells (gridDevice 3 [vzero; vzero; vzero] [vzero; vzero; vzero]
                     [vzero; vzero; vzero] [0; 1; 2] [2; 2; 5]
                     cleanTable staleTable
                     [vzero; vzero; vzero] [vzero; vzero; vzero]) = Ok d' /\
    (forall i, 0 <= i < 3 ->
       exists a b,
         rd (dev_gridCellStartIndices d') (cellAt [2; 2; 5] i) = Ok a /\
         rd (dev_gridCellEndIndices d') (cellAt [2; 2; 5] i) = Ok b /\
         0 <= a <= i /\ i <= b < 3 /\
         cellRange 3 [2; 2; 5] i a b) /\
    (forall x, unoccupied 3 [2; 2; 5] x ->
       rd (dev_gridCellStartIndices d') x = rd cleanTable x /\
       rd (dev_gridCellEndIndices d') x = rd staleTable x).
Proof.
  apply (X12_identify_builds_the_cell_ranges
           (gridDevice 3 [vzero; vzero; vzero] [vzero; vzero; vzero]
              [vzero; vzero; vzero] [0; 1; 2] [2; 2; 5]
              cleanTable staleTable
              [vzero; vzero; vzero] [vzero; vzero; vzero])).
  - cbn. lia.
  - reflexivity.
  - cbn. repeat constructor; lia.
  - cbn. repeat constructor; lia.
  - cbn. unfold cleanTable. rewrite repeat_length. reflexivity.
  - cbn. unfold staleTable. rewrite repeat_length. reflexivity.
Defined.

(** ** Launches of kernels that write one slot of two buffers per thread *)

Lemma set_nth_pointwise {A} (l1 buf : list A) m a :
  List.length l1 = m -> (m < List.length buf)%nat ->
  set_nth (l1 ++ skipn m buf) m a = (l1 ++ [a]) ++ skipn (S m) buf.
Proof. intros <-. apply set_nth_app_skipn. Qed.

Lemma foldM_pointwise2 {A B} (f : Z -> A) (g : Z -> B)
    (body : Z -> list A * list B -> result (list A * list B))
    (a0 : list A) (b0 : list B) n :
  (n <= List.length a0)%nat -> (n <= List.length b0)%nat ->
  (forall i a b, 0 <= i < Z.of_nat n ->
                 List.length a = List.length a0 ->
                 List.length b = List.length b0 ->
                 body i (a, b)
                 = Ok (set_nth a (Z.to_nat i) (f i),
                       set_nth b (Z.to_nat i) (g i))) ->
  foldM body (zrange 0 n) (a0, b0)
  = Ok (map f (zrange 0 n) ++ skipn n a0, map g (zrange 0 n) ++ skipn n b0).
Proof.
  intros Hna Hnb Hbody.
  assert (G : forall m, (m <= n)%nat ->
            foldM body (zrange 0 m) (a0, b0)
            = Ok (map f (zrange 0 m) ++ skipn m a0,
                  map g (zrange 0 m) ++ skipn m b0)).
  { induction m as [| m IH]; intros Hm; [reflexivity |].
    replace (S m) with (m + 1)%nat by lia.
    rewrite zrange_app, foldM_app, IH by lia. cbn [bind].
    change (zrange (0 + Z.of_nat m) 1) with [0 + Z.of_nat m + Z.of_nat 0].
    replace (0 + Z.of_nat m + Z.of_nat 0) with (Z.of_nat m) by lia.
    cbn [foldM].
    assert (Hlf : List.length (map f (zrange 0 m)) = m)
      by (now rewrite length_map, length_zrange).
    assert (Hlg : List.length (map g (zrange 0 m)) = m)
      by (now rewrite length_map, length_zrange).
    rewrite Hbody;
      [| lia | apply length_pointwise; lia | apply length_pointwise; lia].
    cbn [bind].
    replace (Z.to_nat (Z.of_nat m)) with m by lia.
    rewrite (set_nth_pointwise _ a0 m), (set_nth_pointwise _ b0 m)
      by (assumption || lia).
    rewrite !map_app. cbn [map].
    now replace (m + 1)%nat with (S m) by lia. }
  apply G; lia.
Qed.

(** ** The reordered copies *)

Lemma launch_kernPropogateCoherency_gather blocks N idx pos vel pos2 vel2 :
  0 <= N <= blocks * blockSize ->
  N <= Z.of_nat (List.length idx) ->
  (forall i, 0 <= i < N ->
     0 <= cellAt idx i < Z.of_nat (List.length pos) /\
     cellAt idx i < Z.of_nat (List.length vel)) ->
  N <= Z.of_nat (List.length pos2) -> N <= Z.of_nat (List.length vel2) ->
  launch blocks (kernPropogateCoherency N idx pos vel) (pos2, vel2)
  = Ok (map (fun i => posOf pos (cellAt idx i)) (zrange 0 (Z.to_nat N))
        ++ skipn (Z.to_nat N) pos2,
        map (fun i => velOf vel (cellAt idx i)) (zrange 0 (Z.to_nat N))
        ++ skipn (Z.to_nat N) vel2).
Proof.
  intros HN Hidx Hin Hp2 Hv2.
  rewrite (launch_guarded _ blocks N) by
    (try assumption; intros; apply kernPropogateCoherency_idle; assumption).
  apply foldM_pointwise2; [lia | lia |].
  intros i a b Hi Hla Hlb.
  unfold kernPropogateCoherency.
  destruct (Z.geb_spec i N); [lia |].
  destruct (Hin i ltac:(lia)) as [Hk Hk'].
  rewrite (rd_nth idx i 0) by lia. cbn [bind].
  change (nth (Z.to_nat i) idx 0) with (cellAt idx i).
  rewrite (rd_nth vel _ vzero) by lia. cbn [bind].
  rewrite wr_Ok by lia. cbn [bind].
  rewrite (rd_nth pos _ vzero) by lia. cbn [bind].
  rewrite wr_Ok by lia. cbn [bind]. reflexivity.
Qed.



(** ** The labelling of the boids *)

Lemma launch_kernComputeIndices blocks N res gmin inv pos indices gridIndices :
  0 <= N <= blocks * blockSize ->
  N <= Z.of_nat (List.length pos) ->
  N <= Z.of_nat (List.length indices) ->
  N <= Z.of_nat (List.length gridIndices) ->
  launch blocks (kernComputeIndices N res gmin inv pos) (indices, gridIndices)
  = Ok (map (fun i => i) (zrange 0 (Z.to_nat N))
        ++ skipn (Z.to_nat N) indices,
        map (fun i => cellOf res gmin inv (posOf pos i))
            (zrange 0 (Z.to_nat N))
        ++ skipn (Z.to_nat N) gridIndices).
Proof.
  intros HN Hp Hi Hg.
  rewrite (launch_guarded _ blocks N) by
    (try assumption; intros; apply kernComputeIndices_idle; assumption).
  apply foldM_pointwise2; [lia | lia |].
  intros i a b Hi' Hla Hlb.
  unfold kernComputeIndices.
  destruct (Z.ltb_spec i N); [| lia].
  rewrite wr_Ok by lia. cbn [bind].
  rewrite (rd_nth pos i vzero) by lia. cbn [bind].
  rewrite wr_Ok by lia. cbn [bind]. reflexivity.
Qed.

Lemma cellOf_in_lattice p :
  inDomain p ->
  0 <= cellOf 22 (mkvec3 (-110) (-110) (-110)) (1 / 10) p < 10648.
Proof.
  intros (Hx & Hy & Hz).
  apply cell_coordinate_bounds in Hx, Hy, Hz.
  unfold cellOf. cbn [to_ivec3 ix iy iz vscale vadd vneg vx vy vz].
  change 10648 with (22 * 22 * 22).
  apply gridIndex3Dto1D_bounds; lia.
Qed.



(** ** The order of the reset and the labelling *)

Lemma computeAndSortIndices_tables sort d s e :
  computeAndSortIndices sort (with_start (with_end d e) s)
  = (d' <- computeAndSortIndices sort d ;;
     Ok (with_start (with_end d' e) s)).
Proof.
  unfold computeAndSortIndices.
  change (blocksPerGrid (with_start (with_end d e) s)) with (blocksPerGrid d).
  cbn [numObjects gridSideCount gridMinimum gridInverseCellWidth dev_pos
       dev_particleArrayIndices dev_particleGridIndices with_start with_end].
  destruct (launch _ _ _) as [o |]; [| reflexivity]. cbn [bind].
  cbn [with_indices numObjects dev_particleArrayIndices
       dev_particleGridIndices fst snd].
  destruct (sort _ _) as [keys values]. reflexivity.
Qed.

Lemma resetCellTables_indices d o :
  resetCellTables (with_indices d o)
  = (d' <- resetCellTables d ;; Ok (with_indices d' o)).
Proof.
  unfold resetCellTables.
  change (blocksPerGrid (with_indices d o)) with (blocksPerGrid d).
  cbn [numObjects dev_gridCellEndIndices with_indices].
  destruct (launch _ _ (dev_gridCellEndIndices d)) as [e |]; [| reflexivity].
  cbn [bind].
  change (blocksPerGrid (with_end (with_indices d o) e))
    with (blocksPerGrid d).
  change (blocksPerGrid (with_end d e)) with (blocksPerGrid d).
  cbn [numObjects dev_gridCellStartIndices with_end with_indices].
  destruct (launch _ _ (dev_gridCellStartIndices d)) as [s |]; reflexivity.
Qed.

Lemma beforeIdentify_commute sort d :
  coherentBeforeIdentify sort d = scatteredBeforeIdentify sort d.
Proof.
  unfold coherentBeforeIdentify, scatteredBeforeIdentify.
  destruct (computeAndSortIndices sort d) as [d1 |] eqn:E1.
  - apply computeAndSortIndices_frame in E1 as E1'. destruct E1' as (o & ->).
    cbn [bind]. rewrite resetCellTables_indices.
    destruct (resetCellTables d) as [d2 |] eqn:E2; [| reflexivity].
    apply resetCellTables_frame in E2 as (s & e & ->). cbn [bind].
    replace (with_end (with_start d s) e) with (with_start (with_end d e) s)
      by reflexivity.
    rewrite computeAndSortIndices_tables, E1. reflexivity.
  - cbn [bind].
    destruct (resetCellTables d) as [d2 |] eqn:E2; [| reflexivity].
    apply resetCellTables_frame in E2 as (s & e & ->). cbn [bind].
    replace (with_end (with_start d s) e) with (with_start (with_end d e) s)
      by reflexivity.
    rewrite computeAndSortIndices_tables, E1. reflexivity.
Qed.

(** X15: the scattered step labels and sorts the boids and then clears
    the tables, the coherent step clears the tables first.  The order
    makes no difference: on every state and with every sort the two
    steps launch [kernIdentifyCellStartEnd] in the same state, build the
    same tables, and stop together when either stage leaves a buffer. *)
Theorem X15_both_grid_steps_build_the_same_tables sort d :
  coherentBeforeIdentify sort d = scatteredBeforeIdentify sort d /\
  coherentAfterIdentify sort d = scatteredAfterIdentify sort d.
Proof.
  split; [apply beforeIdentify_commute |].
  unfold coherentAfterIdentify, scatteredAfterIdentify.
  now rewrite beforeIdentify_commute.
Qed.

(** ** Threads of the coherent evaluator on tables in range *)

Lemma applyRules_total cp (pos vel : list vec3) b a :
  0 <= b < Z.of_nat (List.length pos) -> b < Z.of_nat (List.length vel) ->
  exists a', applyRules cp pos vel b a = Ok a'.
Proof.
  intros Hp Hv. unfold applyRules.
  rewrite (rd_nth pos b vzero) by lia. cbn [bind].
  rewrite (rd_nth vel b vzero) by lia. cbn [bind].
  destruct (Rltb _ rule3Distance); eexists; reflexivity.
Qed.

Lemma visitCell_total li cp (pos vel : list vec3) st en N cells cell a :
  tablesInRange N cells st en ->
  N <= Z.of_nat (List.length pos) -> N <= Z.of_nat (List.length vel) ->
  cell = -1 \/ 0 <= cell < cells ->
  exists a', visitCell 0 Ok li cp pos vel st en cell a = Ok a'.
Proof.
  intros Htab Hp Hv Hcell. unfold visitCell.
  destruct (Z.ltb_spec cell 0) as [Hneg | Hpos]; [eexists; reflexivity |].
  destruct Hcell as [-> | Hcell]; [lia |].
  destruct (Htab cell Hcell) as (s & e & -> & -> & Hse). cbn [bind].
  assert (Hin : forall j, In j (zrange s (Z.to_nat (e - s + 0))) ->
                          0 <= j < N).
  { intros j Hj. apply in_zrange in Hj. destruct Hse as [[-> ->] | Hse]; lia. }
  destruct (foldM_total (fun _ : accum => True)
              (fun j a0 => b <- Ok j ;;
                           if li =? b then Ok a0
                           else applyRules cp pos vel b a0)
              (zrange s (Z.to_nat (e - s + 0)))) with (s := a)
    as (a' & Hrun & _); [| exact I | exists a'; exact Hrun].
  intros j a0 Hj _. cbn [bind]. specialize (Hin j Hj).
  destruct (li =? j); [exists a0; auto |].
  destruct (applyRules_total cp pos vel j a0) as (a1 & ->); [lia | lia |].
  exists a1; auto.
Qed.

Lemma candidates_in_tables spacialIndex :
  Forall (fun cell => cell = -1 \/ 0 <= cell < 10648)
         (calculateBoidNeighborCells spacialIndex 22).
Proof.
  unfold calculateBoidNeighborCells.
  destruct (neighborSigns spacialIndex) as [[x y] z].
  apply Forall_map, Forall_forall. intros c _.
  change 10648 with (22 * 22 * 22). apply filterCell_range.
Qed.

Lemma kernUpdateVelNeighborSearchCoherent_total
    N gmin inv w st en (pos vel1 : list vec3) li vel2 out :
  tablesInRange N 10648 st en ->
  0 <= li < N ->
  N <= Z.of_nat (List.length pos) -> N <= Z.of_nat (List.length vel1) ->
  N <= Z.of_nat (List.length vel2) ->
  exists o',
    kernUpdateVelNeighborSearchCoherent N 22 gmin inv w st en pos vel1 li
      (vel2, out) = Ok o' /\
    List.length (fst o') = List.length vel2.
Proof.
  intros Htab Hli Hp Hv Hv2. unfold kernUpdateVelNeighborSearchCoherent.
  destruct (Z.geb_spec li N); [lia |].
  rewrite (rd_nth pos li vzero) by lia. cbn [bind].
  set (p := nth (Z.to_nat li) pos vzero).
  destruct (foldM_total (fun _ : accum => True)
              (visitCell 0 Ok li p pos vel1 st en)
              (calculateBoidNeighborCells (vscale (vsub p gmin) inv) 22))
    with (s := accum0) as (a & -> & _); [| exact I |].
  - intros c a0 Hc _.
    pose proof (candidates_in_tables (vscale (vsub p gmin) inv)) as Hall.
    rewrite Forall_forall in Hall.
    destruct (visitCell_total li p pos vel1 st en N 10648 c a0 Htab Hp Hv
                (Hall c Hc)) as (a1 & ->).
    exists a1; auto.
  - cbn [bind]. unfold storeVelocity.
    rewrite (rd_nth vel1 li vzero) by lia. cbn [bind].
    rewrite wr_Ok by lia. cbn [bind].
    eexists. split; [reflexivity |]. cbn [fst]. apply length_set_nth.
Qed.

Lemma launch_kernUpdateVelNeighborSearchCoherent_total
    blocks N gmin inv w st en (pos vel1 : list vec3) vel2 out :
  tablesInRange N 10648 st en ->
  0 <= N <= blocks * blockSize ->
  N <= Z.of_nat (List.length pos) -> N <= Z.of_nat (List.length vel1) ->
  N <= Z.of_nat (List.length vel2) ->
  exists o',
    launch blocks
      (kernUpdateVelNeighborSearchCoherent N 22 gmin inv w st en pos vel1)
      (vel2, out) = Ok o' /\
    List.length (fst o') = List.length vel2.
Proof.
  intros Htab HN Hp Hv Hv2.
  rewrite (launch_guarded _ blocks N) by
    (try assumption; intros;
     apply kernUpdateVelNeighborSearchCoherent_idle; assumption).
  apply (foldM_total
           (fun o : velOut => List.length (fst o) = List.length vel2));
    [| reflexivity].
  intros i [v o] Hi Hl. cbn [fst] in Hl. apply in_zrange in Hi.
  destruct (kernUpdateVelNeighborSearchCoherent_total N gmin inv w st en
              pos vel1 i v o Htab ltac:(lia) Hp Hv ltac:(lia))
    as (o' & -> & Hl').
  exists o'. split; [reflexivity | congruence].
Qed.

(** *** The lengths of the boundary tables *)

Lemma identify_lengths N cells l st en st' en' :
  foldM (kernIdentifyCellStartEnd N cells) l (st, en) = Ok (st', en') ->
  List.length st' = List.length st /\ List.length en' = List.length en.
Proof.
  intros H.
  apply (foldM_invariant
           (fun o : list Z * list Z =>
              List.length (fst o) = List.length st /\
              List.length (snd o) = List.length en)
           (kernIdentifyCellStartEnd N cells) l)
    with (s := (st, en)) (s' := (st', en'));
    [| split; reflexivity | exact H].
  intros i [s e] [s' e'] _ Hbody [Hs He]. cbn [fst snd] in *.
  unfold kernIdentifyCellStartEnd in Hbody.
  destruct ((i >? 0) && (i =? N - 1)).
  - inv_binds.
    destruct (i =? 0).
    + inv_binds. injection Hbody as <- <-.
      repeat match goal with
             | H : wr _ _ _ = Ok _ |- _ => apply wr_length in H
             end. split; congruence.
    + destruct (i <? N).
      * inv_binds. destruct (negb _).
        -- inv_binds. injection Hbody as <- <-.
           repeat match goal with
                  | H : wr _ _ _ = Ok _ |- _ => apply wr_length in H
                  end. split; congruence.
        -- injection Hbody as <- <-.
           repeat match goal with
                  | H : wr _ _ _ = Ok _ |- _ => apply wr_length in H
                  end. split; congruence.
      * injection Hbody as <- <-.
        repeat match goal with
               | H : wr _ _ _ = Ok _ |- _ => apply wr_length in H
               end. split; congruence.
  - cbn [bind] in Hbody.
    destruct (i =? 0).
    + inv_binds. injection Hbody as <- <-.
      repeat match goal with
             | H : wr _ _ _ = Ok _ |- _ => apply wr_length in H
             end. split; congruence.
    + destruct (i <? N).
      * inv_binds. destruct (negb _).
        -- inv_binds. injection Hbody as <- <-.
           repeat match goal with
                  | H : wr _ _ _ = Ok _ |- _ => apply wr_length in H
                  end. split; congruence.
        -- injection Hbody as <- <-. split; congruence.
      * injection Hbody as <- <-. split; congruence.
Qed.

Lemma reset_lengths blocks N v buf buf' :
  launch blocks (kernResetIntBuffer N v) buf = Ok buf' ->
  List.length buf' = List.length buf.
Proof.
  intros H.
  apply (foldM_invariant (fun s : list Z => List.length s = List.length buf)
           (kernResetIntBuffer N v) (threadIds blocks))
    with (s := buf) (s' := buf'); [| reflexivity | exact H].
  intros i s s' _ Hbody Hs. unfold kernResetIntBuffer in Hbody.
  destruct (i <? N).
  - apply wr_length in Hbody. congruence.
  - injection Hbody as <-. exact Hs.
Qed.

Lemma scatteredAfterIdentify_lengths sort d d' :
  scatteredAfterIdentify sort d = Ok d' ->
  List.length (dev_gridCellStartIndices d')
  = List.length (dev_gridCellStartIndices d) /\
  List.length (dev_gridCellEndIndices d')
  = List.length (dev_gridCellEndIndices d).
Proof.
  unfold scatteredAfterIdentify, scatteredBeforeIdentify. intros H.
  destruct (computeAndSortIndices sort d) as [d1 |] eqn:E1;
    cbn [bind] in H; [| discriminate].
  apply computeAndSortIndices_frame in E1 as (o & ->).
  unfold resetCellTables in H.
  destruct (launch _ _ (dev_gridCellEndIndices (with_indices d o)))
    as [e |] eqn:Ee; cbn [bind] in H; [| discriminate].
  destruct (launch _ _ (dev_gridCellStartIndices _)) as [s |] eqn:Es;
    cbn [bind] in H; [| discriminate].
  apply reset_lengths in Ee, Es.
  unfold identifyCells in H.
  destruct (launch _ (kernIdentifyCellStartEnd _ _) _) as [[s' e'] |] eqn:Ei;
    cbn [bind] in H; [| discriminate].
  injection H as <-.
  apply identify_lengths in Ei as [Hs He].
  cbn in *. split; congruence.
Qed.

(** ** The scattered evaluator at a cell without boids *)

Lemma kernUpdateVelNeighborSearchScattered_sentinel
    N res gmin inv w st en idx pos vel1 index o li p cell :
  index < N ->
  rd idx index = Ok li -> rd pos li = Ok p ->
  In cell (calculateBoidNeighborCells (vscale (vsub p gmin) inv) res) ->
  0 <= cell -> rd st cell = Ok (-1) -> rd en cell = Ok (-1) ->
  kernUpdateVelNeighborSearchScattered N res gmin inv w st en idx pos vel1
    index o = OutOfBounds.
Proof.
  intros Hi Hli Hp Hin Hc Hs He.
  unfold kernUpdateVelNeighborSearchScattered.
  destruct (Z.geb_spec index N); [lia |].
  rewrite Hli. cbn [bind]. rewrite Hp. cbn [bind].
  apply in_split in Hin as (l1 & l2 & ->).
  rewrite foldM_app.
  destruct (foldM _ l1 accum0) as [a1 |]; [| reflexivity].
  cbn [bind foldM].
  rewrite visitCell_sentinel by assumption. reflexivity.
Qed.

(** X17: a thread of the scattered evaluator whose boid has, among its
    candidate cells, a cell for which both boundary tables hold -1 does
    not complete: the loop over the entries [start .. end] of that cell
    runs from -1 to -1 and reads [particleArrayIndices[-1]]. *)
Theorem X17_scattered_thread_reads_entry_minus_one
    N res gmin inv w st en idx pos vel1 index o li p cell :
  index < N ->
  rd idx index = Ok li -> rd pos li = Ok p ->
  In cell (calculateBoidNeighborCells (vscale (vsub p gmin) inv) res) ->
  0 <= cell -> rd st cell = Ok (-1) -> rd en cell = Ok (-1) ->
  kernUpdateVelNeighborSearchScattered N res gmin inv w st en idx pos vel1
    index o = OutOfBounds.
Proof.
  intros Hi Hli Hp Hin Hc Hs He.
  unfold kernUpdateVelNeighborSearchScattered.
  destruct (Z.geb_spec index N); [lia |].
  rewrite Hli. cbn [bind]. rewrite Hp. cbn [bind].
  apply in_split in Hin as (l1 & l2 & ->).
  rewrite foldM_app.
  destruct (foldM _ l1 accum0) as [a1 |]; [| reflexivity].
  cbn [bind foldM].
  rewrite visitCell_sentinel by assumption. reflexivity.
Qed.

(** X17 at a boid in cell 0, over tables that hold -1. *)
Lemma X17_scattered_thread_reads_entry_minus_one_witness :
  kernUpdateVelNeighborSearchScattered 1 22 (mkvec3 (-110) (-110) (-110))
    (1 / 10) 10 [-1; -1] [-1; -1] [0] [mkvec3 (-105) (-105) (-105)] [vzero]
    0 ([vzero], []) = OutOfBounds.
Proof.
  apply (X17_scattered_thread_reads_entry_minus_one 1 22
           (mkvec3 (-110) (-110) (-110)) (1 / 10) 10 [-1; -1] [-1; -1] [0]
           [mkvec3 (-105) (-105) (-105)] [vzero] 0 ([vzero], []) 0
           (mkvec3 (-105) (-105) (-105)) 0).
  - lia.
  - reflexivity.
  - reflexivity.
  - left. unfold filterCell, iadd, to_ivec3, vscale, vsub. cbn [vx vy vz ix iy iz].
    replace ((-105 - -110) * (1 / 10))%R with (1 / 2)%R by lra.
    rewrite (truncZ_nonneg _ 0) by (lra || lia). reflexivity.
  - lia.
  - reflexivity.
  - reflexivity.
Defined.

(** ** The grid, built from the positions *)

Lemma combine_fst_snd {A B} (l : list (A * B)) :
  combine (map fst l) (map snd l) = l.
Proof. induction l as [| [a b] l IH]; cbn; [| rewrite IH]; reflexivity. Qed.

Lemma map_fst_combine {A B} (l : list A) : forall l' : list B,
  List.length l = List.length l' -> map fst (combine l l') = l.
Proof.
  induction l as [| a l IH]; intros [| b l'] H; cbn in *; try lia;
    [reflexivity |]. f_equal. apply IH. lia.
Qed.

Lemma map_snd_combine {A B} (l : list A) : forall l' : list B,
  List.length l = List.length l' -> map snd (combine l l') = l'.
Proof.
  induction l as [| a l IH]; intros [| b l'] H; cbn in *; try lia;
    [reflexivity |]. f_equal. apply IH. lia.
Qed.

Lemma In_combine_maps {A B C} (f : A -> B) (g : A -> C) l b c :
  In (b, c) (combine (map f l) (map g l)) ->
  exists x, In x l /\ b = f x /\ c = g x.
Proof.
  induction l as [| x l IH]; cbn; [intros [] |].
  intros [E | H].
  - injection E as <- <-. exists x; auto.
  - destruct (IH H) as (y & Hy & -> & ->). exists y; auto.
Qed.

Lemma Sorted_map_fst (l : list (Z * Z)) :
  Sorted keyLe l -> Sorted Z.le (map fst l).
Proof.
  induction 1 as [| a l Hs IH Hhd]; cbn; constructor; [assumption |].
  destruct Hhd as [| b l' Hab]; cbn; constructor. exact Hab.
Qed.

Lemma insertion_sort_sortsByKey : sortsByKey insertion_sort_by_key.
Proof.
  intros keys values Hlen. unfold insertion_sort_by_key. cbn [fst snd].
  pose proof (sort_pairs_perm (combine keys values)) as Hperm.
  pose proof (Permutation_length Hperm) as Hl.
  rewrite length_combine in Hl.
  rewrite !length_map, combine_fst_snd.
  repeat split; try lia; [| assumption].
  apply Sorted_map_fst, sort_pairs_sorted.
Qed.

Lemma rd_reset_prefix (v : Z) n (buf : list Z) c :
  0 <= c < Z.of_nat n -> rd (repeat v n ++ skipn n buf) c = Ok v.
Proof.
  intros Hc. unfold rd. destruct (Z.ltb_spec c 0); [lia |].
  rewrite nth_error_app1 by (rewrite repeat_length; lia).
  rewrite nth_error_repeat by lia. reflexivity.
Qed.

Lemma pointwise_all {A} (f : Z -> A) n (buf : list A) :
  List.length buf = n -> map f (zrange 0 n) ++ skipn n buf = map f (zrange 0 n).
Proof. intros <-. now rewrite skipn_all, app_nil_r. Qed.

Lemma firstn_pointwise {A} (f : Z -> A) n :
  firstn n (map f (zrange 0 n)) = map f (zrange 0 n).
Proof. apply firstn_all2. rewrite length_map, length_zrange. lia. Qed.

Lemma skipn_pointwise {A} (f : Z -> A) n :
  skipn n (map f (zrange 0 n)) = [].
Proof. apply skipn_all2. rewrite length_map, length_zrange. lia. Qed.

Section GridBuild.
Variable sort : list Z -> list Z -> list Z * list Z.
Variable d : Device.
Hypothesis sort_ok : sortsByKey sort.
Hypothesis d_allocated : allocated d.
Hypothesis d_side : gridSideCount d = 22.
Hypothesis d_min : gridMinimum d = mkvec3 (-110) (-110) (-110).
Hypothesis d_inv : gridInverseCellWidth d = (1 / 10)%R.
Hypothesis d_cells : gridCellCount d = 10648.
Hypothesis d_in_domain : Forall inDomain (dev_pos d).


Lemma computeAndSortIndices_built :
  computeAndSortIndices sort d
  = Ok (with_indices d (sortedBoids sort d, sortedCells sort d)).
Proof.
  destruct d_allocated as (HN & Hp & _ & _ & Hai & Hgi & _).
  pose proof (blocks_cover _ HN) as Hcover.
  unfold computeAndSortIndices.
  rewrite d_side, d_min, d_inv.
  rewrite launch_kernComputeIndices by (unfold blocksPerGrid; lia).
  cbn [bind with_indices numObjects dev_particleArrayIndices
       dev_particleGridIndices fst snd].
  rewrite !pointwise_all by assumption.
  rewrite !firstn_pointwise, !skipn_pointwise.
  fold (boidCell d). fold (labelledCells d). fold (labelledBoids d).
  unfold sortedBoids, sortedCells.
  destruct (sort (labelledCells d) (labelledBoids d)) as [keys values].
  cbn [fst snd]. now rewrite !app_nil_r.
Qed.

Lemma sorted_spec :
  List.length (sortedCells sort d) = Z.to_nat (numObjects d) /\
  List.length (sortedBoids sort d) = Z.to_nat (numObjects d) /\
  Sorted Z.le (sortedCells sort d) /\
  Permutation (combine (sortedCells sort d) (sortedBoids sort d))
              (combine (labelledCells d) (labelledBoids d)).
Proof.
  unfold sortedCells, sortedBoids.
  destruct (sort_ok (labelledCells d) (labelledBoids d))
    as (H1 & H2 & Hs & Hperm).
  - unfold labelledCells, labelledBoids. now rewrite !length_map.
  - unfold labelledCells in H1, H2.
    rewrite length_map, length_zrange in H1, H2. auto.
Qed.

Lemma sorted_lengths :
  List.length (sortedCells sort d) = Z.to_nat (numObjects d) /\
  List.length (sortedBoids sort d) = Z.to_nat (numObjects d).
Proof. destruct sorted_spec as (H1 & H2 & _). auto. Qed.

Lemma sorted_pairs i :
  0 <= i < numObjects d ->
  cellAt (sortedCells sort d) i
  = boidCell d (cellAt (sortedBoids sort d) i).
Proof.
  intros Hi. destruct sorted_lengths as [Hk Hv].
  destruct sorted_spec as (_ & _ & _ & Hperm).
  assert (Hin : In (cellAt (sortedCells sort d) i,
                    cellAt (sortedBoids sort d) i)
                   (combine (sortedCells sort d)
                            (sortedBoids sort d))).
  { unfold cellAt. rewrite <- combine_nth by congruence.
    apply nth_In. rewrite length_combine. lia. }
  apply (Permutation_in _ Hperm) in Hin.
  apply (In_combine_maps (boidCell d) (fun i : Z => i)) in Hin
    as (x & _ & -> & ->). reflexivity.
Qed.

Lemma sorted_values_perm :
  Permutation (sortedBoids sort d) (zrange 0 (Z.to_nat (numObjects d))).
Proof.
  destruct sorted_lengths as [Hk Hv].
  destruct sorted_spec as (_ & _ & _ & Hperm).
  apply (Permutation_map snd) in Hperm.
  rewrite !map_snd_combine in Hperm
    by (congruence
        || (unfold labelledCells, labelledBoids; now rewrite !length_map)).
  unfold labelledBoids in Hperm. now rewrite map_id in Hperm.
Qed.

Lemma sorted_keys_in_tables :
  Forall (fun g => 0 <= g < 10648) (sortedCells sort d).
Proof.
  destruct sorted_lengths as [Hk Hv].
  destruct sorted_spec as (_ & _ & _ & Hperm).
  apply (Permutation_map fst) in Hperm.
  rewrite !map_fst_combine in Hperm
    by (congruence
        || (unfold labelledCells, labelledBoids; now rewrite !length_map)).
  apply (Permutation_Forall (Permutation_sym Hperm)).
  unfold labelledCells. apply Forall_map, Forall_forall. intros i _.
  unfold boidCell. apply cellOf_in_lattice. unfold posOf.
  destruct (nth_in_or_default (Z.to_nat i) (dev_pos d) vzero) as [H | ->].
  - rewrite Forall_forall in d_in_domain. apply d_in_domain, H.
  - unfold inDomain, vzero, scene_scale; cbn; lra.
Qed.

Lemma scatteredAfterIdentify_built :
  2 <= numObjects d <= 10648 ->
  exists st en,
    scatteredAfterIdentify sort d
    = Ok (with_grid d (sortedBoids sort d) (sortedCells sort d) st en) /\
    (forall i, 0 <= i < numObjects d ->
       exists a b,
         rd st (cellAt (sortedCells sort d) i) = Ok a /\
         rd en (cellAt (sortedCells sort d) i) = Ok b /\
         0 <= a <= i /\ i <= b < numObjects d /\
         cellRange (numObjects d) (sortedCells sort d) i a b) /\
    (forall x, unoccupied (numObjects d) (sortedCells sort d) x ->
       (0 <= x < numObjects d -> rd st x = Ok (-1) /\ rd en x = Ok (-1)) /\
       (numObjects d <= x ->
          rd st x = rd (dev_gridCellStartIndices d) x /\
          rd en x = rd (dev_gridCellEndIndices d) x)).
Proof.
  intros HN2.
  destruct d_allocated as (HN & _ & _ & _ & _ & _ & Hst & Hen & _).
  rewrite d_cells in Hst, Hen.
  destruct sorted_lengths as [Hk Hv].
  unfold scatteredAfterIdentify, scatteredBeforeIdentify.
  rewrite computeAndSortIndices_built. cbn [bind].
  rewrite resetCellTables_eval
    by (cbn [with_indices numObjects dev_gridCellEndIndices
             dev_gridCellStartIndices]; lia).
  cbv zeta. cbn [bind].
  cbn [with_indices numObjects dev_gridCellEndIndices
       dev_gridCellStartIndices].
  set (n := Z.to_nat (numObjects d)).
  set (st3 := repeat (-1) n ++ skipn n (dev_gridCellStartIndices d)).
  set (en3 := repeat (-1) n ++ skipn n (dev_gridCellEndIndices d)).
  assert (Hl3 : forall buf : list Z,
             List.length buf = Z.to_nat 10648 ->
             Z.of_nat (List.length (repeat (-1) n ++ skipn n buf)) = 10648).
  { intros buf Hb. rewrite length_app, repeat_length, length_skipn. lia. }
  destruct (identify_ranges (numObjects d) 10648 (sortedCells sort d)
              st3 en3) as (st & en & Hrun & Hranges & Hframe).
  - lia.
  - lia.
  - destruct sorted_spec as (_ & _ & Hs & _). exact Hs.
  - apply sorted_keys_in_tables.
  - apply Hl3, Hst.
  - apply Hl3, Hen.
  - exists st, en. split; [| split; [exact Hranges |]].
    + unfold identifyCells.
      rewrite launch_boids;
        [| cbn; lia
         | intros; apply kernIdentifyCellStartEnd_idle;
           [cbn; lia | assumption]].
      cbn [with_start with_end with_indices numObjects
           dev_particleGridIndices dev_gridCellStartIndices
           dev_gridCellEndIndices fst snd].
      rewrite Hrun. cbn [bind]. reflexivity.
    + intros x Hx. destruct (Hframe x Hx) as [-> ->]. split.
      * intros Hx'. split; apply rd_reset_prefix; lia.
      * intros Hx'. split; apply reset_keeps_cell; lia.
Qed.
Lemma sorted_values_are_boids i :
  0 <= i < numObjects d ->
  0 <= cellAt (sortedBoids sort d) i < numObjects d.
Proof.
  intros Hi. destruct sorted_lengths as [_ Hv].
  assert (Hin : In (cellAt (sortedBoids sort d) i)
                   (sortedBoids sort d))
    by (unfold cellAt; apply nth_In; lia).
  apply (Permutation_in _ sorted_values_perm) in Hin.
  apply in_zrange in Hin. lia.
Qed.

Lemma stepSimulationScatteredGrid_empty_neighbour dt b x :
  2 <= numObjects d <= 10648 ->
  0 <= b < numObjects d ->
  In x (calculateBoidNeighborCells
          (vscale (vsub (posOf (dev_pos d) b) (mkvec3 (-110) (-110) (-110)))
                  (1 / 10)) 22) ->
  0 <= x ->
  x < numObjects d \/
  (rd (dev_gridCellStartIndices d) x = Ok (-1) /\
   rd (dev_gridCellEndIndices d) x = Ok (-1)) ->
  (forall q, 0 <= q < numObjects d -> boidCell d q <> x) ->
  stepSimulationScatteredGrid sort dt d = OutOfBounds.
Proof.
  intros HN Hb Hin Hx0 Hx Hempty.
  destruct (scatteredAfterIdentify_built HN)
    as (st & en & Hrun & _ & Hframe).
  destruct sorted_lengths as [Hk Hv].
  destruct d_allocated as (_ & Hp & _).
  assert (Hunocc : unoccupied (numObjects d) (sortedCells sort d) x).
  { intros i Hi. rewrite (sorted_pairs i Hi).
    apply Hempty, sorted_values_are_boids, Hi. }
  assert (Hsentinel : rd st x = Ok (-1) /\ rd en x = Ok (-1)).
  { destruct (Hframe x Hunocc) as [Hclear Hkept].
    destruct (Z.ltb_spec x (numObjects d)) as [Hlt | Hge].
    - apply Hclear. lia.
    - destruct Hx as [Hx | [Hs He]]; [lia |].
      destruct (Hkept Hge) as [-> ->]. split; assumption. }
  destruct Hsentinel as [Hs He].
  assert (Hlisted : In b (sortedBoids sort d)).
  { apply (Permutation_in _ (Permutation_sym sorted_values_perm)).
    apply in_zrange. lia. }
  apply (In_nth _ _ 0) in Hlisted as (k & Hk' & Hnth).
  unfold stepSimulationScatteredGrid. rewrite Hrun. cbn [bind].
  cbn [with_grid with_end with_start with_indices numObjects gridSideCount
       gridMinimum gridInverseCellWidth gridCellWidth
       dev_gridCellStartIndices dev_gridCellEndIndices
       dev_particleArrayIndices dev_pos dev_vel1 dev_vel2 dev_stdout
       fst snd].
  rewrite d_side, d_min, d_inv.
  match goal with
  | |- bind (launch ?blocks ?body ?s) _ = _ =>
      assert (Hfail : launch blocks body s = OutOfBounds);
      [| rewrite Hfail; reflexivity]
  end.
  apply (foldM_fails (fun _ => True) _ (Z.of_nat k)).
  - apply in_zrange.
    change (blocksPerGrid (with_grid _ _ _ _ _)) with (blocksPerGrid d).
    pose proof (blocks_cover (numObjects d) ltac:(lia)).
    unfold blocksPerGrid. lia.
  - intros o _.
    apply (kernUpdateVelNeighborSearchScattered_sentinel _ _ _ _ _ _ _ _ _ _
             _ _ b (posOf (dev_pos d) b) x).
    + lia.
    + rewrite (rd_nth _ _ 0) by lia.
      replace (Z.to_nat (Z.of_nat k)) with k by lia. now rewrite Hnth.
    + apply rd_nth. lia.
    + exact Hin.
    + exact Hx0.
    + exact Hs.
    + exact He.
  - trivial.
  - exact I.
Qed.

(** *** The coherent step on the built grid *)

Hypothesis d_N : 2 <= numObjects d <= 10648.
Hypothesis d_tables :
  tablesInRange (numObjects d) 10648
    (dev_gridCellStartIndices d) (dev_gridCellEndIndices d).

Lemma coherentAfterIdentify_ready :
  exists st en,
    coherentAfterIdentify sort d
    = Ok (with_grid d (sortedBoids sort d) (sortedCells sort d)
            st en) /\
    List.length st = Z.to_nat 10648 /\ List.length en = Z.to_nat 10648 /\
    tablesInRange (numObjects d) 10648 st en.
Proof.
  destruct (scatteredAfterIdentify_built d_N)
    as (st & en & Hrun & Hranges & Hframe).
  destruct sorted_lengths as [Hk Hv].
  exists st, en. split.
  { unfold coherentAfterIdentify. rewrite beforeIdentify_commute. exact Hrun. }
  destruct (scatteredAfterIdentify_lengths _ _ _ Hrun) as [Hls Hle].
  cbn in Hls, Hle.
  destruct d_allocated as (_ & _ & _ & _ & _ & _ & Hst & Hen & _).
  rewrite d_cells in Hst, Hen.
  split; [congruence |]. split; [congruence |].
  intros x Hx.
  destruct (in_dec Z.eq_dec x (sortedCells sort d)) as [Hin | Hnin].
  - apply (In_nth _ _ 0) in Hin as (k & Hk' & Hnth).
    destruct (Hranges (Z.of_nat k) ltac:(lia))
      as (a & b & Ha & Hb & Hab & Hb' & _).
    unfold cellAt in Ha, Hb. rewrite Nat2Z.id, Hnth in Ha, Hb.
    exists a, b. split; [exact Ha |]. split; [exact Hb |]. right; lia.
  - assert (Hun : unoccupied (numObjects d) (sortedCells sort d) x).
    { intros i Hi E. apply Hnin. rewrite <- E. unfold cellAt.
      apply nth_In. lia. }
    destruct (Hframe x Hun) as [Hclear Hkept].
    destruct (Z.ltb_spec x (numObjects d)) as [Hlt | Hge].
    + destruct (Hclear ltac:(lia)) as [Hs He].
      exists (-1), (-1). split; [exact Hs |]. split; [exact He |].
      left; split; reflexivity.
    + destruct (Hkept Hge) as [Hs He].
      destruct (d_tables x Hx) as (s & e & Hs' & He' & Hse).
      exists s, e. rewrite Hs, He. auto.
Qed.

Lemma stepSimulationCoherentGrid_ready dt :
  exists d', stepSimulationCoherentGrid sort dt d = Ok d' /\ coherentReady d'.
Proof.
  destruct coherentAfterIdentify_ready
    as (st & en & Hrun & Hls & Hle & Htab).
  destruct d_allocated
    as (HN & Hp & Hv1 & Hv2 & Hai & Hgi & Hst & Hen & Hpc & Hvc).
  destruct sorted_lengths as [Hk Hv].
  pose proof (blocks_cover _ HN) as Hcover.
  unfold stepSimulationCoherentGrid. rewrite Hrun.
  unfold blocksPerGrid.
  cbn [with_grid with_end with_start with_indices with_co with_vel1 with_vel2
       with_pos with_stdout numObjects dev_pos dev_vel1 dev_vel2
       dev_particleArrayIndices dev_particleGridIndices
       dev_gridCellStartIndices dev_gridCellEndIndices dev_pos_co dev_vel_co
       gridCellCount gridSideCount gridCellWidth gridInverseCellWidth
       gridMinimum dev_stdout fst snd bind].
  rewrite launch_kernPropogateCoherency_gather;
    [| lia | lia
     | intros i Hi; pose proof (sorted_values_are_boids i Hi); lia
     | lia | lia].
  set (pc := map _ _ ++ skipn _ (dev_pos_co d)).
  set (vc := map _ _ ++ skipn _ (dev_vel_co d)).
  assert (Hlpc : List.length pc = Z.to_nat (numObjects d))
    by (unfold pc; rewrite length_pointwise; lia).
  assert (Hlvc : List.length vc = Z.to_nat (numObjects d))
    by (unfold vc; rewrite length_pointwise; lia).
  cbn [with_grid with_end with_start with_indices with_co with_vel1 with_vel2
       with_pos with_stdout numObjects dev_pos dev_vel1 dev_vel2
       dev_particleArrayIndices dev_particleGridIndices
       dev_gridCellStartIndices dev_gridCellEndIndices dev_pos_co dev_vel_co
       gridCellCount gridSideCount gridCellWidth gridInverseCellWidth
       gridMinimum dev_stdout fst snd bind].
  rewrite d_side.
  destruct (launch_kernUpdateVelNeighborSearchCoherent_total
              (Z.quot (numObjects d + blockSize - 1) blockSize)
              (numObjects d) (gridMinimum d) (gridInverseCellWidth d)
              (gridCellWidth d) st en pc vc (dev_vel1 d) (dev_stdout d)
              Htab ltac:(lia) ltac:(lia) ltac:(lia) ltac:(lia))
    as ([v1' out'] & -> & Hl1).
  cbn [fst] in Hl1.
  cbn [with_grid with_end with_start with_indices with_co with_vel1 with_vel2
       with_pos with_stdout numObjects dev_pos dev_vel1 dev_vel2
       dev_particleArrayIndices dev_particleGridIndices
       dev_gridCellStartIndices dev_gridCellEndIndices dev_pos_co dev_vel_co
       gridCellCount gridSideCount gridCellWidth gridInverseCellWidth
       gridMinimum dev_stdout fst snd bind].
  rewrite launch_kernUpdatePos by lia.
  cbn [bind]. eexists. split; [reflexivity |].
  unfold coherentReady, allocated.
  cbn [with_grid with_end with_start with_indices with_co with_vel1 with_vel2
       with_pos with_stdout numObjects dev_pos dev_vel1 dev_vel2
       dev_particleArrayIndices dev_particleGridIndices
       dev_gridCellStartIndices dev_gridCellEndIndices dev_pos_co dev_vel_co
       gridCellCount gridSideCount gridCellWidth gridInverseCellWidth
       gridMinimum dev_stdout fst snd].
  rewrite d_cells, length_pointwise by lia.
  repeat split; try assumption; try congruence; try lia.
  apply Forall_app. split.
  - apply Forall_map, Forall_forall. intros i _. apply integrated_in_domain.
  - rewrite skipn_all2 by lia. constructor.
Qed.

End GridBuild.

(** X16: on buffers allocated by [initSimulation], with its grid, two or
    more boids and no more boids than cells, all positions inside the
    domain and a sort that orders the keys and permutes the pairs, the
    stages of the scattered step up to [kernIdentifyCellStartEnd]
    complete and build the grid: every boid is listed once in
    [dev_particleArrayIndices], entry [i] of [dev_particleGridIndices] is
    the cell of the boid that entry [i] lists, the cells are in ascending
    order, and for the cell of every boid the tables give the first and
    the last entry of the cell.  A cell without boids reads -1 in both
    tables when its identifier is below [numObjects], and keeps what the
    tables held before the step otherwise. *)
Theorem X16_grid_build sort d :
  sortsByKey sort ->
  allocated d ->
  gridSideCount d = 22 ->
  gridMinimum d = mkvec3 (-110) (-110) (-110) ->
  gridInverseCellWidth d = (1 / 10)%R ->
  gridCellCount d = 10648 ->
  Forall inDomain (dev_pos d) ->
  2 <= numObjects d <= 10648 ->
  exists ai gi st en,
    scatteredAfterIdentify sort d = Ok (with_grid d ai gi st en) /\
    Permutation ai (zrange 0 (Z.to_nat (numObjects d))) /\
    Sorted Z.le gi /\
    (forall i, 0 <= i < numObjects d ->
       cellAt gi i
       = cellOf 22 (mkvec3 (-110) (-110) (-110)) (1 / 10)
           (posOf (dev_pos d) (cellAt ai i)) /\
       exists a b,
         rd st (cellAt gi i) = Ok a /\ rd en (cellAt gi i) = Ok b /\
         0 <= a <= i /\ i <= b < numObjects d /\
         cellRange (numObjects d) gi i a b) /\
    (forall x, unoccupied (numObjects d) gi x ->
       (0 <= x < numObjects d -> rd st x = Ok (-1) /\ rd en x = Ok (-1)) /\
       (numObjects d <= x ->
          rd st x = rd (dev_gridCellStartIndices d) x /\
          rd en x = rd (dev_gridCellEndIndices d) x)).
Proof.
  intros Hsort Hd Hside Hmin Hinv Hcells Hdom HN.
  destruct (scatteredAfterIdentify_built sort d Hsort Hd Hside Hmin Hinv
              Hcells Hdom HN) as (st & en & Hrun & Hranges & Hframe).
  eexists _, _, st, en. split; [exact Hrun |].
  split; [apply sorted_values_perm; assumption |].
  split.
  - destruct (Hsort
                (map (fun i => cellOf 22 (mkvec3 (-110) (-110) (-110)) (1 / 10)
                                 (posOf (dev_pos d) i))
                     (zrange 0 (Z.to_nat (numObjects d))))
                (map (fun i : Z => i) (zrange 0 (Z.to_nat (numObjects d)))))
      as (_ & _ & Hs & _); [now rewrite !length_map | exact Hs].
  - split; [| exact Hframe].
    intros i Hi. split; [| apply Hranges; assumption].
    apply (sorted_pairs sort d Hsort); assumption.
Qed.

Lemma allocated_twoBoidsSwapped :
  allocated (twoBoidsSwapped cleanTable cleanTable).
Proof.
  unfold allocated, twoBoidsSwapped, gridDevice, cleanTable.
  cbn [numObjects dev_pos dev_vel1 dev_vel2 dev_particleArrayIndices
       dev_particleGridIndices dev_gridCellStartIndices
       dev_gridCellEndIndices dev_pos_co dev_vel_co gridCellCount].
  rewrite !repeat_length. repeat split; reflexivity || lia.
Qed.

(** X16 at the two boids stored against the cell order, with the
    insertion sort. *)
Lemma X16_grid_build_witness :
  exists ai gi st en,
    scatteredAfterIdentify insertion_sort_by_key
      (twoBoidsSwapped cleanTable cleanTable)
    = Ok (with_grid (twoBoidsSwapped cleanTable cleanTable) ai gi st en) /\
    Permutation ai (zrange 0 (Z.to_nat 2)) /\
    Sorted Z.le gi /\
    (forall i, 0 <= i < 2 ->
       cellAt gi i
       = cellOf 22 (mkvec3 (-110) (-110) (-110)) (1 / 10)
           (posOf posSwapped (cellAt ai i)) /\
       exists a b,
         rd st (cellAt gi i) = Ok a /\ rd en (cellAt gi i) = Ok b /\
         0 <= a <= i /\ i <= b < 2 /\
         cellRange 2 gi i a b) /\
    (forall x, unoccupied 2 gi x ->
       (0 <= x < 2 -> rd st x = Ok (-1) /\ rd en x = Ok (-1)) /\
       (2 <= x -> rd st x = rd cleanTable x /\ rd en x = rd cleanTable x)).
Proof.
  apply (X16_grid_build insertion_sort_by_key
           (twoBoidsSwapped cleanTable cleanTable)).
  - apply insertion_sort_sortsByKey.
  - apply allocated_twoBoidsSwapped.
  - reflexivity.
  - reflexivity.
  - reflexivity.
  - reflexivity.
  - repeat constructor; unfold scene_scale; simpl; lra.
  - cbn. lia.
Defined.

(** X18: a scattered step from a state as in X16 does not complete when
    some boid has, among its candidate cells, a cell that holds no boid
    and whose identifier is below [numObjects], or for which the tables
    held -1 before the step: both tables hold -1 for that cell when the
    evaluator runs, and the thread of the boid reads
    [dev_particleArrayIndices[-1]]. *)
Theorem X18_scattered_step_stops_at_an_empty_cell sort d dt b x :
  sortsByKey sort ->
  allocated d ->
  gridSideCount d = 22 ->
  gridMinimum d = mkvec3 (-110) (-110) (-110) ->
  gridInverseCellWidth d = (1 / 10)%R ->
  gridCellCount d = 10648 ->
  Forall inDomain (dev_pos d) ->
  2 <= numObjects d <= 10648 ->
  0 <= b < numObjects d ->
  In x (calculateBoidNeighborCells
          (vscale (vsub (posOf (dev_pos d) b) (mkvec3 (-110) (-110) (-110)))
                  (1 / 10)) 22) ->
  0 <= x ->
  x < numObjects d \/
  (rd (dev_gridCellStartIndices d) x = Ok (-1) /\
   rd (dev_gridCellEndIndices d) x = Ok (-1)) ->
  (forall q, 0 <= q < numObjects d ->
     cellOf 22 (mkvec3 (-110) (-110) (-110)) (1 / 10) (posOf (dev_pos d) q)
     <> x) ->
  stepSimulationScatteredGrid sort dt d = OutOfBounds.
Proof.
  intros Hsort Hd Hside Hmin Hinv Hcells Hdom HN Hb Hin Hx0 Hx Hempty.
  apply (stepSimulationScatteredGrid_empty_neighbour sort d Hsort Hd Hside
           Hmin Hinv Hcells Hdom dt b x); assumption.
Qed.

Lemma rd_cleanTable x : 0 <= x < 10648 -> rd cleanTable x = Ok (-1).
Proof.
  intros Hx. unfold cleanTable.
  rewrite (rd_nth _ x 0) by (rewrite repeat_length; lia).
  f_equal. apply nth_repeat_lt. lia.
Qed.

Lemma cellOf_swapped q :
  0 <= q < 2 ->
  cellOf 22 (mkvec3 (-110) (-110) (-110)) (1 / 10) (posOf posSwapped q)
  = if q =? 0 then 5582 else 5572.
Proof.
  intros Hq. assert (q = 0 \/ q = 1) as [-> | ->] by lia;
    unfold cellOf, posOf, posSwapped, to_ivec3; simpl.
  - repeat trunc_to 16. repeat trunc_to 11. reflexivity.
  - repeat trunc_to 6. repeat trunc_to 11. reflexivity.
Qed.

(** X18 at the two boids stored against the cell order, over cleared
    tables: the cell 5571 beside the boid at (-50, 0, 0) is empty. *)
Lemma X18_scattered_step_stops_at_an_empty_cell_witness :
  stepSimulationScatteredGrid insertion_sort_by_key 1
    (twoBoidsSwapped cleanTable cleanTable) = OutOfBounds.
Proof.
  apply (X18_scattered_step_stops_at_an_empty_cell insertion_sort_by_key
           (twoBoidsSwapped cleanTable cleanTable) 1 1 5571).
  - apply insertion_sort_sortsByKey.
  - apply allocated_twoBoidsSwapped.
  - reflexivity.
  - reflexivity.
  - reflexivity.
  - reflexivity.
  - repeat constructor; unfold scene_scale; simpl; lra.
  - cbn. lia.
  - cbn. lia.
  - change (posOf (dev_pos (twoBoidsSwapped cleanTable cleanTable)) 1)
      with (mkvec3 (-50) 0 0).
    rewrite neighbors_swapped_0. right; left; reflexivity.
  - lia.
  - right. split; apply rd_cleanTable; lia.
  - intros q Hq.
    change (dev_pos (twoBoidsSwapped cleanTable cleanTable)) with posSwapped.
    rewrite cellOf_swapped by exact Hq.
    destruct (q =? 0); lia.
Defined.

(** ** The display buffers *)








(** ** Initialisation *)

Lemma launch_kernGenerateRandomPosArray blocks gen time N scale arr :
  0 <= N <= blocks * blockSize ->
  N <= Z.of_nat (List.length arr) ->
  launch blocks (kernGenerateRandomPosArray gen time N scale) arr
  = Ok (map (fun i => mkvec3 (scale * vx (gen (IZR time) i))
                             (scale * vy (gen (IZR time) i))
                             (scale * vz (gen (IZR time) i)))
            (zrange 0 (Z.to_nat N))
        ++ skipn (Z.to_nat N) arr).
Proof.
  intros HN Ha.
  rewrite (launch_guarded _ blocks N);
    [| assumption
     | intros i s Hi; unfold kernGenerateRandomPosArray;
       destruct (Z.ltb_spec i N); [lia | reflexivity]].
  apply foldM_pointwise; [lia |].
  intros i buf Hi Hlen Hrd. unfold kernGenerateRandomPosArray.
  destruct (Z.ltb_spec i N); [reflexivity | lia].
Qed.

(** X20: when the generator draws every component from [-1, 1] and the
    position buffer holds [N] boids, [initSimulation] completes.  It sets
    [numObjects] to [N], puts boid [i] at [scene_scale] times the vector
    drawn for time 1 and index [i], inside the domain, and computes a
    grid of cell width 10, 22 cells a side and 10648 cells, whose minimum
    corner is 110 below what [gridMinimum] held on each axis.  It writes
    no velocity: [dev_vel1] and [dev_vel2] hold what the allocation
    returned. *)
Theorem X20_initSimulation gen N fresh :
  0 <= N -> N <= Z.of_nat (List.length (dev_pos fresh)) ->
  (forall t i, (-1 <= vx (gen t i) <= 1)%R /\ (-1 <= vy (gen t i) <= 1)%R /\
               (-1 <= vz (gen t i) <= 1)%R) ->
  exists d,
    initSimulation gen N fresh = Ok d /\
    numObjects d = N /\
    List.length (dev_pos d) = List.length (dev_pos fresh) /\
    (forall i, 0 <= i < N ->
       rd (dev_pos d) i
       = Ok (mkvec3 (scene_scale * vx (gen 1%R i)) (scene_scale * vy (gen 1%R i))
                    (scene_scale * vz (gen 1%R i))) /\
       inDomain (posOf (dev_pos d) i)) /\
    gridCellWidth d = 10%R /\ gridInverseCellWidth d = (1 / 10)%R /\
    gridSideCount d = 22 /\ gridCellCount d = 10648 /\
    gridMinimum d = mkvec3 (vx (gridMinimum fresh) - 110)
                           (vy (gridMinimum fresh) - 110)
                           (vz (gridMinimum fresh) - 110) /\
    dev_vel1 d = dev_vel1 fresh /\ dev_vel2 d = dev_vel2 fresh.
Proof.
  intros HN Hlen Hgen.
  pose proof (blocks_cover _ HN) as Hcover.
  unfold initSimulation. cbn [numObjects dev_pos].
  rewrite launch_kernGenerateRandomPosArray by lia.
  cbn [bind]. eexists. split; [reflexivity |].
  rewrite gridCellWidth_initGrid, gridInverseCellWidth_initGrid,
    gridSideCount_initGrid, gridCellCount_initGrid.
  set (f := fun i => mkvec3 (scene_scale * vx (gen 1%R i))
                            (scene_scale * vy (gen 1%R i))
                            (scene_scale * vz (gen 1%R i))).
  assert (Hrd : forall i, 0 <= i < N ->
            rd (map f (zrange 0 (Z.to_nat N))
                ++ skipn (Z.to_nat N) (dev_pos fresh)) i = Ok (f i))
    by (intros i Hi; apply (rd_app_prefix f); lia).
  split; [reflexivity |].
  split; [cbn; apply length_pointwise; lia |].
  split.
  - intros i Hi. cbn [initGrid with_pos dev_pos].
    split; [apply Hrd; assumption |].
    unfold posOf.
    assert (Hn : nth (Z.to_nat i)
                   (map f (zrange 0 (Z.to_nat N))
                    ++ skipn (Z.to_nat N) (dev_pos fresh)) vzero = f i).
    { pose proof (Hrd i Hi) as H.
      rewrite (rd_nth _ i vzero) in H
        by (rewrite length_pointwise; lia).
      now injection H. }
    rewrite Hn. destruct (Hgen 1%R i) as (Hx & Hy & Hz).
    unfold inDomain, f, scene_scale; cbn [vx vy vz]. lra.
  - repeat split; try reflexivity.
    unfold initGrid; cbn [gridMinimum with_pos].
    rewrite halfSideCount_initGrid.
    unfold rule1Distance, rule2Distance, rule3Distance.
    rewrite (Rmax_left 5 3) by lra. rewrite (Rmax_left 5 5) by lra.
    f_equal; simpl; lra.
Qed.

(** X20 at three boids drawn at a corner, the centre and a face of the
    cube. *)
Lemma X20_initSimulation_witness :
  exists d,
    initSimulation
      (fun _ i => if i =? 0 then mkvec3 1 1 1
                  else if i =? 1 then vzero else mkvec3 (-1) 0 0)
      3 fresh3 = Ok d /\
    numObjects d = 3 /\
    List.length (dev_pos d) = List.length (dev_pos fresh3) /\
    (forall i, 0 <= i < 3 ->
       rd (dev_pos d) i
       = Ok (mkvec3
               (scene_scale
                * vx (if i =? 0 then mkvec3 1 1 1
                      else if i =? 1 then vzero else mkvec3 (-1) 0 0))
               (scene_scale
                * vy (if i =? 0 then mkvec3 1 1 1
                      else if i =? 1 then vzero else mkvec3 (-1) 0 0))
               (scene_scale
                * vz (if i =? 0 then mkvec3 1 1 1
                      else if i =? 1 then vzero else mkvec3 (-1) 0 0))) /\
       inDomain (posOf (dev_pos d) i)) /\
    gridCellWidth d = 10%R /\ gridInverseCellWidth d = (1 / 10)%R /\
    gridSideCount d = 22 /\ gridCellCount d = 10648 /\
    gridMinimum d = mkvec3 (vx (gridMinimum fresh3) - 110)
                           (vy (gridMinimum fresh3) - 110)
                           (vz (gridMinimum fresh3) - 110) /\
    dev_vel1 d = dev_vel1 fresh3 /\ dev_vel2 d = dev_vel2 fresh3.
Proof.
  apply (X20_initSimulation
           (fun _ i => if i =? 0 then mkvec3 1 1 1
                       else if i =? 1 then vzero else mkvec3 (-1) 0 0)
           3 fresh3).
  - lia.
  - cbn. lia.
  - intros t i. destruct (i =? 0); [cbn; lra |].
    destruct (i =? 1); cbn; lra.
Defined.

(** ** A boid out of reach of the others *)

Lemma filter_none {A} (f : A -> bool) l :
  (forall x, In x l -> f x = false) -> filter f l = [].
Proof.
  induction l as [| a l IH]; intros H; [reflexivity |]. cbn [filter].
  rewrite (H a (or_introl eq_refl)). apply IH.
  intros x Hx. apply H. right; exact Hx.
Qed.

Lemma neighborsWithin_far N pos p dist :
  (forall q, 0 <= q < N -> q <> p ->
     (dist <= glm_distance (posOf pos p) (posOf pos q))%R) ->
  neighborsWithin N pos p dist = [].
Proof.
  intros Hfar. unfold neighborsWithin. apply filter_none.
  intros q Hq. apply in_zrange in Hq. unfold isNeighbor.
  destruct (Z.eqb_spec q p) as [-> | Hne]; [reflexivity |].
  cbn [negb andb]. apply Rltb_false, Hfar; [lia | assumption].
Qed.

Lemma ruleVelocity_far N pos vel p :
  (forall q, 0 <= q < N -> q <> p ->
     (rule1Distance <= glm_distance (posOf pos p) (posOf pos q))%R) ->
  ruleVelocity_spec N pos vel p = velOf vel p.
Proof.
  intros Hfar.
  unfold ruleVelocity_spec, cohesion_spec, separation_spec, alignment_spec.
  rewrite !neighborsWithin_far;
    try (intros q Hq Hne; specialize (Hfar q Hq Hne);
         unfold rule1Distance, rule2Distance, rule3Distance in *; lra).
  cbn [map]. unfold vsum. cbn [fold_left].
  destruct (velOf vel p) as [x y z].
  unfold vadd, vscale, vzero; cbn [vx vy vz]. f_equal; lra.
Qed.

(** X21: under the brute-force evaluator a boid that has no other boid
    closer than [rule1Distance], the largest of the three rule
    distances, keeps its velocity: the thread stores the velocity the
    boid had, cut to [maxSpeed] if it was longer, whatever the other
    boids and their number are. *)
Theorem X21_boid_out_of_reach_keeps_velocity N pos vel1 vel2 out p :
  0 <= p < N ->
  Z.of_nat (List.length pos) = N -> Z.of_nat (List.length vel1) = N ->
  p < Z.of_nat (List.length vel2) ->
  (forall q, 0 <= q < N -> q <> p ->
     (rule1Distance <= glm_distance (posOf pos p) (posOf pos q))%R) ->
  exists vel2',
    kernUpdateVelocityBruteForce N pos vel1 p (vel2, out) = Ok (vel2', out) /\
    rd vel2' p = Ok (limitSpeed (velOf vel1 p)) /\
    ((glm_length (velOf vel1 p) <= maxSpeed)%R ->
     rd vel2' p = Ok (velOf vel1 p)).
Proof.
  intros Hp Hpos Hvel Hv2 Hfar.
  rewrite kernUpdateVelocityBruteForce_spec by assumption.
  rewrite ruleVelocity_far by assumption.
  eexists. split; [reflexivity |].
  assert (Hrd : rd (set_nth vel2 (Z.to_nat p) (limitSpeed (velOf vel1 p))) p
                = Ok (limitSpeed (velOf vel1 p))).
  { apply (rd_wr_same vel2 p). apply wr_Ok. lia. }
  split; [exact Hrd |].
  intros Hslow. now rewrite Hrd, limitSpeed_slow.
Qed.

(** X21 at two boids 50 apart, the first moving at speed 1/2. *)
Lemma X21_boid_out_of_reach_keeps_velocity_witness :
  exists vel2',
    kernUpdateVelocityBruteForce 2 [vzero; mkvec3 50 0 0]
      [mkvec3 (1 / 2) 0 0; vzero] 0 ([vzero; vzero], []) = Ok (vel2', []) /\
    rd vel2' 0
    = Ok (limitSpeed (velOf [mkvec3 (1 / 2) 0 0; vzero] 0)) /\
    ((glm_length (velOf [mkvec3 (1 / 2) 0 0; vzero] 0) <= maxSpeed)%R ->
     rd vel2' 0 = Ok (velOf [mkvec3 (1 / 2) 0 0; vzero] 0)).
Proof.
  apply (X21_boid_out_of_reach_keeps_velocity 2 [vzero; mkvec3 50 0 0]
           [mkvec3 (1 / 2) 0 0; vzero] [vzero; vzero] [] 0).
  - lia.
  - reflexivity.
  - reflexivity.
  - cbn. lia.
  - intros q Hq Hne. assert (q = 1) as -> by lia.
    unfold rule1Distance, glm_distance, glm_length, posOf. simpl.
    apply Rsqr_incr_0_var; [| apply sqrt_pos].
    unfold Rsqr. rewrite sqrt_sqrt by (unfold glm_dot; simpl; nra).
    unfold glm_dot; simpl. lra.
Defined.

(** ** The coherent step, step after step *)

(** X22: the coherent step never leaves its buffers.  From a state with
    the buffers and the grid of [initSimulation], between 2 and 10648
    boids inside the domain and boundary tables whose pairs are cleared
    or designate sorted entries, and with a sort that orders the keys
    and permutes the pairs, [stepSimulationCoherentGrid] completes for
    every time step, and the state it leaves satisfies the same
    conditions, so that the step can be repeated. *)
Theorem X22_coherent_step_is_memory_safe sort dt d :
  sortsByKey sort ->
  coherentReady d ->
  exists d',
    stepSimulationCoherentGrid sort dt d = Ok d' /\ coherentReady d'.
Proof.
  intros Hsort (Hd & Hside & Hmin & Hinv & Hcells & HN & Hdom & Htab).
  rewrite Hcells in Htab.
  exact (stepSimulationCoherentGrid_ready sort d Hsort Hd Hside Hmin Hinv
           Hcells Hdom HN Htab dt).
Qed.

Lemma coherentReady_twoBoidsSwapped :
  coherentReady (twoBoidsSwapped cleanTable cleanTable).
Proof.
  split; [apply allocated_twoBoidsSwapped |].
  repeat split; try reflexivity; try (cbn; lia).
  - repeat constructor; unfold scene_scale; simpl; lra.
  - intros x Hx. exists (-1), (-1).
    change (gridCellCount (twoBoidsSwapped cleanTable cleanTable))
      with 10648 in Hx.
    split; [apply rd_cleanTable; exact Hx |].
    split; [apply rd_cleanTable; exact Hx |]. left; split; reflexivity.
Qed.

(** X22 at the two boids stored against the cell order, over cleared
    tables, with the insertion sort. *)
Lemma X22_coherent_step_is_memory_safe_witness :
  exists d',
    stepSimulationCoherentGrid insertion_sort_by_key 1
      (twoBoidsSwapped cleanTable cleanTable) = Ok d' /\
    coherentReady d'.
Proof.
  apply (X22_coherent_step_is_memory_safe insertion_sort_by_key 1
           (twoBoidsSwapped cleanTable cleanTable)).
  - apply insertion_sort_sortsByKey.
  - apply coherentReady_twoBoidsSwapped.
Defined.

(** ** What the coherent evaluator does not examine *)

Lemma foldM_ext {S} (f g : Z -> S -> result S) l :
  (forall i s, In i l -> f i s = g i s) ->
  forall s, foldM f l s = foldM g l s.
Proof.
  induction l as [| i l IH]; intros H s; [reflexivity |]. cbn [foldM].
  rewrite (H i s (or_introl eq_refl)).
  destruct (g i s) as [s1 |]; [| reflexivity]. cbn [bind].
  apply IH. intros j t Hj. apply H. right; exact Hj.
Qed.

Lemma applyRules_ext cp (pos pos' vel vel' : list vec3) b a :
  rd pos' b = rd pos b -> rd vel' b = rd vel b ->
  applyRules cp pos' vel' b a = applyRules cp pos vel b a.
Proof. intros Hp Hv. unfold applyRules. now rewrite Hp, Hv. Qed.

(** X23: the loop of the coherent evaluator over a cell runs over the
    entries [start .. end - 1].  An entry [q] other than the thread's own
    that lies in none of these ranges, as the last entry of each cell
    does when the tables hold the first and the last entry of the cells,
    is not examined: the thread stores the same velocity whatever
    position and velocity entry [q] holds. *)
Theorem X23_coherent_thread_ignores_last_entries
    N res gmin inv w st en (pos vel1 pos' vel1' : list vec3) li o q :
  li <> q ->
  (forall k, k <> q -> rd pos' k = rd pos k /\ rd vel1' k = rd vel1 k) ->
  (forall p c s e,
     rd pos li = Ok p ->
     In c (calculateBoidNeighborCells (vscale (vsub p gmin) inv) res) ->
     rd st c = Ok s -> rd en c = Ok e -> ~ (s <= q < e)) ->
  kernUpdateVelNeighborSearchCoherent N res gmin inv w st en pos' vel1' li o
  = kernUpdateVelNeighborSearchCoherent N res gmin inv w st en pos vel1 li o.
Proof.
  intros Hli Hsame Hout. unfold kernUpdateVelNeighborSearchCoherent.
  destruct (li >=? N); [reflexivity |].
  destruct (Hsame li Hli) as [Hp Hv]. rewrite Hp.
  destruct (rd pos li) as [p |] eqn:Ep; [| reflexivity]. cbn [bind].
  rewrite (foldM_ext
             (visitCell 0 Ok li p pos' vel1' st en)
             (visitCell 0 Ok li p pos vel1 st en)).
  - destruct (foldM _ _ accum0) as [a |]; [| reflexivity]. cbn [bind].
    unfold storeVelocity. destruct o as [vel2 out]. now rewrite Hv.
  - intros c a Hc. unfold visitCell.
    destruct (c <? 0); [reflexivity |].
    destruct (rd st c) as [s |] eqn:Es; [| reflexivity]. cbn [bind].
    destruct (rd en c) as [e |] eqn:Ee; [| reflexivity]. cbn [bind].
    apply foldM_ext. intros j a0 Hj. cbn [bind].
    destruct (li =? j); [reflexivity |].
    apply in_zrange in Hj.
    assert (Hjq : j <> q).
    { intros ->. apply (Hout p c s e eq_refl Hc Es Ee). lia. }
    destruct (Hsame j Hjq) as [Hpj Hvj].
    apply applyRules_ext; assumption.
Qed.

(** X23 at two boids of one cell, sorted entries 0 and 1: the thread of
    entry 0 does not examine entry 1, 1 away from it. *)
Lemma X23_coherent_thread_ignores_last_entries_witness :
  kernUpdateVelNeighborSearchCoherent 2 1 vzero 1 1 [0] [1]
    [vzero; mkvec3 (1 / 4) 0 0] [vzero; mkvec3 1 0 0] 0 ([vzero; vzero], [])
  = kernUpdateVelNeighborSearchCoherent 2 1 vzero 1 1 [0] [1]
      [vzero; mkvec3 (1 / 8) 0 0] [vzero; vzero] 0 ([vzero; vzero], []).
Proof.
  apply (X23_coherent_thread_ignores_last_entries 2 1 vzero 1 1 [0] [1]
           [vzero; mkvec3 (1 / 8) 0 0] [vzero; vzero]
           [vzero; mkvec3 (1 / 4) 0 0] [vzero; mkvec3 1 0 0]
           0 ([vzero; vzero], []) 1).
  - lia.
  - intros k Hk. unfold rd.
    destruct (k <? 0); [split; reflexivity |].
    destruct (Z.to_nat k) as [| [| m]] eqn:E; [| lia |];
      split; try reflexivity; destruct m; reflexivity.
  - intros p c s e _ Hc Hs He.
    assert (Hc' : c = -1 \/ 0 <= c < 1 * 1 * 1).
    { unfold calculateBoidNeighborCells in Hc.
      destruct (neighborSigns _) as [[x y] z].
      apply in_map_iff in Hc as (dd & <- & _). apply filterCell_range. }
    destruct Hc' as [-> | Hc']; [discriminate Hs |].
    assert (c = 0) as -> by lia.
    injection Hs as <-. injection He as <-. lia.
Defined.

(** ** Which velocity moves a boid *)

Lemma launch_kernUpdatePos_lengths blocks N dt vel pos pos' :
  launch blocks (kernUpdatePos N dt vel) pos = Ok pos' ->
  0 < N <= blocks * blockSize ->
  N <= Z.of_nat (List.length pos) /\ N <= Z.of_nat (List.length vel).
Proof.
  intros H HN.
  assert (Hlen : List.length pos' = List.length pos).
  { apply (foldM_invariant (fun s => List.length s = List.length pos)
             (kernUpdatePos N dt vel) (threadIds blocks))
      with (s := pos) (s' := pos'); [| reflexivity | exact H].
    intros i s s' _ Hbody Hs. unfold kernUpdatePos in Hbody.
    destruct (i >=? N); [injection Hbody as <-; exact Hs |].
    inv_bind Hbody. apply wr_length in Hbody. congruence. }
  assert (Hlast : N - 1 < N ->
                  N - 1 < Z.of_nat (List.length pos')
                  /\ N - 1 < Z.of_nat (List.length vel)).
  { apply (foldM_slots (kernUpdatePos N dt vel)
             (fun i s => i < N -> i < Z.of_nat (List.length s)
                                  /\ i < Z.of_nat (List.length vel))
             (threadIds blocks)) with (s := pos) (s' := pos').
    - apply NoDup_zrange.
    - intros i s s' _ Hbody Hi. unfold kernUpdatePos in Hbody.
      destruct (Z.geb_spec i N); [lia |].
      inv_bind Hbody. apply wr_length in Hbody.
      repeat match goal with
             | E : rd _ _ = Ok _ |- _ => apply rd_inv in E as [? _]
             end. lia.
    - intros i j s s' _ Hbody HR Hi. specialize (HR Hi).
      unfold kernUpdatePos in Hbody.
      destruct (j >=? N); [injection Hbody as <-; exact HR |].
      inv_bind Hbody. apply wr_length in Hbody. lia.
    - exact H.
    - apply in_zrange. lia. }
  specialize (Hlast ltac:(lia)). lia.
Qed.

Lemma launch_kernUpdatePos_slot blocks N dt vel pos pos' i :
  launch blocks (kernUpdatePos N dt vel) pos = Ok pos' ->
  N <= blocks * blockSize -> 0 <= i < N ->
  rd pos' i = Ok (integrated (posOf pos i) (velOf vel i) dt).
Proof.
  intros H HN Hi.
  destruct (launch_kernUpdatePos_lengths _ _ _ _ _ _ H ltac:(lia)) as [Hp Hv].
  rewrite launch_kernUpdatePos in H by lia. injection H as <-.
  apply (rd_app_prefix (fun i => integrated (posOf pos i) (velOf vel i) dt)).
  lia.
Qed.

Lemma rd_posOf (pos : list vec3) k p : rd pos k = Ok p -> posOf pos k = p.
Proof.
  intros H. apply rd_inv in H as [_ H]. unfold posOf.
  now apply nth_error_nth.
Qed.

(** X24: a step that completes has moved every boid by [dt] times a
    velocity of that boid, and wrapped it.  The brute-force step uses the
    velocity the boid had before the step; the scattered step uses the
    velocity it has just computed, which it leaves in the same slot of
    [dev_vel1]; the coherent step does so too, slot [i] of its position
    and velocity buffers holding the boid that was in slot
    [dev_particleArrayIndices[i]]. *)
Theorem X24_step_moves_each_boid sort strategy dt d d' i :
  step sort strategy dt d = Ok d' ->
  0 <= i < numObjects d ->
  match strategy with
  | BruteForce =>
      rd (dev_pos d') i
      = Ok (integrated (posOf (dev_pos d) i) (velOf (dev_vel1 d) i) dt)
  | ScatteredGrid =>
      rd (dev_pos d') i
      = Ok (integrated (posOf (dev_pos d) i) (velOf (dev_vel1 d') i) dt)
  | CoherentGrid =>
      exists k,
        rd (dev_particleArrayIndices d') i = Ok k /\
        rd (dev_pos d') i
        = Ok (integrated (posOf (dev_pos d) k) (velOf (dev_vel1 d') i) dt)
  end.
Proof.
  intros H Hi.
  assert (Hcover : numObjects d <= blocksPerGrid d * blockSize)
    by (apply blocks_cover; lia).
  destruct strategy; cbn [step] in H.
  - apply stepSimulationNaive_integrates_previous in H as [<- H].
    eapply launch_kernUpdatePos_slot; eassumption.
  - apply stepSimulationScatteredGrid_integrates_new in H.
    eapply launch_kernUpdatePos_slot; eassumption.
  - apply stepSimulationCoherentGrid_integrates_new in H
      as (pc & vc & Hgather & H).
    destruct (launch_kernPropogateCoherency _ _ _ _ _ _ _ _ _ Hgather i)
      as (k & Hk & Hrd); [exact Hi | lia |].
    exists k. split; [exact Hk |].
    destruct (launch_kernUpdatePos_lengths _ _ _ _ _ _ H ltac:(lia))
      as [Hp _].
    rewrite (rd_nth pc i vzero) in Hrd by lia. symmetry in Hrd.
    apply rd_posOf in Hrd. rewrite Hrd.
    eapply launch_kernUpdatePos_slot; eassumption.
Qed.

(** X24 at the brute-force step of the two boids at rest, boid 1. *)
Lemma X24_step_moves_each_boid_witness :
  rd (dev_pos (gridDevice 2 posRest
                 [mkvec3 (- (9 / 100)) 0 0; mkvec3 (9 / 100) 0 0] velRest
                 [0; 0] [0; 0] cleanTable cleanTable
                 [vzero; vzero] [vzero; vzero])) 1
  = Ok (integrated (posOf (dev_pos twoBoidsAtRest) 1)
                   (velOf (dev_vel1 twoBoidsAtRest) 1) 1).
Proof.
  apply (X24_step_moves_each_boid insertion_sort_by_key BruteForce 1
           twoBoidsAtRest _ 1).
  - apply stepSimulationNaive_twoBoidsAtRest.
  - cbn. lia.
Defined.

(** ** The coherent step leaves the boids in the order of their cells *)

Lemma launch_kernComputeIndices_lengths
    blocks N res gmin inv pos indices gridIndices o :
  launch blocks (kernComputeIndices N res gmin inv pos) (indices, gridIndices)
  = Ok o ->
  0 < N <= blocks * blockSize ->
  N <= Z.of_nat (List.length pos) /\
  N <= Z.of_nat (List.length indices) /\
  N <= Z.of_nat (List.length gridIndices).
Proof.
  intros H HN.
  assert (Hlen : List.length (fst o) = List.length indices /\
                 List.length (snd o) = List.length gridIndices).
  { apply (foldM_invariant
             (fun s : list Z * list Z =>
                List.length (fst s) = List.length indices /\
                List.length (snd s) = List.length gridIndices)
             (kernComputeIndices N res gmin inv pos) (threadIds blocks))
      with (s := (indices, gridIndices)) (s' := o);
      [| split; reflexivity | exact H].
    intros i [a g] s' _ Hbody [Ha Hg]. unfold kernComputeIndices in Hbody.
    destruct (i <? N); [| injection Hbody as <-; split; assumption].
    inv_binds. injection Hbody as <-. cbn [fst snd] in *.
    repeat match goal with
           | E : wr _ _ _ = Ok _ |- _ => apply wr_length in E
           end. split; congruence. }
  assert (Hlast : N - 1 < N ->
                  N - 1 < Z.of_nat (List.length pos) /\
                  N - 1 < Z.of_nat (List.length (fst o)) /\
                  N - 1 < Z.of_nat (List.length (snd o))).
  { apply (foldM_slots (kernComputeIndices N res gmin inv pos)
             (fun i (s : list Z * list Z) =>
                i < N -> i < Z.of_nat (List.length pos) /\
                         i < Z.of_nat (List.length (fst s)) /\
                         i < Z.of_nat (List.length (snd s)))
             (threadIds blocks)) with (s := (indices, gridIndices)) (s' := o).
    - apply NoDup_zrange.
    - intros i [a g] s' _ Hbody Hi. unfold kernComputeIndices in Hbody.
      destruct (Z.ltb_spec i N); [| lia].
      inv_binds. injection Hbody as <-. cbn [fst snd].
      repeat match goal with
             | E : wr _ _ _ = Ok _ |- _ =>
                 pose proof (wr_length _ _ _ _ E);
                 apply wr_inv in E as [? _]
             | E : rd _ _ = Ok _ |- _ => apply rd_inv in E as [? _]
             end. lia.
    - intros i j [a g] s' _ Hbody HR Hi. specialize (HR Hi).
      unfold kernComputeIndices in Hbody.
      destruct (j <? N); [| injection Hbody as <-; exact HR].
      inv_binds. injection Hbody as <-. cbn [fst snd] in *.
      repeat match goal with
             | E : wr _ _ _ = Ok _ |- _ => apply wr_length in E
             end. lia.
    - exact H.
    - apply in_zrange. lia. }
  specialize (Hlast ltac:(lia)). lia.
Qed.

(** The first [n] entries of a buffer, read one by one. *)
Lemma firstn_as_map {A} (l : list A) n dflt :
  (n <= List.length l)%nat ->
  firstn n l = map (fun i => nth (Z.to_nat i) l dflt) (zrange 0 n).
Proof.
  intros Hn. apply (nth_ext _ _ dflt (nth (Z.to_nat 0) l dflt)).
  - rewrite length_firstn, length_map, length_zrange. lia.
  - intros i Hi. rewrite length_firstn in Hi.
    rewrite nth_firstn.
    destruct (Nat.ltb_spec i n); [| lia].
    rewrite (map_nth (fun i => nth (Z.to_nat i) l dflt) (zrange 0 n) 0).
    unfold zrange.
    rewrite (map_nth (fun k => 0 + Z.of_nat k) (seq 0 n) 0%nat).
    rewrite seq_nth by lia. f_equal. lia.
Qed.

Lemma firstn_prefix {A} (l rest : list A) n :
  List.length l = n -> firstn n (l ++ rest) = l.
Proof.
  intros <-. rewrite firstn_app, Nat.sub_diag, firstn_all. cbn.
  apply app_nil_r.
Qed.

Lemma skipn_prefix {A} (l rest : list A) n :
  List.length l = n -> skipn n (l ++ rest) = rest.
Proof.
  intros <-. rewrite skipn_app, skipn_all, Nat.sub_diag. reflexivity.
Qed.

(** What the labelling and the sort leave in the index buffers: keys in
    ascending order, the boids [0 .. N-1] in some order, and beside every
    boid the cell of its position. *)
Lemma computeAndSortIndices_sorted sort d d1 :
  sortsByKey sort ->
  computeAndSortIndices sort d = Ok d1 ->
  0 < numObjects d ->
  (Z.to_nat (numObjects d) <= List.length (dev_pos d))%nat /\
  exists keys values,
    dev_particleArrayIndices d1
    = values ++ skipn (Z.to_nat (numObjects d)) (dev_particleArrayIndices d) /\
    dev_particleGridIndices d1
    = keys ++ skipn (Z.to_nat (numObjects d)) (dev_particleGridIndices d) /\
    List.length keys = Z.to_nat (numObjects d) /\
    List.length values = Z.to_nat (numObjects d) /\
    Sorted Z.le keys /\
    Permutation values (zrange 0 (Z.to_nat (numObjects d))) /\
    forall i, 0 <= i < numObjects d ->
      cellAt keys i
      = cellOf (gridSideCount d) (gridMinimum d) (gridInverseCellWidth d)
          (posOf (dev_pos d) (cellAt values i)).
Proof.
  intros Hsort H HN. unfold computeAndSortIndices in H.
  destruct (launch _ _ _) as [o |] eqn:E; cbn [bind] in H; [| discriminate].
  assert (Hcover : numObjects d <= blocksPerGrid d * blockSize)
    by (apply blocks_cover; lia).
  destruct (launch_kernComputeIndices_lengths _ _ _ _ _ _ _ _ _ E
              ltac:(lia)) as (Hp & Hi & Hg).
  rewrite launch_kernComputeIndices in E by lia. injection E as <-.
  cbv zeta in H.
  cbn [with_indices numObjects dev_particleArrayIndices
       dev_particleGridIndices fst snd] in H.
  set (n := Z.to_nat (numObjects d)) in *.
  set (cell := fun i : Z =>
                 cellOf (gridSideCount d) (gridMinimum d)
                   (gridInverseCellWidth d) (posOf (dev_pos d) i)) in *.
  assert (Hlk : List.length (map cell (zrange 0 n)) = n)
    by (now rewrite length_map, length_zrange).
  assert (Hlv : List.length (map (fun i : Z => i) (zrange 0 n)) = n)
    by (now rewrite length_map, length_zrange).
  rewrite !(firstn_prefix _ _ n), !(skipn_prefix _ _ n) in H by assumption.
  destruct (Hsort (map cell (zrange 0 n)) (map (fun i : Z => i) (zrange 0 n)))
    as (H1 & H2 & Hs & Hperm); [congruence |].
  destruct (sort _ _) as [keys values]. cbn [fst snd] in *.
  injection H as <-.
  split; [lia |]. exists keys, values.
  cbn [with_indices dev_particleArrayIndices dev_particleGridIndices].
  repeat split; try congruence.
  - apply (Permutation_map snd) in Hperm.
    rewrite !map_snd_combine in Hperm by congruence.
    now rewrite map_id in Hperm.
  - intros i Hi'.
    assert (Hin : In (cellAt keys i, cellAt values i) (combine keys values)).
    { unfold cellAt. rewrite <- combine_nth by congruence.
      apply nth_In. rewrite length_combine. lia. }
    apply (Permutation_in _ Hperm) in Hin.
    apply (In_combine_maps cell (fun i : Z => i)) in Hin
      as (x & _ & -> & ->). reflexivity.
Qed.

Lemma rd_prefix (l rest : list Z) i :
  0 <= i < Z.of_nat (List.length l) -> rd (l ++ rest) i = Ok (cellAt l i).
Proof.
  intros Hi. rewrite (rd_nth _ i 0) by (rewrite length_app; lia).
  unfold cellAt. now rewrite app_nth1 by lia.
Qed.

Lemma coherentAfterIdentify_indices sort d d' :
  coherentAfterIdentify sort d = Ok d' ->
  exists d1, computeAndSortIndices sort d = Ok d1 /\
    dev_particleArrayIndices d' = dev_particleArrayIndices d1 /\
    dev_particleGridIndices d' = dev_particleGridIndices d1.
Proof.
  unfold coherentAfterIdentify. rewrite beforeIdentify_commute.
  unfold scatteredBeforeIdentify. intros H.
  destruct (computeAndSortIndices sort d) as [d1 |] eqn:E1;
    cbn [bind] in H; [| discriminate].
  destruct (resetCellTables d1) as [d2 |] eqn:E2;
    cbn [bind] in H; [| discriminate].
  apply resetCellTables_frame in E2 as (s & e & ->).
  apply identifyCells_frame in H as (s' & e' & ->).
  exists d1. repeat split.
Qed.

Lemma stepSimulationCoherentGrid_indices sort dt d d' :
  stepSimulationCoherentGrid sort dt d = Ok d' ->
  exists d1, computeAndSortIndices sort d = Ok d1 /\
    dev_particleArrayIndices d' = dev_particleArrayIndices d1 /\
    dev_particleGridIndices d' = dev_particleGridIndices d1.
Proof.
  unfold stepSimulationCoherentGrid. intros H.
  destruct (coherentAfterIdentify sort d) as [d4 |] eqn:E4;
    cbn [bind] in H; [| discriminate].
  destruct (coherentAfterIdentify_indices _ _ _ E4) as (d1 & E1 & Ha & Hg).
  inv_binds. injection H as <-. exists d1. auto.
Qed.

(** With a sort that sorts, the coherent step at [dt = 0] leaves in the
    first [numObjects] slots the positions that were there, in the
    ascending order of their cells. *)
Lemma stepSimulationCoherentGrid_sorted sort d d' :
  sortsByKey sort ->
  stepSimulationCoherentGrid sort 0 d = Ok d' ->
  Forall inDomain (dev_pos d) ->
  Permutation (firstn (Z.to_nat (numObjects d)) (dev_particleArrayIndices d'))
              (zrange 0 (Z.to_nat (numObjects d))) /\
  Permutation (firstn (Z.to_nat (numObjects d)) (dev_pos d'))
              (firstn (Z.to_nat (numObjects d)) (dev_pos d)) /\
  Sorted Z.le (firstn (Z.to_nat (numObjects d)) (dev_particleGridIndices d')) /\
  forall i, 0 <= i < numObjects d ->
    exists p, rd (dev_pos d') i = Ok p /\
              rd (dev_particleGridIndices d') i
              = Ok (cellOf (gridSideCount d) (gridMinimum d)
                      (gridInverseCellWidth d) p).
Proof.
  intros Hsort H Hdom.
  pose proof (stepSimulationCoherentGrid_dt0 _ _ _ H Hdom) as Hslots.
  destruct (stepSimulationCoherentGrid_indices _ _ _ _ H)
    as (d1 & E1 & Ha & Hg).
  destruct (Z.ltb_spec 0 (numObjects d)) as [HN | HN].
  2:{ replace (Z.to_nat (numObjects d)) with 0%nat by lia. cbn.
      repeat split; try constructor. intros i Hi; lia. }
  destruct (computeAndSortIndices_sorted _ _ _ Hsort E1 HN)
    as (Hp & keys & values & Hai & Hgi & Hlk & Hlv & Hs & Hperm & Hpair).
  rewrite Ha, Hg, Hai, Hgi in *.
  set (n := Z.to_nat (numObjects d)) in *.
  rewrite !(firstn_prefix _ _ n) by assumption.
  assert (Hrd : forall i, 0 <= i < numObjects d ->
                  rd (dev_pos d') i
                  = Ok (posOf (dev_pos d) (cellAt values i))).
  { intros i Hi. destruct (Hslots i Hi) as (k & Hk & ->).
    rewrite rd_prefix in Hk by lia. injection Hk as <-.
    assert (Hin : In (cellAt values i) (zrange 0 n)).
    { apply (Permutation_in _ Hperm). unfold cellAt. apply nth_In. lia. }
    apply in_zrange in Hin. apply rd_nth. lia. }
  assert (Hlen : (n <= List.length (dev_pos d'))%nat).
  { specialize (Hrd (numObjects d - 1) ltac:(lia)).
    apply rd_inv in Hrd as [Hr _]. lia. }
  split; [exact Hperm |]. split; [| split; [exact Hs |]].
  - rewrite (firstn_as_map (dev_pos d) n vzero) by assumption.
    replace (firstn n (dev_pos d'))
      with (map (fun i => nth (Z.to_nat i) (dev_pos d) vzero) values).
    + apply Permutation_map, Hperm.
    + apply (nth_ext _ _ (nth (Z.to_nat 0) (dev_pos d) vzero) vzero).
      * rewrite length_map, length_firstn. lia.
      * intros i Hi. rewrite length_map in Hi.
        rewrite (map_nth (fun i => nth (Z.to_nat i) (dev_pos d) vzero)
                   values 0).
        rewrite nth_firstn. destruct (Nat.ltb_spec i n); [| lia].
        specialize (Hrd (Z.of_nat i) ltac:(lia)).
        apply rd_posOf in Hrd. unfold posOf, cellAt in Hrd.
        rewrite Nat2Z.id in Hrd. symmetry. exact Hrd.
  - intros i Hi. eexists. split; [apply Hrd, Hi |].
    rewrite rd_prefix by lia. f_equal. apply Hpair, Hi.
Qed.

(** C9, amended: a step with [dt = 0] that completes, from positions
    inside the domain, leaves every slot of the position store as it was
    under BruteForce and ScatteredGrid.  Under CoherentGrid slot [i] is
    left with the position that was in slot [dev_particleArrayIndices[i]]
    before the step; and when the sort sorts by key, these indices are
    the boids [0 .. numObjects - 1] in some order, so that the first
    [numObjects] slots hold the same positions as before, and they hold
    them in sorted-cell order: [dev_particleGridIndices[i]] is the cell of
    the position in slot [i], and these cells ascend. *)
Theorem C9_positions_at_dt0 sort strategy d d' :
  step sort strategy 0 d = Ok d' ->
  Forall inDomain (dev_pos d) ->
  match strategy with
  | BruteForce | ScatteredGrid => dev_pos d' = dev_pos d
  | CoherentGrid =>
      (forall i, 0 <= i < numObjects d ->
         exists k, rd (dev_particleArrayIndices d') i = Ok k /\
                   rd (dev_pos d') i = rd (dev_pos d) k) /\
      (sortsByKey sort ->
         Permutation
           (firstn (Z.to_nat (numObjects d)) (dev_particleArrayIndices d'))
           (zrange 0 (Z.to_nat (numObjects d))) /\
         Permutation
           (firstn (Z.to_nat (numObjects d)) (dev_pos d'))
           (firstn (Z.to_nat (numObjects d)) (dev_pos d)) /\
         Sorted Z.le
           (firstn (Z.to_nat (numObjects d)) (dev_particleGridIndices d')) /\
         forall i, 0 <= i < numObjects d ->
           exists p, rd (dev_pos d') i = Ok p /\
                     rd (dev_particleGridIndices d') i
                     = Ok (cellOf (gridSideCount d) (gridMinimum d)
                             (gridInverseCellWidth d) p))
  end.
Proof.
  destruct strategy; cbn [step]; intros H Hdom.
  - eapply stepSimulationNaive_dt0; eassumption.
  - eapply stepSimulationScatteredGrid_dt0; eassumption.
  - split.
    + eapply stepSimulationCoherentGrid_dt0; eassumption.
    + intros Hsort. eapply stepSimulationCoherentGrid_sorted; eassumption.
Qed.

(** C9 at the coherent step of the two boids stored against the cell
    order, with the insertion sort: the step exchanges the two
    positions. *)
Lemma C9_positions_at_dt0_witness :
  exists d',
    step insertion_sort_by_key CoherentGrid 0
      (twoBoidsSwapped cleanTable cleanTable) = Ok d' /\
    dev_pos d' = [mkvec3 (-50) 0 0; mkvec3 50 0 0] /\
    (forall i, 0 <= i < 2 ->
       exists k, rd (dev_particleArrayIndices d') i = Ok k /\
                 rd (dev_pos d') i
                 = rd (dev_pos (twoBoidsSwapped cleanTable cleanTable)) k) /\
    Permutation (firstn 2 (dev_particleArrayIndices d')) (zrange 0 2) /\
    Permutation (firstn 2 (dev_pos d'))
      (firstn 2 (dev_pos (twoBoidsSwapped cleanTable cleanTable))) /\
    Sorted Z.le (firstn 2 (dev_particleGridIndices d')) /\
    forall i, 0 <= i < 2 ->
      exists p, rd (dev_pos d') i = Ok p /\
                rd (dev_particleGridIndices d') i
                = Ok (cellOf 22 (mkvec3 (-110) (-110) (-110)) (1 / 10) p).
Proof.
  eexists. split; [apply stepSimulationCoherentGrid_swapped |].
  split; [reflexivity |].
  destruct (C9_positions_at_dt0 insertion_sort_by_key CoherentGrid
              (twoBoidsSwapped cleanTable cleanTable) _
              stepSimulationCoherentGrid_swapped) as [Hslot Hsorted].
  - repeat constructor; unfold scene_scale; simpl; lra.
  - split; [exact Hslot |]. exact (Hsorted insertion_sort_sortsByKey).
Defined.

(** ** The clamp in binary32 *)

Lemma powerRZ_2_neg (p : positive) :
  powerRZ 2 (Z.neg p) = (/ IZR (2 ^ Z.pos p))%R.
Proof.
  cbn [powerRZ]. f_equal.
  rewrite <- (positive_nat_Z p), <- pow_IZR. reflexivity.
Qed.

(** C6, the counterexample: a single boid with velocity
    (1.09f, -0.5f, -2.0f).  It has no neighbour, so the new velocity is
    its old one, whose length 2.33 exceeds [maxSpeed]; the thread stores
    [normalize(newVector) * maxSpeed] as binary32 computes it,
    (15683856 / 2^25, -14388858 / 2^26, -14388858 / 2^24), about
    (0.46741533, -0.21441069, -0.85764277).  Its length exceeds
    [maxSpeed], both as [glm::length] computes it in binary32 and
    exactly. *)
Lemma C6_binary32_velocity_exceeds_maxSpeed :
  exists stored,
    B32.kernUpdateVelocityBruteForce 1 [B32.vzero] [fastVelocity32] 0
      ([B32.vzero], []) = Ok ([stored], []) /\
    B32.gtb (B32.glm_length stored) B32.maxSpeed = true /\
    (glm_length (vec3_of_B32 stored) > maxSpeed)%R.
Proof.
  exists (B32.mkvec3 (S754_finite false 15683856 (-25))
                     (S754_finite true 14388858 (-26))
                     (S754_finite true 14388858 (-24))).
  split; [vm_compute; reflexivity |].
  split; [vm_compute; reflexivity |].
  unfold vec3_of_B32, glm_length, glm_dot, maxSpeed.
  cbn [B32.vx B32.vy B32.vz B32.toR vx vy vz].
  rewrite !powerRZ_2_neg.
  rewrite <- sqrt_1 at 1. apply sqrt_lt_1_alt.
  change (2 ^ 25) with 33554432. change (2 ^ 26) with 67108864.
  change (2 ^ 24) with 16777216.
  split; [lra |]. lra.
Qed.
